(** * The portfolio / watchlist state-synchronisation layer

    A shallow embedding of the client-side state managers of the dashboard
    (the two React context providers, [WatchlistContext.jsx] and
    [PortfolioContext.jsx]) and of the HTTP client they sit on
    ([services/api.js]).

    - [Js] models the JavaScript values the code handles (parsed JSON,
      [undefined], thrown errors) with the dynamic operations the code
      applies to them: property reads, truthiness, [||], [===], the
      array methods [find], [filter] and [some], spread and [String(v)].
    - [Eff] is the effect monad: a computation reads and writes
      [localStorage], appends to an event log (every React state setter
      called, every remote call issued, in program order), and completes
      normally or by throwing.  An [await] of a rejected promise is a throw.
    - [ApiClient], [WatchlistContext] and [PortfolioContext] follow the
      source function by function.  A provider awaits a service call as
      [ApiClient.settled]: the call settles to what the service answers
      and has done to localStorage what [request] does on the way.  A callback created by [useCallback]
      reads the provider state it closed over, so every operation that
      reads state takes that snapshot as an argument; what it writes is
      the list of setter calls in its log, which [run_log] replays on a
      state. *)

From stdpp Require Import gmap strings pretty.

#[local] Set Warnings "-register-all".

(* ===================================================================== *)
(** * JavaScript values *)
(* ===================================================================== *)

Module Js.

(** A number [JNum m e] stands for the decimal [m * 10^(-e)]; the integer
    [n] is [JNum n 0].  JSON has no NaN and no infinities.  A JavaScript
    number is a double: [exact] below says when a decimal is one that a
    double is printed as. *)
Inductive jval : Type :=
| JUndef
| JNull
| JBool (b : bool)
| JNum (mant : Z) (scale : nat)
| JStr (s : string)
| JArr (elems : list jval)
| JObj (fields : list (string * jval)).

Definition JInt (n : Z) : jval := JNum n 0.

(** A thrown [Error]: its [name] and its [message]. *)
Record exn : Type := mkExn { exn_name : string; exn_message : string }.

(** How an evaluation ends; also the settled state of a promise
    ([Normal] fulfilled, [Throw] rejected). *)
Inductive completion (A : Type) : Type :=
| Normal (a : A)
| Throw (e : exn).
Arguments Normal {A} a.
Arguments Throw {A} e.

Definition TypeError (msg : string) : exn := mkExn "TypeError" msg.
Definition SyntaxError (msg : string) : exn := mkExn "SyntaxError" msg.

(** ** Truthiness and the short-circuit operators *)

Definition truthy (v : jval) : bool :=
  match v with
  | JUndef | JNull => false
  | JBool b => b
  | JNum m _ => negb (m =? 0)%Z
  | JStr s => negb (String.eqb s "")
  | JArr _ | JObj _ => true
  end.

(** [a || b] *)
Definition js_or (a b : jval) : jval := if truthy a then a else b.

(** ** Property reads *)

Fixpoint assoc (k : string) (fs : list (string * jval)) : jval :=
  match fs with
  | [] => JUndef
  | (k', v) :: r => if String.eqb k k' then v else assoc k r
  end.

Definition nullish (v : jval) : bool :=
  match v with JUndef | JNull => true | _ => false end.

Definition type_name (v : jval) : string :=
  match v with JNull => "null" | _ => "undefined" end.

Definition cannot_read (v : jval) (k : string) : exn :=
  TypeError ("Cannot read properties of " +:+ type_name v +:+
             " (reading '" +:+ k +:+ "')").

(** [v.k] for a property name [k] that is not a method: reading a property
    of [null] or [undefined] throws; a missing property is [undefined]. *)
Definition get (v : jval) (k : string) : completion jval :=
  match v with
  | JUndef | JNull => Throw (cannot_read v k)
  | JObj fs => Normal (assoc k fs)
  | JArr l => if String.eqb k "length" then Normal (JInt (Z.of_nat (length l)))
              else Normal JUndef
  | JStr s => if String.eqb k "length"
              then Normal (JInt (Z.of_nat (String.length s)))
              else Normal JUndef
  | JBool _ | JNum _ _ => Normal JUndef
  end.

(** [v?.k] *)
Definition get_opt (v : jval) (k : string) : completion jval :=
  if nullish v then Normal JUndef else get v k.

(** [v[0]] *)
Definition get_first (v : jval) : completion jval :=
  match v with
  | JUndef | JNull => Throw (cannot_read v "0")
  | JArr l => Normal (match l with x :: _ => x | [] => JUndef end)
  | JStr s => Normal (match s with
                      | String c _ => JStr (String c EmptyString)
                      | EmptyString => JUndef
                      end)
  | JObj fs => Normal (assoc "0" fs)
  | JBool _ | JNum _ _ => Normal JUndef
  end.

(** ** Strict equality

    Primitives compare by value.  Two objects or arrays are equal only
    when they are the same allocation, which a value of [jval] does not
    record: [strict_eq] answers [false] for them, which is right whenever
    the two operands come from different allocations (a freshly parsed
    payload and an argument), and whenever one operand is a primitive.
    The properties below that compare an argument of the caller assume
    that the argument is [primitive].  Numbers compare by their decimal
    value, which is how their doubles compare when both are [exact]. *)
Definition primitive (v : jval) : bool :=
  match v with JArr _ | JObj _ => false | _ => true end.

Definition strict_eq (a b : jval) : bool :=
  match a, b with
  | JUndef, JUndef => true
  | JNull, JNull => true
  | JBool x, JBool y => Bool.eqb x y
  | JNum m e, JNum m' e' =>
      (m * 10 ^ Z.of_nat e' =? m' * 10 ^ Z.of_nat e)%Z
  | JStr x, JStr y => String.eqb x y
  | _, _ => false
  end.

(** [v > 0], for the operands a [length] read produces: numbers, and the
    primitives that convert to a number without parsing ([true] is 1,
    [null] is 0, [undefined] is NaN).  A string, array or object operand
    would go through StringToNumber, which no list the code receives
    needs; it compares [false] here. *)
Definition gt_zero (v : jval) : bool :=
  match v with
  | JNum m _ => (0 <? m)%Z
  | JBool b => b
  | _ => false
  end.

(** ** Array methods *)

(** Calling [callee.meth(...)] on a value without that method.  The
    message is the engine's: it names the callee as the call is written
    in the source, so the array methods below take that text. *)
Definition not_a_function (callee : string) (v : jval) (meth : string) : exn :=
  if nullish v then cannot_read v meth
  else TypeError (callee +:+ "." +:+ meth +:+ " is not a function").

Section Predicates.
(** The receiver as the source writes it, and the callback. *)
Variable callee : string.
Variable p : jval -> completion bool.

Fixpoint find_list (l : list jval) : completion jval :=
  match l with
  | [] => Normal JUndef
  | x :: r => match p x with
              | Throw e => Throw e
              | Normal true => Normal x
              | Normal false => find_list r
              end
  end.

Fixpoint filter_list (l : list jval) : completion (list jval) :=
  match l with
  | [] => Normal []
  | x :: r => match p x with
              | Throw e => Throw e
              | Normal b =>
                  match filter_list r with
                  | Throw e => Throw e
                  | Normal r' => Normal (if b then x :: r' else r')
                  end
              end
  end.

Fixpoint some_list (l : list jval) : completion bool :=
  match l with
  | [] => Normal false
  | x :: r => match p x with
              | Throw e => Throw e
              | Normal true => Normal true
              | Normal false => some_list r
              end
  end.

(** [v.find(p)], [v.filter(p)], [v.some(p)]: only arrays have them. *)
Definition js_find (v : jval) : completion jval :=
  match v with
  | JArr l => find_list l
  | _ => Throw (not_a_function callee v "find")
  end.

Definition js_filter (v : jval) : completion jval :=
  match v with
  | JArr l => match filter_list l with
              | Normal r => Normal (JArr r)
              | Throw e => Throw e
              end
  | _ => Throw (not_a_function callee v "filter")
  end.

Definition js_some (v : jval) : completion bool :=
  match v with
  | JArr l => some_list l
  | _ => Throw (not_a_function callee v "some")
  end.

End Predicates.

(** [x => x.k === target] and [x => x.k !== target] *)
Definition field_is (k : string) (target x : jval) : completion bool :=
  match get x k with
  | Normal v => Normal (strict_eq v target)
  | Throw e => Throw e
  end.

Definition field_is_not (k : string) (target x : jval) : completion bool :=
  match get x k with
  | Normal v => Normal (negb (strict_eq v target))
  | Throw e => Throw e
  end.

Fixpoint chars (s : string) : list jval :=
  match s with
  | EmptyString => []
  | String c r => JStr (String c EmptyString) :: chars r
  end.

(** The elements [...v] spreads into an array literal: an array spreads
    its elements, a string its characters, anything else is not
    iterable ([source] is the spread expression as the source writes
    it). *)
Definition spread (source : string) (v : jval) : completion (list jval) :=
  match v with
  | JArr l => Normal l
  | JStr s => Normal (chars s)
  | _ => Throw (TypeError (source +:+ " is not iterable"))
  end.

(** ** Strings *)

(** Text whose bytes are all ASCII. *)
Fixpoint ascii_text (s : string) : bool :=
  match s with
  | EmptyString => true
  | String c r => (Ascii.nat_of_ascii c <? 128) && ascii_text r
  end.

Definition upper_ascii (c : Ascii.ascii) : Ascii.ascii :=
  let n := Ascii.nat_of_ascii c in
  if (97 <=? n) && (n <=? 122) then Ascii.ascii_of_nat (n - 32) else c.

(** [s.toUpperCase()] for [ascii_text]: the letters a-z become A-Z and
    every other character stays.  (Outside ASCII the method maps by the
    Unicode tables, which these byte strings do not carry; what is proved
    about the upper-cased text is proved for ASCII text.) *)
Fixpoint upper (s : string) : string :=
  match s with
  | EmptyString => EmptyString
  | String c r => String (upper_ascii c) (upper r)
  end.

(** [callee.toUpperCase()]: a method of strings only. *)
Definition toUpperCase (callee : string) (v : jval) : completion string :=
  match v with
  | JStr s => Normal (upper s)
  | _ => Throw (not_a_function callee v "toUpperCase")
  end.

(** [haystack.includes(needle)] *)
Fixpoint includes (needle haystack : string) : bool :=
  String.prefix needle haystack ||
  match haystack with
  | EmptyString => false
  | String _ r => includes needle r
  end.

Fixpoint zeros (n : nat) : string :=
  match n with O => "" | S n' => "0" +:+ zeros n' end.

(** A text of digits without its trailing zeros. *)
Fixpoint significant (digits : string) : string :=
  match digits with
  | EmptyString => EmptyString
  | String c r =>
      match significant r with
      | EmptyString =>
          if Ascii.nat_of_ascii c =? 48 then EmptyString
          else String c EmptyString
      | r' => String c r'
      end
  end.

(** The digits [s] of a number other than zero, without trailing zeros,
    and the position [n] of its decimal point counted from the first
    digit: the number is [0.s * 10^n]. *)
Definition digits_of (m : Z) : string := significant (pretty (Z.abs m)).
Definition point_of (m : Z) (e : nat) : Z :=
  (Z.of_nat (String.length (pretty (Z.abs m))) - Z.of_nat e)%Z.

(** [String(x)] for a number (Number::toString): positional notation
    when the decimal point lies between 6 places before the first digit
    and 21 places after it, and exponent notation otherwise. *)
Definition num_to_string (m : Z) (e : nat) : string :=
  if (m =? 0)%Z then "0"
  else
    let s := digits_of m in
    let k := Z.of_nat (String.length s) in
    let n := point_of m e in
    (if (m <? 0)%Z then "-" else "") +:+
    (if (k <=? n)%Z && (n <=? 21)%Z then s +:+ zeros (Z.to_nat (n - k))
     else if (0 <? n)%Z && (n <=? 21)%Z then
       String.substring 0 (Z.to_nat n) s +:+ "." +:+
       String.substring (Z.to_nat n) (Z.to_nat (k - n)) s
     else if (-6 <? n)%Z && (n <=? 0)%Z then
       "0." +:+ zeros (Z.to_nat (- n)) +:+ s
     else
       let x := (n - 1)%Z in
       let exponent :=
         "e" +:+ (if (x <? 0)%Z then "-" else "+") +:+ pretty (Z.abs x) in
       if (k =? 1)%Z then s +:+ exponent
       else String.substring 0 1 s +:+ "." +:+
            String.substring 1 (Z.to_nat (k - 1)) s +:+ exponent).

(** A decimal that a double is printed as: zero, or at most 15
    significant digits with the decimal point within 300 places of the
    first digit.  (Such a decimal is the shortest that identifies the
    double nearest to it, which is what [String] and [JSON.stringify]
    print; a longer decimal would be rounded when it is read.) *)
Definition exact_number (m : Z) (e : nat) : bool :=
  (m =? 0)%Z ||
  ((String.length (digits_of m) <=? 15) &&
   (-300 <=? point_of m e)%Z && (point_of m e <=? 300)%Z).

(** A value all of whose numbers are [exact_number]s. *)
Fixpoint exact (v : jval) : bool :=
  match v with
  | JNum m e => exact_number m e
  | JArr l => forallb exact l
  | JObj fs => forallb (fun kv => exact (snd kv)) fs
  | _ => true
  end.

(** [String(v)] *)
Fixpoint js_to_string (v : jval) : string :=
  match v with
  | JUndef => "undefined"
  | JNull => "null"
  | JBool true => "true"
  | JBool false => "false"
  | JNum m e => num_to_string m e
  | JStr s => s
  | JArr l =>
      (fix join (l : list jval) : string :=
         match l with
         | [] => ""
         | x :: r =>
             (if nullish x then "" else js_to_string x) +:+
             match r with [] => "" | _ :: _ => "," +:+ join r end
         end) l
  | JObj _ => "[object Object]"
  end.

(** [new Error(v)]: the message is [String(v)], or empty for [undefined]. *)
Definition Error (v : jval) : exn :=
  mkExn "Error" (match v with JUndef => "" | _ => js_to_string v end).

(** ** Response envelopes

    What the API client resolves to and what the context operations
    return: [{success: true, data, status}] or [{success: false, error}]. *)
Inductive envelope : Type :=
| Success (data : jval) (status : jval)
| Failure (error : jval).

Definition env_success (r : envelope) : bool :=
  match r with Success _ _ => true | Failure _ => false end.
Definition env_data (r : envelope) : jval :=
  match r with Success d _ => d | Failure _ => JUndef end.
Definition env_error (r : envelope) : jval :=
  match r with Success _ _ => JUndef | Failure e => e end.

(** A remote request failed: its promise rejected, or it resolved to a
    failure envelope. *)
Definition failed (o : completion envelope) : bool :=
  match o with Normal (Success _ _) => false | _ => true end.

(** ** localStorage

    A stored string is kept by what [JSON.parse] makes of it: [Json v] is
    the text [JSON.stringify(v)], which parses back to [v]; [Raw t] is any
    other text [t] (a bearer token, a corrupted snapshot), on which
    [JSON.parse] throws. *)
Inductive stored : Type :=
| Raw (text : string)
| Json (v : jval).

Abbreviation storage := (gmap string stored).

(** [!item] for an item read from localStorage: only the empty string is
    falsy (a serialisation is never empty). *)
Definition stored_truthy (x : stored) : bool :=
  match x with
  | Raw t => negb (String.eqb t "")
  | Json _ => true
  end.

Definition JSON_parse (x : stored) : completion jval :=
  match x with
  | Json v => Normal v
  | Raw _ => Throw (SyntaxError "Unexpected token in JSON")
  end.

End Js.

(* ===================================================================== *)
(** * Effects: localStorage, the event log, exceptions *)
(* ===================================================================== *)

Module Eff.
Import Js.

(** What a computation leaves behind: how it completed, the storage
    afterwards and the events it emitted, oldest first. *)
Record result (E A : Type) : Type := mkResult {
  res : completion A;
  store : storage;
  log : list E;
}.
Arguments mkResult {E A} res store log.
Arguments res {E A} r.
Arguments store {E A} r.
Arguments log {E A} r.

Definition M (E A : Type) : Type := storage -> result E A.

Section Monad.
Context {E : Type}.

Definition ret {A} (a : A) : M E A := fun s => mkResult (Normal a) s [].

Definition throw {A} (e : exn) : M E A := fun s => mkResult (Throw e) s [].

Definition bind {A B} (m : M E A) (k : A -> M E B) : M E B := fun s =>
  let r := m s in
  match res r with
  | Normal a => let r' := k a (store r) in
                mkResult (res r') (store r') (log r ++ log r')
  | Throw e => mkResult (Throw e) (store r) (log r)
  end.

(** A pure evaluation that may throw. *)
Definition lift {A} (c : completion A) : M E A := fun s => mkResult c s [].

Definition emit (e : E) : M E unit := fun s => mkResult (Normal tt) s [e].

(** [try { body } catch (err) { handler }] *)
Definition try_catch {A} (body : M E A) (handler : exn -> M E A) : M E A :=
  fun s =>
  let r := body s in
  match res r with
  | Normal _ => r
  | Throw e => let r' := handler e (store r) in
               mkResult (res r') (store r') (log r ++ log r')
  end.

(** [try { body } finally { fin }]: [fin] runs however [body] completes,
    and the completion of [body] stands unless [fin] itself throws. *)
Definition try_finally {A} (body : M E A) (fin : M E unit) : M E A :=
  fun s =>
  let r := body s in
  let r' := fin (store r) in
  match res r' with
  | Normal _ => mkResult (res r) (store r') (log r ++ log r')
  | Throw e => mkResult (Throw e) (store r') (log r ++ log r')
  end.

(** [localStorage.getItem(key)], [removeItem] and [setItem] *)
Definition getItem (key : string) : M E (option stored) :=
  fun s => mkResult (Normal (s !! key)) s [].

Definition removeItem (key : string) : M E unit :=
  fun s => mkResult (Normal tt) (delete key s) [].

Definition setItem (key : string) (x : stored) : M E unit :=
  fun s => mkResult (Normal tt) (<[key := x]> s) [].

End Monad.

Declare Scope eff_scope.
Delimit Scope eff_scope with eff.
Notation "'let!' x ':=' m 'in' k" := (bind m (fun x => k))
  (at level 10, x name, m at level 100, k at level 200) : eff_scope.
Notation "m '>>' k" := (bind m (fun _ => k))
  (at level 100, k at level 200, right associativity) : eff_scope.

End Eff.

(* ===================================================================== *)
(** * The remote resource client ([services/api.js]) *)
(* ===================================================================== *)

Module ApiClient.
Import Js Eff.
#[local] Open Scope eff_scope.

(** The client emits no events; it only touches localStorage. *)
Definition E : Type := Empty_set.

(** [STORAGE_KEYS.AUTH_TOKEN] *)
Definition AUTH_TOKEN : string := "auth_token".

(** A [Response] as [fetch] resolves it: the status line, the
    [content-type] header ([None] when [headers.get] gives [null]) and
    what reading the body as JSON or as text settles to. *)
Record response : Type := mkResponse {
  status : Z;
  content_type : option string;
  json : completion jval;
  text : completion string;
}.

(** [response.ok]: a status in the range 200-299. *)
Definition ok (r : response) : bool :=
  ((200 <=? status r) && (status r <=? 299))%Z.

(** What [await fetch(url, config)] does: throw (the transport failed, or
    the abort signal fired and the error is named [AbortError]) or give a
    response. *)
Inductive fetch_result : Type :=
| Rejected (e : exn)
| Responded (r : response).

Definition getAuthToken : M E (option stored) := getItem AUTH_TOKEN.

Definition setAuthToken (token : jval) : M E unit :=
  if truthy token then setItem AUTH_TOKEN (Raw (js_to_string token))
  else removeItem AUTH_TOKEN.

(** [contentType && contentType.includes('application/json')] *)
Definition is_json (r : response) : bool :=
  match content_type r with
  | Some ct => negb (String.eqb ct "") && includes "application/json" ct
  | None => false
  end.

Definition http_code (r : response) : string := "HTTP_" +:+ pretty (status r).

Definition status_message (st : Z) : string :=
  if (st =? 401)%Z then "Unauthorized. Please log in."
  else if (st =? 403)%Z then "Access forbidden."
  else if (st =? 404)%Z then "Resource not found."
  else if (st =? 422)%Z then "Validation error."
  else if (st =? 500)%Z then "Server error. Please try again later."
  else if (st =? 503)%Z then "Service unavailable. Please try again later."
  else "An error occurred".

(** The callback of [response.json().then(...)]. *)
Definition parsed_error (r : response) (data : jval) : M E envelope :=
  let! message := lift (get data "message") in
  let! error := lift (get data "error") in
  let! code := lift (get data "code") in
  let! details := lift (get data "details") in
  ret (Failure (JObj [
    ("message", js_or message (js_or error (JStr "An error occurred")));
    ("code", js_or code (JStr (http_code r)));
    ("status", JInt (status r));
    ("details", js_or details data)])).

(** [handleError(error, response)].  The function is not [async]: what it
    does itself (the outer computation, including clearing the token) is
    done when it returns; what it returns is a plain object or a promise
    (the inner computation), which settles later, outside of any [try]
    that surrounded the call. *)
Definition handleError (error : option exn) (resp : option response)
  : M E (M E envelope) :=
  match resp with
  | None =>
      match error with
      | None => throw (cannot_read JNull "message")
      | Some err =>
          ret (ret (Failure (JObj [
            ("message", JStr "Network error. Please check your connection.");
            ("code", JStr "NETWORK_ERROR");
            ("details", JStr (exn_message err))])))
      end
  | Some r =>
      let errorData (message : string) : envelope :=
        Failure (JObj [("message", JStr message);
                       ("code", JStr (http_code r));
                       ("status", JInt (status r))]) in
      let! early :=
        try_catch
          (if is_json r
           then ret (Some (let! data := lift (json r) in parsed_error r data))
           else ret None)
          (fun _ => ret None) in
      match early with
      | Some promise => ret promise
      | None =>
          (if (status r =? 401)%Z then setAuthToken JNull else ret tt) >>
          ret (ret (errorData (status_message (status r))))
      end
  end.

Definition timeout_error : envelope :=
  Failure (JObj [("message", JStr "Request timeout. Please try again.");
                 ("code", JStr "TIMEOUT_ERROR")]).

(** [request(endpoint, options)] from the [try] on, for what [fetch]
    does.  A [return] of a promise without [await] leaves the [try] at
    once; the promise is adopted by the caller's promise afterwards. *)
Definition request (net : fetch_result) : M E envelope :=
  let! returned :=
    try_catch
      (let! r := lift (match net with
                       | Rejected e => Throw e
                       | Responded r => Normal r
                       end) in
       if negb (ok r) then handleError None (Some r)
       else
         let! responseData :=
           (if is_json r then lift (json r)
            else let! t := lift (text r) in ret (JStr t)) in
         ret (ret (Success responseData (JInt (status r)))))
      (fun error =>
         if String.eqb (exn_name error) "AbortError"
         then ret (ret timeout_error)
         else handleError (Some error) None) in
  returned.

(** ** What a service call leaves behind

    Every method of the services is [request] behind a route.  By the time
    its promise settles, [request] has removed the stored token if, and
    only if, it resolves to the envelope of a 401 that did not announce
    JSON: the only envelope whose error has exactly the properties
    [message], [code] and [status] with these values. *)
Definition is_unauthorized_error (v : jval) : bool :=
  match v with
  | JObj [(k1, message); (k2, code); (k3, st)] =>
      String.eqb k1 "message" &&
      strict_eq message (JStr (status_message 401)) &&
      String.eqb k2 "code" && strict_eq code (JStr "HTTP_401") &&
      String.eqb k3 "status" && strict_eq st (JInt 401)
  | _ => false
  end.

Definition clears_token (o : completion envelope) : bool :=
  match o with
  | Normal (Failure e) => is_unauthorized_error e
  | _ => false
  end.

(** localStorage after a service call that settled to [o]. *)
Definition after_call (o : completion envelope) (s : storage) : storage :=
  if clears_token o then delete AUTH_TOKEN s else s.

(** [await service.method(...)] for a promise that settles to [o]. *)
Definition settled {Ev : Type} (o : completion envelope) : M Ev envelope :=
  (if clears_token o then removeItem AUTH_TOKEN else ret tt) >> lift o.

End ApiClient.

(* ===================================================================== *)
(** * The watchlist state manager ([WatchlistContext.jsx]) *)
(* ===================================================================== *)

Module WatchlistContext.
Import Js Eff.
#[local] Open Scope eff_scope.

(** ** Fixtures of [utils/mockData.js] *)

Definition mockWatchlists : jval := JArr [
  JObj [("id", JStr "watchlist-1"); ("name", JStr "Tech Stocks");
        ("description", JStr "Technology sector watchlist");
        ("createdAt", JStr "2024-01-10T00:00:00.000Z")];
  JObj [("id", JStr "watchlist-2"); ("name", JStr "High Dividend");
        ("description", JStr "Stocks with high dividend yields");
        ("createdAt", JStr "2024-02-15T00:00:00.000Z")]].

Definition mockWatchlistItems : jval := JArr [
  JObj [("id", JStr "watch-1"); ("watchlistId", JStr "watchlist-1");
        ("symbol", JStr "META"); ("name", JStr "Meta Platforms Inc.");
        ("price", JNum 47523 2); ("change", JNum 845 2);
        ("changePercent", JNum 181 2);
        ("notes", JStr "Watching for entry point");
        ("addedAt", JStr "2024-10-15T00:00:00.000Z")];
  JObj [("id", JStr "watch-2"); ("watchlistId", JStr "watchlist-1");
        ("symbol", JStr "NFLX"); ("name", JStr "Netflix Inc.");
        ("price", JNum 63218 2); ("change", JNum (-532) 2);
        ("changePercent", JNum (-83) 2);
        ("notes", JStr "Strong Q3 earnings");
        ("addedAt", JStr "2024-10-20T00:00:00.000Z")];
  JObj [("id", JStr "watch-3"); ("watchlistId", JStr "watchlist-1");
        ("symbol", JStr "AMD"); ("name", JStr "Advanced Micro Devices");
        ("price", JNum 14267 2); ("change", JNum 321 2);
        ("changePercent", JNum 230 2);
        ("notes", JStr "AI chip competition");
        ("addedAt", JStr "2024-10-25T00:00:00.000Z")]].

(** The localStorage key of the watchlist snapshot. *)
Definition MOCK_KEY : string := "mockWatchlistData".

(** ** Remote calls and state setters *)

(** The methods of [watchlistService] the provider calls. *)
Inductive call : Type :=
| GetAll
| GetWithItems (watchlistId : jval)
| GetItems (watchlistId : jval)
| AddStock (watchlistId symbol notes : jval)
| RemoveStock (watchlistId itemId : jval)
| Create (data : jval)
| Update (watchlistId data : jval)
| Delete (watchlistId : jval).

Inductive event : Type :=
| SetWatchlists (v : jval)
| SetCurrentWatchlist (v : jval)
| SetItems (v : jval)
| SetLoading (b : bool)
| SetError (v : jval)
(** [setItems(prevItems => prevItems.filter(item => item.id !== itemId))] *)
| FilterItems (itemId : jval)
(** the updater [createWatchlist] queues with [setWatchlists]: it checks
    that [data.id] is in the list, starts [selectWatchlist(data.id)] if
    so, and returns the list unchanged.  The state it returns is
    [apply_event]'s; the selection it starts is [started]'s, and
    [createWatchlist_rendered] runs it. *)
| VerifyThenSelect (data : jval)
| Remote (c : call).

(** The provider's state, one field per [useState]. *)
Record state : Type := mkState {
  watchlists : jval;
  currentWatchlist : jval;
  items : jval;
  loading : bool;
  error : jval;
}.

Definition initial : state := mkState (JArr []) JNull (JArr []) false JNull.

(** The body of the updater behind [VerifyThenSelect]: the id to select,
    if any. *)
Definition verify_select (currentWatchlists data : jval)
  : completion (option jval) :=
  match js_some "currentWatchlists" (fun w => match get w "id" with
                          | Throw e => Throw e
                          | Normal wid =>
                              match get data "id" with
                              | Throw e => Throw e
                              | Normal id => Normal (strict_eq wid id)
                              end
                          end) currentWatchlists with
  | Throw e => Throw e
  | Normal true => match get data "id" with
                   | Throw e => Throw e
                   | Normal id => Normal (Some id)
                   end
  | Normal false => Normal None
  end.

(** One setter call applied to the state: the state the setter or the
    updater returns.  An updater that throws does so while React renders.
    [VerifyThenSelect] returns the list it was given; the call of
    [selectWatchlist] it makes on the way is not a change of its own to
    the state and is accounted for by [started]. *)
Definition apply_event (st : state) (ev : event) : completion state :=
  match ev with
  | SetWatchlists v =>
      Normal (mkState v (currentWatchlist st) (items st) (loading st) (error st))
  | SetCurrentWatchlist v =>
      Normal (mkState (watchlists st) v (items st) (loading st) (error st))
  | SetItems v =>
      Normal (mkState (watchlists st) (currentWatchlist st) v (loading st) (error st))
  | SetLoading b =>
      Normal (mkState (watchlists st) (currentWatchlist st) (items st) b (error st))
  | SetError v =>
      Normal (mkState (watchlists st) (currentWatchlist st) (items st) (loading st) v)
  | FilterItems itemId =>
      match js_filter "prevItems" (field_is_not "id" itemId) (items st) with
      | Normal v =>
          Normal (mkState (watchlists st) (currentWatchlist st) v (loading st) (error st))
      | Throw e => Throw e
      end
  | VerifyThenSelect data =>
      match verify_select (watchlists st) data with
      | Normal _ => Normal st
      | Throw e => Throw e
      end
  | Remote _ => Normal st
  end.

Fixpoint run_log (st : state) (evs : list event) : completion state :=
  match evs with
  | [] => Normal st
  | ev :: r => match apply_event st ev with
               | Normal st' => run_log st' r
               | Throw e => Throw e
               end
  end.

(** The selections the updaters of a log start when React runs them
    against [st], in order: the ids [selectWatchlist] is called with. *)
Fixpoint started (st : state) (evs : list event) : completion (list jval) :=
  match evs with
  | [] => Normal []
  | ev :: r =>
      match (match ev with
             | VerifyThenSelect data => verify_select (watchlists st) data
             | _ => Normal None
             end) with
      | Throw e => Throw e
      | Normal here =>
          match apply_event st ev with
          | Throw e => Throw e
          | Normal st' =>
              match started st' r with
              | Throw e => Throw e
              | Normal later =>
                  Normal (match here with
                          | Some id => id :: later
                          | None => later
                          end)
              end
          end
      end
  end.

(** The remote calls among the events of a log. *)
Fixpoint calls (evs : list event) : list call :=
  match evs with
  | [] => []
  | Remote c :: r => c :: calls r
  | _ :: r => calls r
  end.

(** The values passed to [setLoading], in program order. *)
Fixpoint loading_writes (evs : list event) : list bool :=
  match evs with
  | [] => []
  | SetLoading b :: r => b :: loading_writes r
  | _ :: r => loading_writes r
  end.

(** The first thing the log does is [setLoading(true)], the last is
    [setLoading(false)]. *)
Definition brackets_loading (evs : list event) : Prop :=
  head evs = Some (SetLoading true) /\ last evs = Some (SetLoading false).

(** The events a fetch of the collection may log, and those a selection
    may log. *)
Definition collection_event (ev : event) : bool :=
  match ev with
  | SetWatchlists _ | SetLoading _ | SetError _ | Remote _ => true
  | _ => false
  end.

Definition selection_event (ev : event) : bool :=
  match ev with
  | SetCurrentWatchlist _ | SetItems _ | SetLoading _ | SetError _
  | Remote _ => true
  | _ => false
  end.

(** [safeParseMockData()] *)
Definition safeParseMockData : M event jval :=
  try_catch
    (let! mockData := getItem MOCK_KEY in
     match mockData with
     | None => ret JNull
     | Some x => if negb (stored_truthy x) then ret JNull
                 else lift (JSON_parse x)
     end)
    (fun parseError => removeItem MOCK_KEY >> ret JNull).

Section Operations.

(** What the service's promise settles to for each call: the envelope
    the API client resolves to, or a rejection.  What the call does to
    localStorage on the way is [ApiClient.settled]'s. *)
Variable remote : call -> completion envelope.
(** [Date.now()] and [new Date().toISOString()] when [addStock] reads
    the clock. *)
Variable now : Z.
Variable iso : string.

(** [await watchlistService.m(...)] *)
Definition await (c : call) : M event envelope :=
  emit (Remote c) >> ApiClient.settled (remote c).

(** [response.error?.message || fallback] *)
Definition error_message (response : envelope) (fallback : string)
  : completion jval :=
  match get_opt (env_error response) "message" with
  | Normal m => Normal (js_or m (JStr fallback))
  | Throw e => Throw e
  end.

Definition fetchWatchlists : M event unit :=
  emit (SetLoading true) >>
  emit (SetError JNull) >>
  try_finally
    (try_catch
       (let! response := await GetAll in
        if env_success response then
          let! inner := lift (get (env_data response) "watchlists") in
          let watchlistList :=
            js_or inner (js_or (env_data response) (JArr [])) in
          emit (SetWatchlists watchlistList)
        else
          let! msg := lift (error_message response "Failed to fetch watchlists") in
          throw (Error msg))
       (fun err =>
          let! mockData := safeParseMockData in
          let! cached := (if truthy mockData
                          then lift (get mockData "watchlists")
                          else ret mockData) in
          (if truthy cached then emit (SetWatchlists cached)
           else emit (SetWatchlists mockWatchlists)) >>
          emit (SetError (JStr (exn_message err)))))
    (emit (SetLoading false)).

Definition selectWatchlist (watchlistId : jval) : M event unit :=
  emit (SetLoading true) >>
  emit (SetError JNull) >>
  try_finally
    (try_catch
       (let! response := await (GetWithItems watchlistId) in
        if env_success response then
          let! w := lift (get (env_data response) "watchlist") in
          emit (SetCurrentWatchlist (js_or w (env_data response))) >>
          let! its := lift (get (env_data response) "items") in
          emit (SetItems (js_or its (JArr [])))
        else
          let! msg := lift (error_message response "Failed to fetch watchlist items") in
          throw (Error msg))
       (fun err =>
          let! mockData := safeParseMockData in
          let! ws := (if truthy mockData
                      then lift (get mockData "watchlists")
                      else ret mockData) in
          let! its := (if truthy ws
                       then lift (get mockData "items")
                       else ret ws) in
          (if truthy its then
             let! watchlist := lift (js_find "mockData.watchlists" (field_is "id" watchlistId) ws) in
             let! found :=
               lift (js_filter "mockData.items"
                       (field_is "watchlistId" watchlistId) its) in
             emit (SetCurrentWatchlist (js_or watchlist JNull)) >>
             emit (SetItems found)
           else
             let! watchlist :=
               lift (js_find "mockWatchlists" (field_is "id" watchlistId)
                     mockWatchlists) in
             let! found :=
               lift (js_filter "mockWatchlistItems"
                               (field_is "watchlistId" watchlistId)
                               mockWatchlistItems) in
             emit (SetCurrentWatchlist (js_or watchlist JNull)) >>
             emit (SetItems found)) >>
          emit (SetError (JStr (exn_message err)))))
    (emit (SetLoading false)).

Definition no_selection : envelope :=
  Failure (JObj [("message", JStr "No watchlist selected")]).

(** [addStock(symbol, notes = '')], closed over [st]. *)
Definition addStock (st : state) (symbol notes0 : jval) : M event envelope :=
  let notes := match notes0 with JUndef => JStr "" | _ => notes0 end in
  if negb (truthy (currentWatchlist st)) then ret no_selection
  else
    emit (SetLoading true) >>
    try_finally
      (try_catch
         (let! id := lift (get (currentWatchlist st) "id") in
          let! response := await (AddStock id symbol notes) in
          (if env_success response then
             try_catch
               (let! id' := lift (get (currentWatchlist st) "id") in
                selectWatchlist id')
               (fun refreshError => ret tt)
           else
             let! msg := lift (error_message response "Failed to add stock") in
             throw (Error msg)) >>
          ret response)
         (fun err =>
            let! id := lift (get (currentWatchlist st) "id") in
            let! sym := lift (toUpperCase "symbol" symbol) in
            let! sym' := lift (toUpperCase "symbol" symbol) in
            let newItem := JObj [
              ("id", JStr ("item_" +:+ pretty now));
              ("watchlistId", id);
              ("symbol", JStr sym);
              ("name", JStr (sym' +:+ " Inc."));
              ("price", JNum 10000 2);
              ("change", JNum 0 2);
              ("changePercent", JNum 0 2);
              ("notes", notes);
              ("addedAt", JStr iso)] in
            let! old := lift (spread "items" (items st)) in
            emit (SetItems (JArr (old ++ [newItem]))) >>
            ret (Success newItem JUndef)))
      (emit (SetLoading false)).

(** [removeStock(itemId)], closed over [st]. *)
Definition removeStock (st : state) (itemId : jval) : M event envelope :=
  if negb (truthy (currentWatchlist st)) then ret no_selection
  else
    emit (SetLoading true) >>
    let! id := lift (get (currentWatchlist st) "id") in
    let! response := await (RemoveStock id itemId) in
    (if env_success response then emit (FilterItems itemId)
     else emit (SetError (env_error response))) >>
    emit (SetLoading false) >>
    ret response.

(** [refreshItems()], closed over [st]. *)
Definition refreshItems (st : state) : M event unit :=
  if negb (truthy (currentWatchlist st)) then ret tt
  else
    let! id := lift (get (currentWatchlist st) "id") in
    let! response := await (GetItems id) in
    if env_success response then
      let! inner := lift (get (env_data response) "items") in
      emit (SetItems (js_or inner (js_or (env_data response) (JArr []))))
    else ret tt.

(** The [catch] clause shared by create, update and delete. *)
Definition report (err : exn) : M event envelope :=
  emit (SetError (JStr (exn_message err))) >>
  ret (Failure (JObj [("message", JStr (exn_message err))])).

Definition createWatchlist (watchlistData : jval) : M event envelope :=
  emit (SetLoading true) >>
  try_finally
    (try_catch
       (let! response := await (Create watchlistData) in
        (if env_success response then
           try_catch
             (fetchWatchlists >>
              emit (VerifyThenSelect (env_data response)))
             (fun refreshError => ret tt)
         else emit (SetError (env_error response))) >>
        ret response)
       report)
    (emit (SetLoading false)).

(** [updateWatchlist(watchlistId, data)], closed over [st]. *)
Definition updateWatchlist (st : state) (watchlistId data : jval)
  : M event envelope :=
  emit (SetLoading true) >>
  try_finally
    (try_catch
       (let! response := await (Update watchlistId data) in
        (if env_success response then
           try_catch
             (fetchWatchlists >>
              let! cur := lift (get_opt (currentWatchlist st) "id") in
              if strict_eq cur watchlistId
              then emit (SetCurrentWatchlist (env_data response))
              else ret tt)
             (fun refreshError => ret tt)
         else emit (SetError (env_error response))) >>
        ret response)
       report)
    (emit (SetLoading false)).

(** [deleteWatchlist(watchlistId)], closed over [st]. *)
Definition deleteWatchlist (st : state) (watchlistId : jval)
  : M event envelope :=
  emit (SetLoading true) >>
  try_finally
    (try_catch
       (let! response := await (Delete watchlistId) in
        (if env_success response then
           try_catch
             (fetchWatchlists >>
              let! cur := lift (get_opt (currentWatchlist st) "id") in
              if strict_eq cur watchlistId
              then emit (SetCurrentWatchlist JNull) >> emit (SetItems (JArr []))
              else ret tt)
             (fun refreshError => ret tt)
         else emit (SetError (env_error response))) >>
        ret response)
       report)
    (emit (SetLoading false)).

(** The effect "auto-select first watchlist if none selected", run with
    the state of the render that scheduled it. *)
Definition autoSelect (st : state) : M event unit :=
  if negb (truthy (currentWatchlist st)) then
    let! len := lift (get (watchlists st) "length") in
    if gt_zero len then
      let! first := lift (get_first (watchlists st)) in
      let! id := lift (get first "id") in
      selectWatchlist id
    else ret tt
  else ret tt.

(** The selections of a render, one started after the other. *)
Fixpoint select_each (ids : list jval) : M event unit :=
  match ids with
  | [] => ret tt
  | id :: r => try_catch (selectWatchlist id) (fun _ => ret tt) >> select_each r
  end.

(** [createWatchlist] up to the render that follows it: React runs the
    queued updater against the state [st] the call was made in, and the
    selection the updater starts runs to its end.  The caller still gets
    what [createWatchlist] returned; a render that throws starts
    nothing. *)
Definition createWatchlist_rendered (st : state) (watchlistData : jval)
  : M event envelope :=
  fun s =>
    let r := createWatchlist watchlistData s in
    match started st (log r) with
    | Normal ids =>
        let r' := select_each ids (store r) in
        mkResult (res r) (store r') (log r ++ log r')
    | Throw _ => r
    end.

End Operations.

End WatchlistContext.

(* ===================================================================== *)
(** * The portfolio state manager ([PortfolioContext.jsx]) *)
(* ===================================================================== *)

Module PortfolioContext.
Import Js Eff.
#[local] Open Scope eff_scope.

(** The localStorage key of the portfolio snapshot. *)
Definition MOCK_KEY : string := "mockPortfolioData".

(** The methods of [portfolioService] the provider calls. *)
Inductive call : Type :=
| GetAll
| GetById (portfolioId : jval)
| GetHoldings (portfolioId : jval)
| GetTransactions (portfolioId options : jval)
| AddTransaction (portfolioId transactionData : jval).

Inductive event : Type :=
| SetPortfolios (v : jval)
| SetCurrentPortfolio (v : jval)
| SetHoldings (v : jval)
| SetTransactions (v : jval)
| SetLoading (b : bool)
| SetError (v : jval)
| Remote (c : call).

(** The provider's state, one field per [useState]. *)
Record state : Type := mkState {
  portfolios : jval;
  currentPortfolio : jval;
  holdings : jval;
  transactions : jval;
  performance : jval;
  loading : bool;
  error : jval;
}.

Definition initial : state :=
  mkState (JArr []) JNull (JArr []) (JArr []) JNull false JNull.

Definition apply_event (st : state) (ev : event) : state :=
  match ev with
  | SetPortfolios v =>
      mkState v (currentPortfolio st) (holdings st) (transactions st)
              (performance st) (loading st) (error st)
  | SetCurrentPortfolio v =>
      mkState (portfolios st) v (holdings st) (transactions st)
              (performance st) (loading st) (error st)
  | SetHoldings v =>
      mkState (portfolios st) (currentPortfolio st) v (transactions st)
              (performance st) (loading st) (error st)
  | SetTransactions v =>
      mkState (portfolios st) (currentPortfolio st) (holdings st) v
              (performance st) (loading st) (error st)
  | SetLoading b =>
      mkState (portfolios st) (currentPortfolio st) (holdings st)
              (transactions st) (performance st) b (error st)
  | SetError v =>
      mkState (portfolios st) (currentPortfolio st) (holdings st)
              (transactions st) (performance st) (loading st) v
  | Remote _ => st
  end.

Definition run_log (st : state) (evs : list event) : state :=
  fold_left apply_event evs st.

Fixpoint calls (evs : list event) : list call :=
  match evs with
  | [] => []
  | Remote c :: r => c :: calls r
  | _ :: r => calls r
  end.

(** The values passed to [setLoading], in program order. *)
Fixpoint loading_writes (evs : list event) : list bool :=
  match evs with
  | [] => []
  | SetLoading b :: r => b :: loading_writes r
  | _ :: r => loading_writes r
  end.

(** The first thing the log does is [setLoading(true)], the last is
    [setLoading(false)]. *)
Definition brackets_loading (evs : list event) : Prop :=
  head evs = Some (SetLoading true) /\ last evs = Some (SetLoading false).

(** The events a fetch of the collection may log, and those a selection
    may log. *)
Definition collection_event (ev : event) : bool :=
  match ev with
  | SetPortfolios _ | SetLoading _ | SetError _ | Remote _ => true
  | _ => false
  end.

Definition selection_event (ev : event) : bool :=
  match ev with
  | SetCurrentPortfolio _ | SetHoldings _ | SetTransactions _
  | SetLoading _ | SetError _ | Remote _ => true
  | _ => false
  end.

(** [safeParseMockData()] *)
Definition safeParseMockData : M event jval :=
  try_catch
    (let! mockData := getItem MOCK_KEY in
     match mockData with
     | None => ret JNull
     | Some x => if negb (stored_truthy x) then ret JNull
                 else lift (JSON_parse x)
     end)
    (fun parseError => removeItem MOCK_KEY >> ret JNull).

(** [err.message || fallback] *)
Definition message_or (err : exn) (fallback : string) : jval :=
  js_or (JStr (exn_message err)) (JStr fallback).

Section Operations.

(** What the service answers to each call. *)
Variable remote : call -> completion envelope.

(** [await portfolioService.m(...)] *)
Definition await (c : call) : M event envelope :=
  emit (Remote c) >> ApiClient.settled (remote c).

(** [mockData && mockData.portfolios] *)
Definition cached_portfolios (mockData : jval) : M event jval :=
  if truthy mockData then lift (get mockData "portfolios") else ret mockData.

Definition fetchPortfolios : M event unit :=
  emit (SetLoading true) >>
  emit (SetError JNull) >>
  try_catch
    (let! response := await GetAll in
     if env_success response then
       let! inner := lift (get (env_data response) "portfolios") in
       let portfolioList :=
         js_or inner (js_or (env_data response) (JArr [])) in
       emit (SetPortfolios portfolioList)
     else
       let! mockData := safeParseMockData in
       let! cached := cached_portfolios mockData in
       if truthy cached then emit (SetPortfolios cached)
       else emit (SetError (env_error response)))
    (fun err =>
       let! mockData := safeParseMockData in
       let! cached := cached_portfolios mockData in
       if truthy cached then emit (SetPortfolios cached)
       else emit (SetError (message_or err "Failed to fetch portfolios"))) >>
  emit (SetLoading false).

(** [mockData && mockData.portfolios && mockData.holdings &&
    mockData.transactions] *)
Definition snapshot_complete (mockData : jval) : M event jval :=
  let! ps := cached_portfolios mockData in
  let! hs := (if truthy ps then lift (get mockData "holdings") else ret ps) in
  if truthy hs then lift (get mockData "transactions") else ret hs.

(** The three setters that load a portfolio from the snapshot. *)
Definition use_snapshot (mockData portfolio portfolioId : jval) : M event unit :=
  emit (SetCurrentPortfolio portfolio) >>
  let! hs := lift (get mockData "holdings") in
  let! hs' := lift (js_filter "mockData.holdings"
                         (field_is "portfolioId" portfolioId) hs) in
  emit (SetHoldings hs') >>
  let! ts := lift (get mockData "transactions") in
  let! ts' := lift (js_filter "mockData.transactions"
                         (field_is "portfolioId" portfolioId) ts) in
  emit (SetTransactions ts').

(** [mockData.portfolios.find(p => p.id === portfolioId)] *)
Definition find_portfolio (mockData portfolioId : jval) : M event jval :=
  let! ps := lift (get mockData "portfolios") in
  lift (js_find "mockData.portfolios" (field_is "id" portfolioId) ps).

(** [selectPortfolio(portfolioId)].  The [try] block yields [true] when it
    left the function by [return]. *)
Definition selectPortfolio (portfolioId : jval) : M event unit :=
  emit (SetLoading true) >>
  emit (SetError JNull) >>
  let! returned :=
    try_catch
      (let! portfolioResponse := await (GetById portfolioId) in
       if negb (env_success portfolioResponse) then
         let! mockData := safeParseMockData in
         let! complete := snapshot_complete mockData in
         let! loaded :=
           (if truthy complete then
              let! portfolio := find_portfolio mockData portfolioId in
              if truthy portfolio then
                use_snapshot mockData portfolio portfolioId >>
                emit (SetLoading false) >>
                ret true
              else ret false
            else ret false) in
         if (loaded : bool) then ret true
         else
           emit (SetError (env_error portfolioResponse)) >>
           emit (SetLoading false) >>
           ret true
       else
         emit (SetCurrentPortfolio (env_data portfolioResponse)) >>
         let! holdingsResponse := await (GetHoldings portfolioId) in
         (if env_success holdingsResponse then
            let! inner := lift (get (env_data holdingsResponse) "holdings") in
            emit (SetHoldings
                    (js_or inner (js_or (env_data holdingsResponse) (JArr []))))
          else emit (SetError (env_error holdingsResponse))) >>
         ret false)
      (fun err =>
         let! mockData := safeParseMockData in
         let! complete := snapshot_complete mockData in
         (if truthy complete then
            let! portfolio := find_portfolio mockData portfolioId in
            if truthy portfolio then use_snapshot mockData portfolio portfolioId
            else emit (SetError (JStr "Portfolio not found"))
          else emit (SetError (message_or err "Failed to load portfolio"))) >>
         ret false) in
  if (returned : bool) then ret tt else emit (SetLoading false).

(** [fetchTransactions(options = {})], closed over [st]. *)
Definition fetchTransactions (st : state) (options0 : jval) : M event unit :=
  let options := match options0 with JUndef => JObj [] | _ => options0 end in
  if negb (truthy (currentPortfolio st)) then ret tt
  else
    emit (SetLoading true) >>
    let! id := lift (get (currentPortfolio st) "id") in
    let! response := await (GetTransactions id options) in
    (if env_success response then
       let! inner := lift (get (env_data response) "transactions") in
       emit (SetTransactions (js_or inner (js_or (env_data response) (JArr []))))
     else emit (SetError (env_error response))) >>
    emit (SetLoading false).

Definition no_selection : envelope :=
  Failure (JObj [("message", JStr "No portfolio selected")]).

(** [addTransaction(transactionData)], closed over [st]. *)
Definition addTransaction (st : state) (transactionData : jval)
  : M event envelope :=
  if negb (truthy (currentPortfolio st)) then ret no_selection
  else
    emit (SetLoading true) >>
    let! id := lift (get (currentPortfolio st) "id") in
    let! response := await (AddTransaction id transactionData) in
    (if env_success response then
       let! id' := lift (get (currentPortfolio st) "id") in
       selectPortfolio id' >>
       fetchTransactions st JUndef
     else emit (SetError (env_error response))) >>
    emit (SetLoading false) >>
    ret response.

(** [refreshHoldings()], closed over [st]. *)
Definition refreshHoldings (st : state) : M event unit :=
  if negb (truthy (currentPortfolio st)) then ret tt
  else
    let! id := lift (get (currentPortfolio st) "id") in
    let! response := await (GetHoldings id) in
    if env_success response then
      let! inner := lift (get (env_data response) "holdings") in
      emit (SetHoldings (js_or inner (js_or (env_data response) (JArr []))))
    else ret tt.

(** The effect "auto-select first portfolio if none selected". *)
Definition autoSelect (st : state) : M event unit :=
  if negb (truthy (currentPortfolio st)) then
    let! len := lift (get (portfolios st) "length") in
    if gt_zero len then
      let! first := lift (get_first (portfolios st)) in
      let! id := lift (get first "id") in
      selectPortfolio id
    else ret tt
  else ret tt.

End Operations.

End PortfolioContext.

(* ===================================================================== *)
(** * Scenarios

    Concrete services, snapshots and provider states on which the
    operations are run below. *)
(* ===================================================================== *)

Module Scenario.
Import Js Eff.

(** The client's envelope for a 503 answer without a JSON body. *)
Definition unavailable : envelope :=
  Failure (JObj [
    ("message", JStr "Service unavailable. Please try again later.");
    ("code", JStr "HTTP_503"); ("status", JInt 503)]).

(** The client's envelope for a 404 answer without a JSON body. *)
Definition not_found : envelope :=
  Failure (JObj [("message", JStr "Resource not found.");
                 ("code", JStr "HTTP_404"); ("status", JInt 404)]).

(** The envelope of a successful write: [{success: true}], status 200. *)
Definition accepted : envelope :=
  Success (JObj [("success", JBool true)]) (JInt 200).

(** What [fetch] throws when the network is unreachable. *)
Definition offline : exn := TypeError "Failed to fetch".

Definition wX : jval := JObj [("id", JStr "x"); ("name", JStr "Tech")].
Definition wY : jval := JObj [("id", JStr "y"); ("name", JStr "Income")].
Definition wZ : jval := JObj [("id", JStr "z"); ("name", JStr "Energy")].

(** A watchlist snapshot as [loadMockData] lays it out. *)
Definition snapshot : jval :=
  JObj [("watchlists", JArr [wX; wY]);
        ("items", JArr [JObj [("id", JStr "i1"); ("watchlistId", JStr "x");
                              ("symbol", JStr "MSFT")]])].

(** localStorage holding that snapshot under the watchlist key and
    nothing under the portfolio key. *)
Definition stored : storage :=
  {[ WatchlistContext.MOCK_KEY := Json snapshot ]}.

Definition pGrowth : jval := JObj [("id", JStr "p1"); ("name", JStr "Growth")].

(** Providers whose collection is loaded and whose selection is empty. *)
Definition unselectedW : WatchlistContext.state :=
  WatchlistContext.mkState (JArr [wZ]) JNull (JArr []) false JNull.

Definition unselectedP : PortfolioContext.state :=
  PortfolioContext.mkState (JArr [pGrowth]) JNull (JArr []) (JArr []) JNull
                           false JNull.

(** Providers with the item of id [p1] selected; the watchlist holds one
    child, of id [c1]. *)
Definition wP1 : jval := JObj [("id", JStr "p1"); ("name", JStr "Tech")].
Definition c1 : jval :=
  JObj [("id", JStr "c1"); ("watchlistId", JStr "p1"); ("symbol", JStr "MSFT")].

Definition selectedW : WatchlistContext.state :=
  WatchlistContext.mkState (JArr [wP1]) wP1 (JArr [c1]) false JNull.

Definition selectedP : PortfolioContext.state :=
  PortfolioContext.mkState (JArr [pGrowth]) pGrowth (JArr []) (JArr []) JNull
                           false JNull.

(** A buy order. *)
Definition buyAAPL : jval :=
  JObj [("symbol", JStr "AAPL"); ("type", JStr "buy"); ("shares", JInt 10);
        ("price", JNum 18950 2)].

(** The watchlist [x] of the snapshot selected, and a remote that
    performs a delete while its list endpoint is down. *)
Definition selectedX : WatchlistContext.state :=
  WatchlistContext.mkState (JArr [wX; wY]) wX (JArr []) false JNull.

Definition deletes_then_down (c : WatchlistContext.call)
  : completion envelope :=
  match c with
  | WatchlistContext.Delete _ => Normal accepted
  | _ => Normal unavailable
  end.

(** Answers of the server: a 500 whose body announces JSON and is an
    HTML error page; a 401 with a JSON body, as a REST framework sends
    it; a 401 without one. *)
Definition quote : string := String (Ascii.ascii_of_nat 34) EmptyString.

Definition garbled_500 : ApiClient.response :=
  ApiClient.mkResponse 500 (Some "application/json")
    (Throw (SyntaxError "Unexpected token < in JSON at position 0"))
    (Normal "<html>Internal Server Error</html>").

Definition json_401 : ApiClient.response :=
  ApiClient.mkResponse 401 (Some "application/json")
    (Normal (JObj [("message", JStr "Token expired")]))
    (Normal ("{" +:+ quote +:+ "message" +:+ quote +:+ ":" +:+ quote +:+
             "Token expired" +:+ quote +:+ "}")).

Definition plain_401 : ApiClient.response :=
  ApiClient.mkResponse 401 (Some "text/plain")
    (Throw (SyntaxError "Unexpected token U in JSON at position 0"))
    (Normal "Unauthorized").

(** localStorage of a signed-in user. *)
Definition signed_in : storage :=
  {[ ApiClient.AUTH_TOKEN := Raw "token-abc" ]}.

End Scenario.

(* ===================================================================== *)
(** * Properties of computations *)
(* ===================================================================== *)

Module Logic.
Import Js Eff.

Section Properties.
Context {E : Type}.

(** [m] never throws. *)
Definition total {A} (m : M E A) : Prop :=
  forall s, exists a, res (m s) = Normal a.

(** Every event [m] logs satisfies [P]. *)
Definition emits_only (P : E -> Prop) {A} (m : M E A) : Prop :=
  forall s, Forall P (log (m s)).

(** Whenever [m] returns a value [a] with [stop a], the last event of its
    log is [F]. *)
Definition closes (F : E) {A} (stop : A -> Prop) (m : M E A) : Prop :=
  forall s a, res (m s) = Normal a -> stop a -> last (log (m s)) = Some F.

(** Run from storage [s], [m] ends in a completion, a storage and a log
    that satisfy [Q]. *)
Definition post {A} (m : M E A) (s : storage)
  (Q : completion A -> storage -> list E -> Prop) : Prop :=
  Q (res (m s)) (store (m s)) (log (m s)).

End Properties.

End Logic.

Module W := WatchlistContext.
Module P := PortfolioContext.
Module A := ApiClient.

(* ===================================================================== *)
(** * Vocabulary of the further properties *)
(* ===================================================================== *)

Module Vocabulary.
Import Js Eff.

(** A predicate of [find] or [filter] holds of an element: it returned
    [true]. *)
Definition holds (c : completion bool) : bool :=
  match c with Normal b => b | Throw _ => false end.

(** A list whose elements can all be read a property of: none is [null]
    or [undefined]. *)
Definition readable (l : list jval) : Prop :=
  Forall (fun x => nullish x = false) l.

(** What a mutation reports for a request that failed: the failure
    envelope of the service, or one made of the message of the error that
    rejected the call; and what it stores in [error]. *)
Definition reported (o : completion envelope) : envelope :=
  match o with
  | Normal r => r
  | Throw e => Failure (JObj [("message", JStr (exn_message e))])
  end.

Definition reported_error (o : completion envelope) : jval :=
  match o with
  | Normal r => env_error r
  | Throw e => JStr (exn_message e)
  end.


(** [current] after a log of the portfolio provider, for what it was
    before: the last value passed to [setCurrentPortfolio]. *)
Fixpoint last_selected (evs : list PortfolioContext.event) (cur : jval)
  : jval :=
  match evs with
  | [] => cur
  | PortfolioContext.SetCurrentPortfolio v :: r => last_selected r v
  | _ :: r => last_selected r cur
  end.

(** [v] is a record of the stored portfolio snapshot with the id [id]. *)
Definition snapshot_portfolio (s : storage) (id v : jval) : Prop :=
  exists snap ps,
    s !! PortfolioContext.MOCK_KEY = Some (Json snap) /\
    get snap "portfolios" = Normal (JArr ps) /\
    v ∈ ps /\ field_is "id" id v = Normal true.

(** The envelope [handleError(error, null)] makes of a thrown error. *)
Definition network_error (e : exn) : envelope :=
  Failure (JObj [
    ("message", JStr "Network error. Please check your connection.");
    ("code", JStr "NETWORK_ERROR");
    ("details", JStr (exn_message e))]).

(** No byte of [s] has the code [n]. *)
Fixpoint lacks (n : nat) (s : string) : bool :=
  match s with
  | EmptyString => true
  | String c r => negb (Ascii.nat_of_ascii c =? n) && lacks n r
  end.

(** A text that can stand in a path as it is: it has no [$], which
    [replace] would expand, and no [:], which could start the name of
    another path parameter. *)
Definition plain (s : string) : bool := lacks 36 s && lacks 58 s.

(** The state with other items, and with another error. *)
Definition with_items (st : WatchlistContext.state) (v : jval)
  : WatchlistContext.state :=
  WatchlistContext.mkState
    (WatchlistContext.watchlists st) (WatchlistContext.currentWatchlist st)
    v false (WatchlistContext.error st).

Definition with_error (st : WatchlistContext.state) (v : jval)
  : WatchlistContext.state :=
  WatchlistContext.mkState
    (WatchlistContext.watchlists st) (WatchlistContext.currentWatchlist st)
    (WatchlistContext.items st) false v.

Section Frame.
Context {E : Type}.

(** What may have happened to localStorage between [s] and [s'] while
    the events [l] were logged: every item is as it was or gone, and an
    item that is gone is the token, with a refused call in the log, or
    the item [key], which was there and did not parse. *)
Definition scrubbed (key : string) (refused : E -> bool)
  (s s' : storage) (l : list E) : Prop :=
  forall k,
    s' !! k = s !! k \/
    s' !! k = None /\
    (k = ApiClient.AUTH_TOKEN /\ Exists (fun ev => refused ev = true) l \/
     k = key /\
     exists t, s !! key = Some (Raw t) /\ String.eqb t "" = false).

(** All [m] ever does to localStorage is to remove the token, when one
    of its calls is refused, and the item [key], when it does not
    parse. *)
Definition only_scrubs (key : string) (refused : E -> bool) {A} (m : M E A)
  : Prop :=
  forall s, scrubbed key refused s (store (m s)) (log (m s)).

(** [m] never creates the item [key]: absent before, absent after. *)
Definition keeps_absent (key : string) {A} (m : M E A) : Prop :=
  forall s, s !! key = None -> store (m s) !! key = None.

End Frame.

(** A service call whose answer made the client remove the token. *)
Definition refusedW (remote : WatchlistContext.call -> completion envelope)
  (ev : WatchlistContext.event) : bool :=
  match ev with
  | WatchlistContext.Remote c => ApiClient.clears_token (remote c)
  | _ => false
  end.

Definition refusedP (remote : PortfolioContext.call -> completion envelope)
  (ev : PortfolioContext.event) : bool :=
  match ev with
  | PortfolioContext.Remote c => ApiClient.clears_token (remote c)
  | _ => false
  end.

End Vocabulary.

(* ===================================================================== *)
(** * Built-in text functions the API client relies on *)
(* ===================================================================== *)

(** Strings are sequences of bytes (UTF-8). *)
Module JsText.
Import Js.

Definition code (c : Ascii.ascii) : nat := Ascii.nat_of_ascii c.

Definition char (n : nat) : string := String (Ascii.ascii_of_nat n) EmptyString.

Definition dollar : string := char 36.
Definition colon : string := char 58.
Definition dquote : string := char 34.
Definition backslash : string := char 92.

(** ** [String.prototype.replace] with a string pattern *)

Section Substitution.
(** The text before the match, the match and the text after it. *)
Variables before matched after : string.

(** The replacement text with its [$] patterns expanded: [$$] is a
    dollar sign, [$&] the match, [$`] the text before it and [$'] the
    text after it; a string pattern captures nothing, so any other [$]
    stands for itself. *)
Fixpoint expand (template : string) : string :=
  match template with
  | EmptyString => EmptyString
  | String a rest =>
      if code a =? 36 then
        match rest with
        | String c r =>
            if code c =? 36 then dollar +:+ expand r
            else if code c =? 38 then matched +:+ expand r
            else if code c =? 96 then before +:+ expand r
            else if code c =? 39 then after +:+ expand r
            else String a (expand rest)
        | EmptyString => String a EmptyString
        end
      else String a (expand rest)
  end.

End Substitution.

(** [s] continued from [before], with the first occurrence of [needle]
    in [s] replaced; [None] when there is none. *)
Fixpoint replace_at (needle template before s : string) {struct s}
  : option string :=
  if String.prefix needle s then
    let after := String.substring (String.length needle)
                   (String.length s - String.length needle) s in
    Some (before +:+ expand before needle after template +:+ after)
  else
    match s with
    | EmptyString => None
    | String c r =>
        replace_at needle template (before +:+ String c EmptyString) r
    end.

(** [s.replace(needle, template)] *)
Definition replace (needle template s : string) : string :=
  match replace_at needle template "" s with
  | Some r => r
  | None => s
  end.

(** ** The serializer of [URLSearchParams] *)

Definition hex_digit (upper : bool) (n : nat) : Ascii.ascii :=
  Ascii.ascii_of_nat (if n <? 10 then 48 + n
                      else (if upper then 55 else 87) + n).

Definition percent_byte (c : Ascii.ascii) : string :=
  String (Ascii.ascii_of_nat 37)
    (String (hex_digit true (code c / 16))
       (String (hex_digit true (code c mod 16)) EmptyString)).

(** The bytes the form-urlencoded serializer leaves alone: ASCII letters
    and digits and [*], [-], [.], [_]. *)
Definition form_safe (c : Ascii.ascii) : bool :=
  let n := code c in
  ((48 <=? n) && (n <=? 57)) || ((65 <=? n) && (n <=? 90)) ||
  ((97 <=? n) && (n <=? 122)) ||
  (n =? 42) || (n =? 45) || (n =? 46) || (n =? 95).

Definition form_byte (c : Ascii.ascii) : string :=
  if form_safe c then String c EmptyString
  else if code c =? 32 then "+"
  else percent_byte c.

Fixpoint form_encode (s : string) : string :=
  match s with
  | EmptyString => EmptyString
  | String c r => form_byte c +:+ form_encode r
  end.

(** [new URLSearchParams()] after the given [append]s, [toString()]. *)
Fixpoint serialize (pairs : list (string * string)) : string :=
  match pairs with
  | [] => ""
  | (k, v) :: r =>
      form_encode k +:+ "=" +:+ form_encode v +:+
      match r with [] => "" | _ :: _ => "&" +:+ serialize r end
  end.

(** ** [JSON.stringify] *)

Definition json_char (c : Ascii.ascii) : string :=
  let n := code c in
  if n =? 8 then backslash +:+ "b"
  else if n =? 9 then backslash +:+ "t"
  else if n =? 10 then backslash +:+ "n"
  else if n =? 12 then backslash +:+ "f"
  else if n =? 13 then backslash +:+ "r"
  else if n =? 34 then backslash +:+ dquote
  else if n =? 92 then backslash +:+ backslash
  else if n <? 32 then
    backslash +:+ "u00" +:+
    String (hex_digit false (n / 16))
      (String (hex_digit false (n mod 16)) EmptyString)
  else String c EmptyString.

Fixpoint json_chars (s : string) : string :=
  match s with
  | EmptyString => EmptyString
  | String c r => json_char c +:+ json_chars r
  end.

(** QuoteJSONString *)
Definition json_quote (s : string) : string :=
  dquote +:+ json_chars s +:+ dquote.

(** The text of a value that is not [undefined]: an [undefined] element
    of an array is written [null], a property whose value is [undefined]
    is left out. *)
Fixpoint JSON_text (v : jval) : string :=
  match v with
  | JUndef | JNull => "null"
  | JBool true => "true"
  | JBool false => "false"
  | JNum m e => num_to_string m e
  | JStr s => json_quote s
  | JArr l =>
      "[" +:+
      (fix elements (l : list jval) : string :=
         match l with
         | [] => ""
         | x :: r =>
             JSON_text x +:+
             match r with [] => "" | _ :: _ => "," +:+ elements r end
         end) l +:+ "]"
  | JObj fs =>
      "{" +:+
      (fix members (first : bool) (fs : list (string * jval)) : string :=
         match fs with
         | [] => ""
         | (k, x) :: r =>
             match x with
             | JUndef => members first r
             | _ => (if first then "" else ",") +:+
                    json_quote k +:+ colon +:+ JSON_text x +:+
                    members false r
             end
         end) true fs +:+ "}"
  end.

(** [JSON.stringify(v)]: [undefined] has no text. *)
Definition JSON_stringify (v : jval) : option string :=
  match v with
  | JUndef => None
  | _ => Some (JSON_text v)
  end.

(** What [JSON.parse(JSON.stringify(v))] gives back. *)
Fixpoint revive (v : jval) : jval :=
  match v with
  | JUndef => JNull
  | JArr l => JArr (List.map revive l)
  | JObj fs =>
      JObj ((fix members (fs : list (string * jval)) : list (string * jval) :=
               match fs with
               | [] => []
               | (k, x) :: r =>
                   match x with
                   | JUndef => members r
                   | _ => (k, revive x) :: members r
                   end
               end) fs)
  | _ => v
  end.

(** The item [localStorage.setItem(key, JSON.stringify(v))] stores; the
    string [undefined] when there is no text. *)
Definition stringified (v : jval) : stored :=
  match v with
  | JUndef => Raw "undefined"
  | _ => Json (revive v)
  end.

(** The text of a stored item. *)
Definition stored_text (x : stored) : string :=
  match x with
  | Raw t => t
  | Json v => JSON_text v
  end.

End JsText.

(* ===================================================================== *)
(** * The API client: URLs, headers and verbs ([services/api.js]) *)
(* ===================================================================== *)

Module apiClient.
Import Js Eff JsText.
#[local] Open Scope eff_scope.

(** An object used as a record of parameters: its own properties in the
    order [Object.keys] lists them.  Every caller in the repository
    passes an object literal. *)
Abbreviation obj := (list (string * jval)).

Definition keys (o : obj) : list string := List.map fst o.

(** [delete o[key]] *)
Definition remove (key : string) (o : obj) : obj :=
  List.filter (fun kv => negb (String.eqb (fst kv) key)) o.

(** Headers: an object used as a map from names to values. *)
Abbreviation headers_t := (gmap string jval).

(** The second argument of [fetch], without the abort signal (that the
    signal fired is one of the things [fetch] can do). *)
Record config : Type := mkConfig {
  method : string;
  headers : headers_t;
  body : option string;
}.

(** The [options] of [request]: a property is absent or has a value. *)
Record options : Type := mkOptions {
  opt_method : option string;
  opt_params : option obj;
  opt_data : option jval;
  opt_headers : option headers_t;
}.

Definition no_options : options := mkOptions None None None None.

(** [{...a, ...b}] *)
Definition spread_options (a b : options) : options :=
  mkOptions
    (match opt_method b with Some x => Some x | None => opt_method a end)
    (match opt_params b with Some x => Some x | None => opt_params a end)
    (match opt_data b with Some x => Some x | None => opt_data a end)
    (match opt_headers b with Some x => Some x | None => opt_headers a end).

(** [getHeaders(customHeaders = {})] *)
Definition getHeaders (customHeaders : headers_t) : M ApiClient.E headers_t :=
  let headers : headers_t :=
    customHeaders ∪ {[ "Content-Type" := JStr "application/json" ]} in
  let! token := ApiClient.getAuthToken in
  match token with
  | Some x =>
      if stored_truthy x
      then ret (<[ "Authorization" := JStr ("Bearer " +:+ stored_text x) ]>
                  headers)
      else ret headers
  | None => ret headers
  end.

(** The first loop of [buildUrl], one key: a path parameter is replaced
    in the URL and deleted from the parameters. *)
Definition substitute (st : string * obj) (key : string) : string * obj :=
  let '(url, params) := st in
  if includes (colon +:+ key) url
  then (replace (colon +:+ key) (js_to_string (assoc key params)) url,
        remove key params)
  else (url, params).

(** The second loop: what is appended to the [URLSearchParams]. *)
Fixpoint query_pairs (ks : list string) (params : obj)
  : list (string * string) :=
  match ks with
  | [] => []
  | key :: r =>
      let v := assoc key params in
      if nullish v then query_pairs r params
      else (key, js_to_string v) :: query_pairs r params
  end.

Section Client.
(** [API_BASE_URL], and what the network does with a request. *)
Variable baseURL : string.
Variable fetch : string -> config -> ApiClient.fetch_result.

(** [buildUrl(endpoint, params = {})]: the URL, and the object [params]
    as the function leaves it (without its path parameters). *)
Definition buildUrl (endpoint : string) (params : obj) : string * obj :=
  let '(url, params') := fold_left substitute (keys params) (endpoint, params) in
  let queryString := serialize (query_pairs (keys params') params') in
  (baseURL +:+ url +:+
   (if String.eqb queryString "" then "" else "?" +:+ queryString),
   params').

(** [['POST', 'PUT', 'PATCH'].includes(method)] *)
Definition sends_body (method : string) : bool :=
  String.eqb method "POST" || String.eqb method "PUT" ||
  String.eqb method "PATCH".

(** The URL and the [config] that [request] hands to [fetch]. *)
Definition prepare (endpoint : string) (o : options)
  : M ApiClient.E (string * config) :=
  let method := match opt_method o with Some m => m | None => "GET" end in
  let params := match opt_params o with Some p => p | None => [] end in
  let data := match opt_data o with Some d => d | None => JNull end in
  let hdrs := match opt_headers o with Some h => h | None => ∅ end in
  let url := fst (buildUrl endpoint params) in
  let! headers := getHeaders hdrs in
  ret (url,
       mkConfig method headers
         (if truthy data && sends_body method then JSON_stringify data
          else None)).

(** [request(endpoint, options = {})] *)
Definition request (endpoint : string) (o : options)
  : M ApiClient.E envelope :=
  let! call := prepare endpoint o in
  ApiClient.request (fetch (fst call) (snd call)).

(** [get(endpoint, params = {}, options = {})] and the other verbs; an
    argument that is left out is [None]. *)
Definition get (endpoint : string) (params : option obj) (o : options)
  : M ApiClient.E envelope :=
  request endpoint
    (spread_options
       (mkOptions (Some "GET")
          (Some match params with Some p => p | None => [] end) None None)
       o).

Definition with_data (method : string) (data : jval) : options :=
  mkOptions (Some method) None
    (Some match data with JUndef => JObj [] | _ => data end) None.

Definition post (endpoint : string) (data : jval) (o : options)
  : M ApiClient.E envelope :=
  request endpoint (spread_options (with_data "POST" data) o).

Definition put (endpoint : string) (data : jval) (o : options)
  : M ApiClient.E envelope :=
  request endpoint (spread_options (with_data "PUT" data) o).

Definition patch (endpoint : string) (data : jval) (o : options)
  : M ApiClient.E envelope :=
  request endpoint (spread_options (with_data "PATCH" data) o).

Definition delete (endpoint : string) (params : option obj) (o : options)
  : M ApiClient.E envelope :=
  request endpoint
    (spread_options
       (mkOptions (Some "DELETE")
          (Some match params with Some p => p | None => [] end) None None)
       o).

End Client.

End apiClient.

(* ===================================================================== *)
(** * The services ([watchlistService.js], [portfolioService.js]) *)
(* ===================================================================== *)

(** [API_ENDPOINTS] and [STORAGE_KEYS] of [utils/constants.js]. *)
Module API_ENDPOINTS.

Module AUTH.
Definition LOGIN : string := "/auth/login".
Definition LOGOUT : string := "/auth/logout".
Definition REGISTER : string := "/auth/register".
Definition REFRESH : string := "/auth/refresh".
Definition PROFILE : string := "/auth/profile".
End AUTH.

Module PORTFOLIO.
Definition LIST : string := "/portfolio".
Definition DETAIL : string := "/portfolio/:id".
Definition HOLDINGS : string := "/portfolio/:id/holdings".
Definition TRANSACTIONS : string := "/portfolio/:id/transactions".
Definition PERFORMANCE : string := "/portfolio/:id/performance".
Definition SUMMARY : string := "/portfolio/summary".
End PORTFOLIO.

Module WATCHLIST.
Definition LIST : string := "/watchlist".
Definition DETAIL : string := "/watchlist/:id".
Definition ITEMS : string := "/watchlist/:id/items".
End WATCHLIST.

End API_ENDPOINTS.

Module STORAGE_KEYS.
Definition AUTH_TOKEN : string := ApiClient.AUTH_TOKEN.
Definition REFRESH_TOKEN : string := "refresh_token".
Definition USER : string := "user".
End STORAGE_KEYS.

Module watchlistService.
Import Js Eff API_ENDPOINTS.
#[local] Open Scope eff_scope.

Section Service.
Variable baseURL : string.
Variable fetch : string -> apiClient.config -> ApiClient.fetch_result.

Local Abbreviation api_get := (apiClient.get baseURL fetch).
Local Abbreviation api_post := (apiClient.post baseURL fetch).
Local Abbreviation api_patch := (apiClient.patch baseURL fetch).
Local Abbreviation api_delete := (apiClient.delete baseURL fetch).

(** [{ params: { id: watchlistId } }] *)
Definition for_id (watchlistId : jval) : apiClient.options :=
  apiClient.mkOptions None (Some [("id", watchlistId)]) None None.

Definition getAll : M ApiClient.E envelope :=
  api_get WATCHLIST.LIST None apiClient.no_options.

Definition getById (watchlistId : jval) : M ApiClient.E envelope :=
  api_get WATCHLIST.DETAIL (Some [("id", watchlistId)]) apiClient.no_options.

Definition create (data : jval) : M ApiClient.E envelope :=
  api_post WATCHLIST.LIST data apiClient.no_options.

Definition update (watchlistId data : jval) : M ApiClient.E envelope :=
  api_patch WATCHLIST.DETAIL data (for_id watchlistId).

Definition delete (watchlistId : jval) : M ApiClient.E envelope :=
  api_delete WATCHLIST.DETAIL (Some [("id", watchlistId)])
    apiClient.no_options.

Definition getItems (watchlistId : jval) : M ApiClient.E envelope :=
  api_get WATCHLIST.ITEMS (Some [("id", watchlistId)]) apiClient.no_options.

Definition getWithItems (watchlistId : jval) : M ApiClient.E envelope :=
  api_get WATCHLIST.DETAIL
    (Some [("id", watchlistId); ("include_items", JBool true)])
    apiClient.no_options.

Definition addStock (watchlistId data : jval) : M ApiClient.E envelope :=
  api_post WATCHLIST.ITEMS data (for_id watchlistId).

Definition addStocks (watchlistId symbols : jval) : M ApiClient.E envelope :=
  api_post (WATCHLIST.ITEMS +:+ "/bulk") (JObj [("symbols", symbols)])
    (for_id watchlistId).

Definition updateItem (watchlistId itemId data : jval)
  : M ApiClient.E envelope :=
  api_patch (WATCHLIST.ITEMS +:+ "/" +:+ js_to_string itemId) data
    (for_id watchlistId).

Definition removeStock (watchlistId itemId : jval) : M ApiClient.E envelope :=
  api_delete (WATCHLIST.ITEMS +:+ "/" +:+ js_to_string itemId)
    (Some [("id", watchlistId)]) apiClient.no_options.

Definition removeStockBySymbol (watchlistId symbol : jval)
  : M ApiClient.E envelope :=
  api_delete WATCHLIST.ITEMS
    (Some [("id", watchlistId); ("symbol", symbol)]) apiClient.no_options.

Definition removeStocks (watchlistId itemIds : jval)
  : M ApiClient.E envelope :=
  api_post (WATCHLIST.ITEMS +:+ "/bulk-delete")
    (JObj [("item_ids", itemIds)]) (for_id watchlistId).

Definition isStockInWatchlist (watchlistId symbol : jval)
  : M ApiClient.E envelope :=
  api_get (WATCHLIST.ITEMS +:+ "/check")
    (Some [("id", watchlistId); ("symbol", symbol)]) apiClient.no_options.

Definition findStockInWatchlists (symbol : jval) : M ApiClient.E envelope :=
  api_get (WATCHLIST.LIST +:+ "/check") (Some [("symbol", symbol)])
    apiClient.no_options.

End Service.

End watchlistService.

Module portfolioService.
Import Js Eff API_ENDPOINTS.
#[local] Open Scope eff_scope.

Section Service.
Variable baseURL : string.
Variable fetch : string -> apiClient.config -> ApiClient.fetch_result.

Local Abbreviation api_get := (apiClient.get baseURL fetch).
Local Abbreviation api_post := (apiClient.post baseURL fetch).
Local Abbreviation api_patch := (apiClient.patch baseURL fetch).
Local Abbreviation api_delete := (apiClient.delete baseURL fetch).

Definition for_id (portfolioId : jval) : apiClient.options :=
  apiClient.mkOptions None (Some [("id", portfolioId)]) None None.

Definition getAll : M ApiClient.E envelope :=
  api_get PORTFOLIO.LIST None apiClient.no_options.

Definition getById (portfolioId : jval) : M ApiClient.E envelope :=
  api_get PORTFOLIO.DETAIL (Some [("id", portfolioId)]) apiClient.no_options.

Definition create (data : jval) : M ApiClient.E envelope :=
  api_post PORTFOLIO.LIST data apiClient.no_options.

Definition update (portfolioId data : jval) : M ApiClient.E envelope :=
  api_patch PORTFOLIO.DETAIL data (for_id portfolioId).

Definition delete (portfolioId : jval) : M ApiClient.E envelope :=
  api_delete PORTFOLIO.DETAIL (Some [("id", portfolioId)])
    apiClient.no_options.

Definition getHoldings (portfolioId : jval) : M ApiClient.E envelope :=
  api_get PORTFOLIO.HOLDINGS (Some [("id", portfolioId)])
    apiClient.no_options.

(** [const { name = fallback } = options] *)
Definition or_default (v fallback : jval) : jval :=
  match v with JUndef => fallback | _ => v end.

(** [if (v) params.name = v] *)
Definition add_if (name : string) (v : jval) (params : apiClient.obj)
  : apiClient.obj :=
  if truthy v then params ++ [(name, v)] else params.

(** [getTransactions(portfolioId, options = {})] *)
Definition getTransactions (portfolioId options0 : jval)
  : M ApiClient.E envelope :=
  let options := or_default options0 (JObj []) in
  let! limit := lift (get options "limit") in
  let! offset := lift (get options "offset") in
  let! symbol := lift (get options "symbol") in
  let! type := lift (get options "type") in
  let! startDate := lift (get options "startDate") in
  let! endDate := lift (get options "endDate") in
  let params :=
    add_if "end_date" endDate
      (add_if "start_date" startDate
         (add_if "type" type
            (add_if "symbol" symbol
               [("id", portfolioId);
                ("limit", or_default limit (JInt 50));
                ("offset", or_default offset (JInt 0))]))) in
  api_get PORTFOLIO.TRANSACTIONS (Some params) apiClient.no_options.

Definition addTransaction (portfolioId transaction : jval)
  : M ApiClient.E envelope :=
  api_post PORTFOLIO.TRANSACTIONS transaction (for_id portfolioId).

Definition updateTransaction (portfolioId transactionId data : jval)
  : M ApiClient.E envelope :=
  api_patch (PORTFOLIO.TRANSACTIONS +:+ "/" +:+ js_to_string transactionId)
    data (for_id portfolioId).

Definition deleteTransaction (portfolioId transactionId : jval)
  : M ApiClient.E envelope :=
  api_delete (PORTFOLIO.TRANSACTIONS +:+ "/" +:+ js_to_string transactionId)
    (Some [("id", portfolioId)]) apiClient.no_options.

(** [getPerformance(portfolioId, period = '1M')] *)
Definition getPerformance (portfolioId period : jval)
  : M ApiClient.E envelope :=
  api_get PORTFOLIO.PERFORMANCE
    (Some [("id", portfolioId); ("period", or_default period (JStr "1M"))])
    apiClient.no_options.

Definition getSummary (portfolioId : jval) : M ApiClient.E envelope :=
  api_get PORTFOLIO.SUMMARY (Some [("id", portfolioId)])
    apiClient.no_options.

Definition getAllSummaries : M ApiClient.E envelope :=
  api_get PORTFOLIO.SUMMARY None apiClient.no_options.

End Service.

End portfolioService.

(* ===================================================================== *)
(** * The authentication service ([authService.js]) *)
(* ===================================================================== *)

Module authService.
Import Js Eff JsText API_ENDPOINTS.
#[local] Open Scope eff_scope.

Definition no_refresh_token : envelope :=
  Failure (JObj [("message", JStr "No refresh token available");
                 ("code", JStr "NO_REFRESH_TOKEN")]).

(** [response.success && response.data] *)
Definition has_data (response : envelope) : bool :=
  env_success response && truthy (env_data response).

(** What [login] and [register] do with the response: keep the token and
    the user it carries. *)
Definition store_session (response : envelope) : M ApiClient.E unit :=
  if has_data response then
    let! token := lift (get (env_data response) "token") in
    (if truthy token then ApiClient.setAuthToken token else ret tt) >>
    let! user := lift (get (env_data response) "user") in
    if truthy user then setItem STORAGE_KEYS.USER (stringified user)
    else ret tt
  else ret tt.

(** What [getProfile] and [updateProfile] do with the response. *)
Definition store_profile (response : envelope) : M ApiClient.E unit :=
  if has_data response
  then setItem STORAGE_KEYS.USER (stringified (env_data response))
  else ret tt.

(** [isAuthenticated()] *)
Definition isAuthenticated : M ApiClient.E bool :=
  let! token := ApiClient.getAuthToken in
  ret match token with Some x => stored_truthy x | None => false end.

(** [getCurrentUser()] *)
Definition getCurrentUser : M ApiClient.E jval :=
  let! userStr := getItem STORAGE_KEYS.USER in
  match userStr with
  | None => ret JNull
  | Some x =>
      if negb (stored_truthy x) then ret JNull
      else try_catch (lift (JSON_parse x)) (fun e => ret JNull)
  end.

(** [clearAuth()] *)
Definition clearAuth : M ApiClient.E unit :=
  ApiClient.setAuthToken JNull >>
  removeItem STORAGE_KEYS.USER >>
  removeItem STORAGE_KEYS.REFRESH_TOKEN.

Section Service.
Variable baseURL : string.
Variable fetch : string -> apiClient.config -> ApiClient.fetch_result.

Local Abbreviation api_get := (apiClient.get baseURL fetch).
Local Abbreviation api_post := (apiClient.post baseURL fetch).
Local Abbreviation api_patch := (apiClient.patch baseURL fetch).

Definition login (credentials : jval) : M ApiClient.E envelope :=
  let! response := api_post AUTH.LOGIN credentials apiClient.no_options in
  store_session response >>
  ret response.

Definition register (userData : jval) : M ApiClient.E envelope :=
  let! response := api_post AUTH.REGISTER userData apiClient.no_options in
  store_session response >>
  ret response.

Definition logout : M ApiClient.E envelope :=
  let! response := api_post AUTH.LOGOUT JUndef apiClient.no_options in
  ApiClient.setAuthToken JNull >>
  removeItem STORAGE_KEYS.USER >>
  removeItem STORAGE_KEYS.REFRESH_TOKEN >>
  ret response.

Definition refreshToken : M ApiClient.E envelope :=
  let! refreshToken := getItem STORAGE_KEYS.REFRESH_TOKEN in
  match refreshToken with
  | None => ret no_refresh_token
  | Some x =>
      if negb (stored_truthy x) then ret no_refresh_token
      else
        let! response :=
          api_post AUTH.REFRESH
            (JObj [("refresh_token", JStr (stored_text x))])
            apiClient.no_options in
        (if env_success response then
           let! token := lift (get_opt (env_data response) "token") in
           if truthy token then ApiClient.setAuthToken token else ret tt
         else ret tt) >>
        ret response
  end.

Definition getProfile : M ApiClient.E envelope :=
  let! response := api_get AUTH.PROFILE None apiClient.no_options in
  store_profile response >>
  ret response.

Definition updateProfile (data : jval) : M ApiClient.E envelope :=
  let! response := api_patch AUTH.PROFILE data apiClient.no_options in
  store_profile response >>
  ret response.

Definition changePassword (data : jval) : M ApiClient.E envelope :=
  let! currentPassword := lift (get data "currentPassword") in
  let! newPassword := lift (get data "newPassword") in
  api_post (AUTH.PROFILE +:+ "/change-password")
    (JObj [("current_password", currentPassword);
           ("new_password", newPassword)])
    apiClient.no_options.

Definition forgotPassword (email : jval) : M ApiClient.E envelope :=
  api_post (AUTH.PROFILE +:+ "/forgot-password") (JObj [("email", email)])
    apiClient.no_options.

Definition resetPassword (data : jval) : M ApiClient.E envelope :=
  api_post (AUTH.PROFILE +:+ "/reset-password") data apiClient.no_options.

End Service.

End authService.

(* ===================================================================== *)
(** * What a request looks like on the wire *)
(* ===================================================================== *)

Module Observed.
Import Js Eff.

(** The headers [getHeaders(customHeaders)] returns when localStorage is
    [ls]. *)
Definition sent_headers (customHeaders : apiClient.headers_t) (ls : storage)
  : apiClient.headers_t :=
  match res (apiClient.getHeaders customHeaders ls) with
  | Normal h => h
  | Throw _ => ∅
  end.

(** The query string of the parameters that are left for it. *)
Definition query (params : apiClient.obj) : string :=
  JsText.serialize (apiClient.query_pairs (apiClient.keys params) params).

(** [?query], or nothing when the query is empty. *)
Definition suffix (params : apiClient.obj) : string :=
  if String.eqb (query params) "" then "" else "?" +:+ query params.

End Observed.

(* ===================================================================== *)
(** * The remaining operations of the watchlist provider *)
(* ===================================================================== *)

Module WatchlistMore.
Import Js Eff.
#[local] Open Scope eff_scope.

(** The service methods these operations call, besides those of
    [WatchlistContext.call]. *)
Inductive call : Type :=
| Base (c : WatchlistContext.call)
| AddStocks (watchlistId symbols : jval)
| RemoveStockBySymbol (watchlistId symbol : jval)
| UpdateItem (watchlistId itemId data : jval)
| FindStockInWatchlists (symbol : jval).

Inductive event : Type :=
| Core (ev : WatchlistContext.event)
(** [setItems(prevItems => prevItems.filter(item => item.symbol !== symbol))] *)
| FilterBySymbol (symbol : jval)
(** [setItems(prevItems => prevItems.map(item =>
      item.id === itemId ? { ...item, notes } : item))] *)
| PatchNotes (itemId notes : jval)
| Remote (c : call).

(** The own properties [{...v}] copies. *)
Fixpoint indexed (i : nat) (l : list jval) : list (string * jval) :=
  match l with
  | [] => []
  | x :: r => (pretty i, x) :: indexed (S i) r
  end.

Definition own_properties (v : jval) : list (string * jval) :=
  match v with
  | JObj fs => fs
  | JArr l => indexed 0 l
  | JStr s => indexed 0 (chars s)
  | _ => []
  end.

(** [o[k] = v] on a property list: an existing property keeps its
    place. *)
Fixpoint set_property (k : string) (v : jval) (fs : list (string * jval))
  : list (string * jval) :=
  match fs with
  | [] => [(k, v)]
  | (k', v') :: r =>
      if String.eqb k k' then (k, v) :: r
      else (k', v') :: set_property k v r
  end.

(** [item => item.id === itemId ? { ...item, notes } : item] *)
Definition patch_notes (itemId notes item : jval) : completion jval :=
  match get item "id" with
  | Throw e => Throw e
  | Normal id =>
      Normal (if strict_eq id itemId
              then JObj (set_property "notes" notes (own_properties item))
              else item)
  end.

Fixpoint map_list (f : jval -> completion jval) (l : list jval)
  : completion (list jval) :=
  match l with
  | [] => Normal []
  | x :: r =>
      match f x with
      | Throw e => Throw e
      | Normal y =>
          match map_list f r with
          | Throw e => Throw e
          | Normal r' => Normal (y :: r')
          end
      end
  end.

(** [prevItems.map(f)]: only arrays have it. *)
Definition js_map (f : jval -> completion jval) (v : jval) : completion jval :=
  match v with
  | JArr l => match map_list f l with
              | Normal r => Normal (JArr r)
              | Throw e => Throw e
              end
  | _ => Throw (not_a_function "prevItems" v "map")
  end.

Definition with_items (st : WatchlistContext.state) (c : completion jval)
  : completion WatchlistContext.state :=
  match c with
  | Normal v =>
      Normal (WatchlistContext.mkState
                (WatchlistContext.watchlists st)
                (WatchlistContext.currentWatchlist st) v
                (WatchlistContext.loading st) (WatchlistContext.error st))
  | Throw e => Throw e
  end.

Definition apply_event (st : WatchlistContext.state) (ev : event)
  : completion WatchlistContext.state :=
  match ev with
  | Core e => WatchlistContext.apply_event st e
  | FilterBySymbol symbol =>
      with_items st
        (js_filter "prevItems" (field_is_not "symbol" symbol)
           (WatchlistContext.items st))
  | PatchNotes itemId notes =>
      with_items st
        (js_map (patch_notes itemId notes) (WatchlistContext.items st))
  | Remote _ => Normal st
  end.

Fixpoint run_log (st : WatchlistContext.state) (evs : list event)
  : completion WatchlistContext.state :=
  match evs with
  | [] => Normal st
  | ev :: r => match apply_event st ev with
               | Normal st' => run_log st' r
               | Throw e => Throw e
               end
  end.

(** The values passed to [setLoading], in program order. *)
Fixpoint loading_writes (evs : list event) : list bool :=
  match evs with
  | [] => []
  | Core (WatchlistContext.SetLoading b) :: r => b :: loading_writes r
  | _ :: r => loading_writes r
  end.

(** The first thing the log does is [setLoading(true)], the last is
    [setLoading(false)]. *)
Definition brackets_loading (evs : list event) : Prop :=
  head evs = Some (Core (WatchlistContext.SetLoading true)) /\
  last evs = Some (Core (WatchlistContext.SetLoading false)).

(** An operation of [WatchlistContext] run from here: its events are
    core events. *)
Definition core {A} (m : M WatchlistContext.event A) : M event A :=
  fun s => mkResult (res (m s)) (store (m s)) (List.map Core (log (m s))).

Section Operations.
Variable remote : call -> completion envelope.

Definition await (c : call) : M event envelope :=
  emit (Remote c) >> ApiClient.settled (remote c).

Definition setLoading (b : bool) : M event unit :=
  emit (Core (WatchlistContext.SetLoading b)).
Definition setError (v : jval) : M event unit :=
  emit (Core (WatchlistContext.SetError v)).

(** [selectWatchlist], as the provider defines it. *)
Definition selectWatchlist (watchlistId : jval) : M event unit :=
  core (WatchlistContext.selectWatchlist (fun c => remote (Base c))
          watchlistId).

(** [addStocks(symbols)], closed over [st]. *)
Definition addStocks (st : WatchlistContext.state) (symbols : jval)
  : M event envelope :=
  if negb (truthy (WatchlistContext.currentWatchlist st))
  then ret WatchlistContext.no_selection
  else
    setLoading true >>
    try_finally
      (try_catch
         (let! id := lift (get (WatchlistContext.currentWatchlist st) "id") in
          let! response := await (AddStocks id symbols) in
          (if env_success response then
             try_catch
               (let! id' :=
                  lift (get (WatchlistContext.currentWatchlist st) "id") in
                selectWatchlist id')
               (fun refreshError => ret tt)
           else setError (env_error response)) >>
          ret response)
         (fun err =>
            setError (JStr (exn_message err)) >>
            ret (Failure (JObj [("message", JStr (exn_message err))]))))
      (setLoading false).

(** [removeStockBySymbol(symbol)], closed over [st]; [None] is the
    [undefined] of the bare [return]. *)
Definition removeStockBySymbol (st : WatchlistContext.state) (symbol : jval)
  : M event (option envelope) :=
  if negb (truthy (WatchlistContext.currentWatchlist st)) then ret None
  else
    setLoading true >>
    let! id := lift (get (WatchlistContext.currentWatchlist st) "id") in
    let! response := await (RemoveStockBySymbol id symbol) in
    (if env_success response then emit (FilterBySymbol symbol)
     else setError (env_error response)) >>
    setLoading false >>
    ret (Some response).

(** [updateItemNotes(itemId, notes)], closed over [st]. *)
Definition updateItemNotes (st : WatchlistContext.state) (itemId notes : jval)
  : M event (option envelope) :=
  if negb (truthy (WatchlistContext.currentWatchlist st)) then ret None
  else
    setLoading true >>
    let! id := lift (get (WatchlistContext.currentWatchlist st) "id") in
    let! response :=
      await (UpdateItem id itemId (JObj [("notes", notes)])) in
    (if env_success response then emit (PatchNotes itemId notes)
     else setError (env_error response)) >>
    setLoading false >>
    ret (Some response).

(** [isStockInWatchlist(symbol)] *)
Definition isStockInWatchlist (symbol : jval) : M event jval :=
  let! response := await (FindStockInWatchlists symbol) in
  if env_success response then
    let! ws := lift (get (env_data response) "watchlists") in
    ret (js_or ws (JArr []))
  else ret (JArr []).

End Operations.

End WatchlistMore.

(* ===================================================================== *)
(** * The remaining operations of the portfolio provider *)
(* ===================================================================== *)

Module PortfolioMore.
Import Js Eff.
#[local] Open Scope eff_scope.

Inductive call : Type :=
| Base (c : PortfolioContext.call)
| Create (portfolioData : jval)
| UpdateTransaction (portfolioId transactionId data : jval)
| DeleteTransaction (portfolioId transactionId : jval)
| GetPerformance (portfolioId period : jval).

Inductive event : Type :=
| Core (ev : PortfolioContext.event)
| SetPerformance (v : jval)
| Remote (c : call).

Definition apply_event (st : PortfolioContext.state) (ev : event)
  : PortfolioContext.state :=
  match ev with
  | Core e => PortfolioContext.apply_event st e
  | SetPerformance v =>
      PortfolioContext.mkState
        (PortfolioContext.portfolios st) (PortfolioContext.currentPortfolio st)
        (PortfolioContext.holdings st) (PortfolioContext.transactions st)
        v (PortfolioContext.loading st) (PortfolioContext.error st)
  | Remote _ => st
  end.

Definition run_log (st : PortfolioContext.state) (evs : list event)
  : PortfolioContext.state :=
  fold_left apply_event evs st.

(** The calls to the service among the events of a log, those of the
    core operations included. *)
Fixpoint calls (evs : list event) : list call :=
  match evs with
  | [] => []
  | Remote c :: r => c :: calls r
  | Core (PortfolioContext.Remote c) :: r => Base c :: calls r
  | _ :: r => calls r
  end.

(** The values passed to [setLoading], in program order. *)
Fixpoint loading_writes (evs : list event) : list bool :=
  match evs with
  | [] => []
  | Core (PortfolioContext.SetLoading b) :: r => b :: loading_writes r
  | _ :: r => loading_writes r
  end.

(** The first thing the log does is [setLoading(true)], the last is
    [setLoading(false)]. *)
Definition brackets_loading (evs : list event) : Prop :=
  head evs = Some (Core (PortfolioContext.SetLoading true)) /\
  last evs = Some (Core (PortfolioContext.SetLoading false)).

Definition core {A} (m : M PortfolioContext.event A) : M event A :=
  fun s => mkResult (res (m s)) (store (m s)) (List.map Core (log (m s))).

(** The events of an [async] function up to the service call of its
    first [await], and those after it. *)
Fixpoint until_await (evs : list event) : list event :=
  match evs with
  | [] => []
  | Remote c :: _ => [Remote c]
  | Core (PortfolioContext.Remote c) :: _ => [Core (PortfolioContext.Remote c)]
  | ev :: r => ev :: until_await r
  end.

Fixpoint from_await (evs : list event) : list event :=
  match evs with
  | [] => []
  | Remote _ :: r => r
  | Core (PortfolioContext.Remote _) :: r => r
  | _ :: r => from_await r
  end.

(** An [async] function called without [await]: it runs up to its first
    [await], where the caller goes on.  [resumed] is the rest, from the
    moment the awaited promise settles; how it ends is nobody's to
    see. *)
Definition begun {A} (m : M event A) : M event unit :=
  fun s => mkResult (Normal tt) s (until_await (log (m s))).

Definition resumed {A} (m : M event A) : M event unit :=
  fun s => mkResult (Normal tt) (store (m s)) (from_await (log (m s))).

Section Operations.
Variable remote : call -> completion envelope.

Definition await (c : call) : M event envelope :=
  emit (Remote c) >> ApiClient.settled (remote c).

Definition setLoading (b : bool) : M event unit :=
  emit (Core (PortfolioContext.SetLoading b)).
Definition setError (v : jval) : M event unit :=
  emit (Core (PortfolioContext.SetError v)).

Definition selectPortfolio (portfolioId : jval) : M event unit :=
  core (PortfolioContext.selectPortfolio (fun c => remote (Base c))
          portfolioId).

Definition fetchTransactions (st : PortfolioContext.state) : M event unit :=
  core (PortfolioContext.fetchTransactions (fun c => remote (Base c)) st
          JUndef).

Definition fetchPortfolios : M event unit :=
  core (PortfolioContext.fetchPortfolios (fun c => remote (Base c))).

(** [createPortfolio(portfolioData)].  The selection of the new portfolio
    is started and not awaited: of [selectPortfolio] only the part before
    its first [await] has run when [createPortfolio] goes on. *)
Definition createPortfolio (portfolioData : jval) : M event envelope :=
  setLoading true >>
  let! response := await (Create portfolioData) in
  (if env_success response then
     fetchPortfolios >>
     let! id := lift (get (env_data response) "id") in
     begun (selectPortfolio id)
   else setError (env_error response)) >>
  setLoading false >>
  ret response.

(** [createPortfolio] up to the end of the selection it started. *)
Definition createPortfolio_settled (portfolioData : jval)
  : M event envelope :=
  let! response := createPortfolio portfolioData in
  (if env_success response then
     let! id := lift (get (env_data response) "id") in
     resumed (selectPortfolio id)
   else ret tt) >>
  ret response.

(** The body [updateTransaction] and [deleteTransaction] share, for the
    service call [c] of each. *)
Definition change_transaction (st : PortfolioContext.state)
  (c : jval -> call) : M event (option envelope) :=
  if negb (truthy (PortfolioContext.currentPortfolio st)) then ret None
  else
    setLoading true >>
    let! id := lift (get (PortfolioContext.currentPortfolio st) "id") in
    let! response := await (c id) in
    (if env_success response then
       let! id' := lift (get (PortfolioContext.currentPortfolio st) "id") in
       selectPortfolio id' >>
       fetchTransactions st
     else setError (env_error response)) >>
    setLoading false >>
    ret (Some response).

(** [updateTransaction(transactionId, data)], closed over [st]. *)
Definition updateTransaction (st : PortfolioContext.state)
  (transactionId data : jval) : M event (option envelope) :=
  change_transaction st (fun id => UpdateTransaction id transactionId data).

(** [deleteTransaction(transactionId)], closed over [st]. *)
Definition deleteTransaction (st : PortfolioContext.state)
  (transactionId : jval) : M event (option envelope) :=
  change_transaction st (fun id => DeleteTransaction id transactionId).

(** [fetchPerformance(period = '1M')], closed over [st]. *)
Definition fetchPerformance (st : PortfolioContext.state) (period0 : jval)
  : M event unit :=
  let period := match period0 with JUndef => JStr "1M" | _ => period0 end in
  if negb (truthy (PortfolioContext.currentPortfolio st)) then ret tt
  else
    let! id := lift (get (PortfolioContext.currentPortfolio st) "id") in
    let! response := await (GetPerformance id period) in
    if env_success response then emit (SetPerformance (env_data response))
    else ret tt.

End Operations.

End PortfolioMore.

Module WM := WatchlistMore.
Module PM := PortfolioMore.

(* ===================================================================== *)
(** * Further scenarios *)
(* ===================================================================== *)

Module Cases.
Import Js Eff Scenario.

Definition hAAPL : jval :=
  JObj [("id", JStr "h1"); ("portfolioId", JStr "p1"); ("symbol", JStr "AAPL");
        ("shares", JInt 10)].
Definition hKO : jval :=
  JObj [("id", JStr "h2"); ("portfolioId", JStr "p2"); ("symbol", JStr "KO");
        ("shares", JInt 40)].
Definition tBuy : jval :=
  JObj [("id", JStr "t1"); ("portfolioId", JStr "p1"); ("symbol", JStr "AAPL");
        ("type", JStr "buy")].
Definition pIncome : jval := JObj [("id", JStr "p2"); ("name", JStr "Income")].

(** A portfolio snapshot as [loadMockData] lays it out. *)
Definition portfolio_snapshot : jval :=
  JObj [("portfolios", JArr [pGrowth; pIncome]);
        ("holdings", JArr [hAAPL; hKO]);
        ("transactions", JArr [tBuy])].

(** localStorage holding both snapshots. *)
Definition stored_both : storage :=
  <[ PortfolioContext.MOCK_KEY := Json portfolio_snapshot ]> stored.

(** A service that has the portfolio [p1] under a newer name and whose
    other endpoints are unreachable. *)
Definition pRenamed : jval :=
  JObj [("id", JStr "p1"); ("name", JStr "Growth and Income")].

Definition holdings_down (c : PortfolioContext.call) : completion envelope :=
  match c with
  | PortfolioContext.GetById _ => Normal (Success pRenamed (JInt 200))
  | _ => Throw offline
  end.


(** localStorage whose watchlist snapshot was written by something else. *)
Definition malformed_snapshot : jval :=
  JObj [("watchlists", JStr "none"); ("items", JArr [])].

Definition stored_malformed : storage :=
  {[ WatchlistContext.MOCK_KEY := Json malformed_snapshot ]}.

(** What the server answers to a login, and to a profile request. *)
Definition ada : jval :=
  JObj [("id", JInt 7); ("email", JStr "ada@example.org");
        ("avatar", JUndef)].

Definition login_answer : ApiClient.response :=
  ApiClient.mkResponse 200 (Some "application/json; charset=utf-8")
    (Normal (JObj [("token", JStr "token-xyz"); ("user", ada)]))
    (Normal "").

Definition profile_answer : ApiClient.response :=
  ApiClient.mkResponse 200 (Some "application/json") (Normal ada) (Normal "").

(** A watchlist with two items, selected. *)
Definition iMSFT : jval :=
  JObj [("id", JStr "i1"); ("symbol", JStr "MSFT"); ("notes", JStr "")].
Definition iKO : jval :=
  JObj [("id", JStr "i2"); ("symbol", JStr "KO")].

Definition watching : WatchlistContext.state :=
  WatchlistContext.mkState (JArr [wX; wY]) wX (JArr [iMSFT; iKO]) false JNull.

End Cases.

(* ===================================================================== *)
(** * Reasoning about computations *)
(* ===================================================================== *)

Import Js Eff Logic Scenario.
#[local] Open Scope eff_scope.

Section Logic.
Context {E : Type}.

(** ** The result and the log of a composite computation *)

Lemma res_bind {A B} (m : M E A) (k : A -> M E B) s :
  res (bind m k s) =
  match res (m s) with
  | Normal a => res (k a (store (m s)))
  | Throw e => Throw e
  end.
Proof. unfold bind. cbv zeta. destruct (res (m s)); reflexivity. Qed.

Lemma log_bind {A B} (m : M E A) (k : A -> M E B) s :
  log (bind m k s) =
  log (m s) ++ match res (m s) with
               | Normal a => log (k a (store (m s)))
               | Throw _ => []
               end.
Proof.
  unfold bind. cbv zeta. destruct (res (m s)); cbn [log]; [reflexivity|].
  symmetry. apply app_nil_r.
Qed.

Lemma res_try_catch {A} (body : M E A) handler s :
  res (try_catch body handler s) =
  match res (body s) with
  | Normal a => Normal a
  | Throw e => res (handler e (store (body s)))
  end.
Proof.
  unfold try_catch. cbv zeta.
  destruct (res (body s)) eqn:H; [exact H | reflexivity].
Qed.

Lemma log_try_catch {A} (body : M E A) handler s :
  log (try_catch body handler s) =
  log (body s) ++ match res (body s) with
                  | Normal _ => []
                  | Throw e => log (handler e (store (body s)))
                  end.
Proof.
  unfold try_catch. cbv zeta.
  destruct (res (body s)); cbn [log]; [|reflexivity].
  symmetry. apply app_nil_r.
Qed.

Lemma log_try_finally {A} (body : M E A) fin s :
  log (try_finally body fin s) = log (body s) ++ log (fin (store (body s))).
Proof. unfold try_finally. cbv zeta. destruct (res (fin _)); reflexivity. Qed.

(** ** Computations that never throw *)

Lemma total_ret {A} (a : A) : total (E := E) (ret a).
Proof. intros s. exists a. reflexivity. Qed.

Lemma total_emit (e : E) : total (emit e).
Proof. intros s. exists tt. reflexivity. Qed.

Lemma total_lift {A} (c : completion A) a :
  c = Normal a -> total (E := E) (lift c).
Proof. intros -> s. exists a. reflexivity. Qed.

Lemma total_bind {A B} (m : M E A) (k : A -> M E B) :
  total m -> (forall a, total (k a)) -> total (bind m k).
Proof.
  intros Hm Hk s. rewrite res_bind. destruct (Hm s) as [a ->]. apply Hk.
Qed.

(** A [try] whose handler never throws never throws. *)
Lemma total_try_catch {A} (body : M E A) handler :
  (forall e, total (handler e)) -> total (try_catch body handler).
Proof.
  intros Hh s. rewrite res_try_catch.
  destruct (res (body s)) as [a|e]; [eauto | apply Hh].
Qed.

Lemma total_try_finally {A} (body : M E A) fin :
  total body -> total fin -> total (try_finally body fin).
Proof.
  intros Hb Hf s. unfold try_finally. cbv zeta.
  destruct (Hf (store (body s))) as [u ->]. cbn [res]. apply Hb.
Qed.

(** ** Invariants of the log *)

Lemma only_ret (P : E -> Prop) {A} (a : A) : emits_only P (ret a).
Proof. intros s. constructor. Qed.

Lemma only_throw (P : E -> Prop) {A} e : emits_only P (@throw E A e).
Proof. intros s. constructor. Qed.

Lemma only_lift (P : E -> Prop) {A} (c : completion A) :
  emits_only P (lift c).
Proof. intros s. constructor. Qed.

Lemma only_emit (P : E -> Prop) e : P e -> emits_only P (emit e).
Proof. intros H s. repeat constructor. exact H. Qed.

Lemma only_bind (P : E -> Prop) {A B} (m : M E A) (k : A -> M E B) :
  emits_only P m -> (forall a, emits_only P (k a)) -> emits_only P (bind m k).
Proof.
  intros Hm Hk s. rewrite log_bind. apply Forall_app. split; [apply Hm|].
  destruct (res (m s)); [apply Hk | constructor].
Qed.

Lemma only_try_catch (P : E -> Prop) {A} (body : M E A) handler :
  emits_only P body -> (forall e, emits_only P (handler e)) ->
  emits_only P (try_catch body handler).
Proof.
  intros Hb Hh s. rewrite log_try_catch. apply Forall_app.
  split; [apply Hb|]. destruct (res (body s)); [constructor | apply Hh].
Qed.

Lemma only_try_finally (P : E -> Prop) {A} (body : M E A) fin :
  emits_only P body -> emits_only P fin ->
  emits_only P (try_finally body fin).
Proof.
  intros Hb Hf s. rewrite log_try_finally. apply Forall_app.
  split; [apply Hb | apply Hf].
Qed.

(** ** Computations that close with a given event *)

Lemma last_app_some {X} (l1 l2 : list X) x :
  last l2 = Some x -> last (l1 ++ l2) = Some x.
Proof.
  intros H. destruct l2 as [|y l2 _] using rev_ind; [discriminate|].
  rewrite app_assoc, last_snoc. rewrite last_snoc in H. exact H.
Qed.

Lemma closes_ret (F : E) {A} (stop : A -> Prop) a :
  ~ stop a -> closes F stop (ret a).
Proof. intros Hn s a' [= <-] Hd. contradiction. Qed.

Lemma closes_emit (F : E) (stop : unit -> Prop) : closes F stop (emit F).
Proof. intros s a _ _. reflexivity. Qed.

Lemma closes_emit_ret (F : E) {A} (stop : A -> Prop) a :
  closes F stop (bind (emit F) (fun _ => ret a)).
Proof. intros s a' _ _. reflexivity. Qed.

Lemma closes_bind (F : E) {A B} (stop : B -> Prop) (m : M E A) (k : A -> M E B) :
  (forall a, closes F stop (k a)) -> closes F stop (bind m k).
Proof.
  intros Hk s b Hres Hd. rewrite res_bind in Hres. rewrite log_bind.
  destruct (res (m s)) as [a|e]; [|discriminate].
  apply last_app_some. exact (Hk a _ _ Hres Hd).
Qed.

(** The first part has closed when its value says so, and the
    continuation then logs nothing more. *)
Lemma closes_bind_stop (F : E) {A B} (stopA : A -> Prop) (stop : B -> Prop)
  (m : M E A) (k : A -> M E B) :
  closes F stopA m ->
  (forall a, stopA a \/ ~ stopA a) ->
  (forall a, stopA a -> forall s, log (k a s) = []) ->
  (forall a, ~ stopA a -> closes F stop (k a)) ->
  closes F stop (bind m k).
Proof.
  intros Hm Hdec Hnil Hk s b Hres Hd. rewrite res_bind in Hres.
  rewrite log_bind. destruct (res (m s)) as [a|e] eqn:Ha; [|discriminate].
  destruct (Hdec a) as [Hda|Hda].
  - rewrite (Hnil a Hda), app_nil_r. exact (Hm _ _ Ha Hda).
  - apply last_app_some. exact (Hk a Hda _ _ Hres Hd).
Qed.

Lemma closes_try_catch (F : E) {A} (stop : A -> Prop) (body : M E A) handler :
  closes F stop body -> (forall e, closes F stop (handler e)) ->
  closes F stop (try_catch body handler).
Proof.
  intros Hb Hh s a Hres Hd. rewrite res_try_catch in Hres.
  rewrite log_try_catch. destruct (res (body s)) as [a'|e] eqn:Hb'.
  - rewrite app_nil_r. injection Hres as <-. exact (Hb _ _ Hb' Hd).
  - apply last_app_some. exact (Hh e _ _ Hres Hd).
Qed.

(** ** Running a computation forwards *)

Lemma post_ret {A} (a : A) s (Q : completion A -> storage -> list E -> Prop) :
  Q (Normal a) s [] -> post (ret a) s Q.
Proof. exact (fun H => H). Qed.

Lemma post_throw {A} e s (Q : completion A -> storage -> list E -> Prop) :
  Q (Throw e) s [] -> post (throw e) s Q.
Proof. exact (fun H => H). Qed.

Lemma post_lift {A} (c : completion A) s
  (Q : completion A -> storage -> list E -> Prop) :
  Q c s [] -> post (lift c) s Q.
Proof. exact (fun H => H). Qed.

Lemma post_emit (e : E) s Q : Q (Normal tt) s [e] -> post (emit e) s Q.
Proof. exact (fun H => H). Qed.

Lemma post_getItem key s
  (Q : completion (option Js.stored) -> storage -> list E -> Prop) :
  Q (Normal (s !! key)) s [] -> post (getItem key) s Q.
Proof. exact (fun H => H). Qed.

Lemma post_removeItem key s
  (Q : completion unit -> storage -> list E -> Prop) :
  Q (Normal tt) (delete key s) [] -> post (removeItem key) s Q.
Proof. exact (fun H => H). Qed.

Lemma post_setItem key x s
  (Q : completion unit -> storage -> list E -> Prop) :
  Q (Normal tt) (<[key := x]> s) [] -> post (setItem key x) s Q.
Proof. exact (fun H => H). Qed.

Lemma post_bind {A B} (m : M E A) (k : A -> M E B) s Q :
  post m s (fun r s1 l1 =>
    match r with
    | Normal a => post (k a) s1 (fun r' s2 l2 => Q r' s2 (l1 ++ l2))
    | Throw e => Q (Throw e) s1 l1
    end) ->
  post (bind m k) s Q.
Proof.
  unfold post, bind. cbv zeta. destruct (res (m s)); exact (fun H => H).
Qed.

Lemma post_try_catch {A} (body : M E A) handler s Q :
  post body s (fun r s1 l1 =>
    match r with
    | Normal a => Q (Normal a) s1 l1
    | Throw e => post (handler e) s1 (fun r' s2 l2 => Q r' s2 (l1 ++ l2))
    end) ->
  post (try_catch body handler) s Q.
Proof.
  unfold post, try_catch. cbv zeta.
  destruct (res (body s)) eqn:H; [rewrite H|]; exact (fun H => H).
Qed.

Lemma post_try_finally {A} (body : M E A) fin s Q :
  post body s (fun r s1 l1 =>
    post fin s1 (fun r' s2 l2 =>
      match r' with
      | Normal _ => Q r s2 (l1 ++ l2)
      | Throw e => Q (Throw e) s2 (l1 ++ l2)
      end)) ->
  post (try_finally body fin) s Q.
Proof.
  unfold post, try_finally. cbv zeta.
  destruct (res (fin _)); exact (fun H => H).
Qed.

(** A known run of a part is enough to run the whole. *)
Lemma post_known {A} (m : M E A) s r s' l Q :
  m s = mkResult r s' l -> Q r s' l -> post m s Q.
Proof. unfold post. intros ->. exact (fun H => H). Qed.

(** The whole result, from a forward run. *)
Lemma run_eq {A} (m : M E A) s x :
  post m s (fun r s' l => mkResult r s' l = x) -> m s = x.
Proof. unfold post. destruct (m s); exact (fun H => H). Qed.

(** A part that never throws: carry on with whatever it returns. *)
Lemma post_total {A} (m : M E A) s Q :
  total m ->
  (forall a, Q (Normal a) (store (m s)) (log (m s))) ->
  post m s Q.
Proof. intros Hm HQ. unfold post. destruct (Hm s) as [a ->]. apply HQ. Qed.

Lemma post_weaken {A} (m : M E A) s
  (Q Q' : completion A -> storage -> list E -> Prop) :
  post m s Q -> (forall r s' l, Q r s' l -> Q' r s' l) -> post m s Q'.
Proof. unfold post. intros H HQ. apply HQ, H. Qed.

Lemma post_self {A} (m : M E A) s :
  post m s (fun r s' l => mkResult r s' l = m s).
Proof. unfold post. destruct (m s); reflexivity. Qed.

(** ** Service calls *)

Lemma settled_eq (o : completion envelope) s :
  A.settled (Ev := E) o s = mkResult o (A.after_call o s) [].
Proof.
  unfold A.settled, A.after_call, bind, removeItem, ret, lift.
  destruct (A.clears_token o); reflexivity.
Qed.

Lemma post_settled (o : completion envelope) s
  (Q : completion envelope -> storage -> list E -> Prop) :
  Q o (A.after_call o s) [] -> post (A.settled o) s Q.
Proof. unfold post. rewrite settled_eq. exact (fun H => H). Qed.

Lemma only_settled (P : E -> Prop) (o : completion envelope) :
  emits_only P (A.settled o).
Proof. intros s. rewrite settled_eq. constructor. Qed.

End Logic.

(** A call that succeeds or rejects leaves localStorage alone; one that
    is refused can only have removed the token. *)
Lemma after_call_success d st s : A.after_call (Normal (Success d st)) s = s.
Proof. reflexivity. Qed.

Lemma after_call_throw e s : A.after_call (Throw e) s = s.
Proof. reflexivity. Qed.

Lemma after_call_lookup o s k :
  k <> A.AUTH_TOKEN -> A.after_call o s !! k = s !! k.
Proof.
  intros Hk. unfold A.after_call.
  destruct (A.clears_token o); [|reflexivity].
  apply lookup_delete_ne. congruence.
Qed.

Lemma after_call_W o s : A.after_call o s !! W.MOCK_KEY = s !! W.MOCK_KEY.
Proof. apply after_call_lookup. discriminate. Qed.

Lemma after_call_P o s : A.after_call o s !! P.MOCK_KEY = s !! P.MOCK_KEY.
Proof. apply after_call_lookup. discriminate. Qed.

Lemma after_call_delete o s k :
  delete k (A.after_call o s) = A.after_call o (delete k s).
Proof.
  unfold A.after_call. destruct (A.clears_token o); [|reflexivity].
  apply delete_delete.
Qed.

Lemma after_call_twice o o' s :
  A.clears_token o = true ->
  A.after_call o' (A.after_call o s) = A.after_call o s.
Proof.
  intros H. unfold A.after_call. rewrite H.
  destruct (A.clears_token o'); [|reflexivity]. apply delete_delete_eq.
Qed.

Ltac run_step :=
  lazymatch goal with
  | |- post (bind _ _) _ _ => apply post_bind
  | |- post (ret _) _ _ => apply post_ret
  | |- post (throw _) _ _ => apply post_throw
  | |- post (emit _) _ _ => apply post_emit
  | |- post (lift _) _ _ => apply post_lift
  | |- post (getItem _) _ _ => apply post_getItem
  | |- post (removeItem _) _ _ => apply post_removeItem
  | |- post (setItem _ _) _ _ => apply post_setItem
  | |- post (A.settled _) _ _ => apply post_settled
  | |- post (try_catch _ _) _ _ => apply post_try_catch
  | |- post (try_finally _ _) _ _ => apply post_try_finally
  | |- post (if true then _ else _) _ _ => cbv iota
  | |- post (if false then _ else _) _ _ => cbv iota
  end; cbn beta iota.

Ltac call_step :=
  first [ rewrite after_call_success | rewrite after_call_throw
        | rewrite after_call_W | rewrite after_call_P ].

Ltac run :=
  repeat first [ run_step
               | progress cbn [env_success env_data env_error negb]
               | call_step ].

Ltac only_step :=
  first
  [ apply only_ret | apply only_throw | apply only_lift | apply only_settled
  | apply only_emit; reflexivity
  | apply only_bind; [| intros ?]
  | apply only_try_catch; [| intros ?]
  | apply only_try_finally
  | match goal with
    | |- emits_only _ (if ?b then _ else _) => destruct b
    | |- emits_only _ (match ?x with _ => _ end) => destruct x
    end ].

Ltac total_step :=
  first
  [ apply total_ret | apply total_emit
  | apply total_bind; [| intros ?]
  | apply total_try_catch; intros ?
  | apply total_try_finally
  | match goal with
    | |- total (if ?b then _ else _) => destruct b
    end ].

Ltac closes_step :=
  first
  [ apply closes_emit_ret | apply closes_emit
  | apply closes_bind; intros ?
  | match goal with
    | |- closes _ _ (if ?b then _ else _) => destruct b
    end ].

(* ===================================================================== *)
(** * Facts about values *)
(* ===================================================================== *)

Lemma truthy_not_nullish v : truthy v = true -> nullish v = false.
Proof. destruct v; cbn; congruence. Qed.

Lemma get_defined v k : nullish v = false -> exists x, get v k = Normal x.
Proof.
  destruct v; cbn; try discriminate; intros _; eauto;
    destruct (String.eqb k "length"); eauto.
Qed.

Lemma get_opt_defined v k : exists x, get_opt v k = Normal x.
Proof.
  unfold get_opt. destruct (nullish v) eqn:H; [eauto | apply get_defined, H].
Qed.

(** A value with a truthy property is itself truthy. *)
Lemma truthy_field_truthy v k c :
  get v k = Normal c -> truthy c = true -> truthy v = true.
Proof.
  destruct v; cbn; try discriminate; try reflexivity.
  - intros [= <-]. discriminate.
  - intros [= <-]. discriminate.
  - destruct (String.eqb k "length"); intros [= <-]; cbn; try discriminate.
    destruct s; [discriminate | reflexivity].
Qed.

(** [mockData && mockData.field] never throws. *)
Lemma guarded_get_total {E} v k :
  total (E := E) (if truthy v then lift (get v k) else ret v).
Proof.
  destruct (truthy v) eqn:H; [|apply total_ret].
  destruct (get_defined v k (truthy_not_nullish v H)) as [x Hx].
  eapply total_lift, Hx.
Qed.

(** Filtering is idempotent: what passed the predicate passes it again. *)
Lemma filter_list_idem p l r :
  filter_list p l = Normal r -> filter_list p r = Normal r.
Proof.
  revert r. induction l as [|x l IH]; intros r; cbn [filter_list].
  - intros [= <-]. reflexivity.
  - destruct (p x) as [b|e] eqn:Hp; [|discriminate].
    destruct (filter_list p l) as [r'|e]; [|discriminate].
    intros [= <-]. specialize (IH r' eq_refl).
    destruct b; [|exact IH]. cbn [filter_list]. rewrite Hp, IH. reflexivity.
Qed.

(* ===================================================================== *)
(** * Reading the snapshot *)
(* ===================================================================== *)

Import Vocabulary.

(** [safeParseMockData] in closed form: a missing or empty item is
    [null]; a corrupted one is removed and read as [null]. *)
Lemma W_safeParse_eq ls :
  W.safeParseMockData ls =
  match ls !! W.MOCK_KEY with
  | Some (Json v) => mkResult (Normal v) ls []
  | Some (Raw t) => if String.eqb t "" then mkResult (Normal JNull) ls []
                    else mkResult (Normal JNull) (delete W.MOCK_KEY ls) []
  | None => mkResult (Normal JNull) ls []
  end.
Proof.
  unfold W.safeParseMockData, try_catch, bind, getItem. cbn [res store log].
  destruct (ls !! W.MOCK_KEY) as [[t|v]|]; cbn [stored_truthy negb];
    try reflexivity.
  destruct (String.eqb t ""); reflexivity.
Qed.

Lemma P_safeParse_eq ls :
  P.safeParseMockData ls =
  match ls !! P.MOCK_KEY with
  | Some (Json v) => mkResult (Normal v) ls []
  | Some (Raw t) => if String.eqb t "" then mkResult (Normal JNull) ls []
                    else mkResult (Normal JNull) (delete P.MOCK_KEY ls) []
  | None => mkResult (Normal JNull) ls []
  end.
Proof.
  unfold P.safeParseMockData, try_catch, bind, getItem. cbn [res store log].
  destruct (ls !! P.MOCK_KEY) as [[t|v]|]; cbn [stored_truthy negb];
    try reflexivity.
  destruct (String.eqb t ""); reflexivity.
Qed.

Lemma W_safeParse_total : total W.safeParseMockData.
Proof.
  intros s. rewrite W_safeParse_eq.
  destruct (s !! W.MOCK_KEY) as [[t|v]|]; [destruct (String.eqb t "")| |];
    cbn; eauto.
Qed.

Lemma P_safeParse_total : total P.safeParseMockData.
Proof.
  intros s. rewrite P_safeParse_eq.
  destruct (s !! P.MOCK_KEY) as [[t|v]|]; [destruct (String.eqb t "")| |];
    cbn; eauto.
Qed.

Lemma W_safeParse_silent Q : emits_only Q W.safeParseMockData.
Proof.
  intros s. rewrite W_safeParse_eq.
  destruct (s !! W.MOCK_KEY) as [[t|v]|]; [destruct (String.eqb t "")| |];
    constructor.
Qed.

Lemma P_safeParse_silent Q : emits_only Q P.safeParseMockData.
Proof.
  intros s. rewrite P_safeParse_eq.
  destruct (s !! P.MOCK_KEY) as [[t|v]|]; [destruct (String.eqb t "")| |];
    constructor.
Qed.

Lemma W_post_safeParse s Q :
  match s !! W.MOCK_KEY with
  | Some (Json v) => Q (Normal v) s []
  | Some (Raw t) => if String.eqb t "" then Q (Normal JNull) s []
                    else Q (Normal JNull) (delete W.MOCK_KEY s) []
  | None => Q (Normal JNull) s []
  end ->
  post (E := W.event) W.safeParseMockData s Q.
Proof.
  unfold post. rewrite W_safeParse_eq.
  destruct (s !! W.MOCK_KEY) as [[t|v]|]; [destruct (String.eqb t "")| |];
    exact (fun H => H).
Qed.

Lemma P_post_safeParse s Q :
  match s !! P.MOCK_KEY with
  | Some (Json v) => Q (Normal v) s []
  | Some (Raw t) => if String.eqb t "" then Q (Normal JNull) s []
                    else Q (Normal JNull) (delete P.MOCK_KEY s) []
  | None => Q (Normal JNull) s []
  end ->
  post (E := P.event) P.safeParseMockData s Q.
Proof.
  unfold post. rewrite P_safeParse_eq.
  destruct (s !! P.MOCK_KEY) as [[t|v]|]; [destruct (String.eqb t "")| |];
    exact (fun H => H).
Qed.

(* ===================================================================== *)
(** * Fetching the collection *)
(* ===================================================================== *)

Lemma W_fetch_total remote : total (W.fetchWatchlists remote).
Proof.
  unfold W.fetchWatchlists.
  repeat first [apply W_safeParse_total | apply guarded_get_total | total_step].
Qed.

Lemma P_fetch_total remote : total (P.fetchPortfolios remote).
Proof.
  unfold P.fetchPortfolios, P.cached_portfolios.
  repeat first [apply P_safeParse_total | apply guarded_get_total | total_step].
Qed.

Lemma W_fetch_events remote :
  emits_only (fun ev => W.collection_event ev = true) (W.fetchWatchlists remote).
Proof.
  unfold W.fetchWatchlists, W.await.
  repeat first [apply W_safeParse_silent | only_step].
Qed.

Lemma W_run_log_app st l1 l2 :
  W.run_log st (l1 ++ l2) =
  match W.run_log st l1 with
  | Normal st' => W.run_log st' l2
  | Throw e => Throw e
  end.
Proof.
  revert st. induction l1 as [|ev l1 IH]; intros st; cbn [W.run_log app];
    [reflexivity|].
  destruct (W.apply_event st ev); [apply IH | reflexivity].
Qed.

(** Replaying what a fetch logs cannot fail and leaves the selection and
    its children alone. *)
Lemma W_run_collection_events st l :
  Forall (fun ev => W.collection_event ev = true) l ->
  exists st', W.run_log st l = Normal st' /\
    W.currentWatchlist st' = W.currentWatchlist st /\
    W.items st' = W.items st.
Proof.
  intros H. revert st. induction H as [|ev l Hev _ IH]; intros st;
    cbn [W.run_log].
  - eauto.
  - destruct ev; try discriminate Hev; cbn [W.apply_event];
      match goal with
      | |- context [W.run_log ?s l] => destruct (IH s) as (st' & -> & Hw)
      end; eauto.
Qed.

(** ** A fetch whose remote request fails *)









(** ** A fetch whose remote request succeeds *)

(** A successful watchlist fetch in full: one setter for the list, and
    localStorage as it was. *)
Lemma W_fetch_success remote ls d sc :
  remote W.GetAll = Normal (Success d sc) -> nullish d = false ->
  exists inner, get d "watchlists" = Normal inner /\
    W.fetchWatchlists remote ls =
    mkResult (Normal tt) ls
      [W.SetLoading true; W.SetError JNull; W.Remote W.GetAll;
       W.SetWatchlists (js_or inner (js_or d (JArr [])));
       W.SetLoading false].
Proof.
  intros Hr Hd. destruct (get_defined d "watchlists" Hd) as [inner Hi].
  exists inner. split; [exact Hi|].
  apply run_eq. unfold W.fetchWatchlists, W.await.
  run. rewrite Hr. run. rewrite Hi. run. reflexivity.
Qed.

Lemma P_fetch_success remote ls d sc :
  remote P.GetAll = Normal (Success d sc) -> nullish d = false ->
  exists inner, get d "portfolios" = Normal inner /\
    P.fetchPortfolios remote ls =
    mkResult (Normal tt) ls
      [P.SetLoading true; P.SetError JNull; P.Remote P.GetAll;
       P.SetPortfolios (js_or inner (js_or d (JArr [])));
       P.SetLoading false].
Proof.
  intros Hr Hd. destruct (get_defined d "portfolios" Hd) as [inner Hi].
  exists inner. split; [exact Hi|].
  apply run_eq. unfold P.fetchPortfolios, P.await.
  run. rewrite Hr. run. rewrite Hi. run. reflexivity.
Qed.

(** C5.  A collection fetch never writes the snapshot: after a successful
    remote fetch localStorage is what it was, so a later fetch (one that
    fails and falls back, in particular) behaves as if the successful one
    had not happened; what it falls back to is the snapshot that was
    stored beforehand, or the default. *)
Theorem fetch_success_leaves_snapshot_alone
  (remoteW : W.call -> completion envelope)
  (remoteP : P.call -> completion envelope)
  (ls : storage) (dW scW dP scP : jval) :
  remoteW W.GetAll = Normal (Success dW scW) -> nullish dW = false ->
  remoteP P.GetAll = Normal (Success dP scP) -> nullish dP = false ->
  store (W.fetchWatchlists remoteW ls) = ls /\
  store (P.fetchPortfolios remoteP ls) = ls /\
  (forall later,
     W.fetchWatchlists later (store (W.fetchWatchlists remoteW ls)) =
     W.fetchWatchlists later ls) /\
  (forall later,
     P.fetchPortfolios later (store (P.fetchPortfolios remoteP ls)) =
     P.fetchPortfolios later ls).
Proof.
  intros HW HdW HP HdP.
  destruct (W_fetch_success remoteW ls dW scW HW HdW) as (iW & _ & EW).
  destruct (P_fetch_success remoteP ls dP scP HP HdP) as (iP & _ & EP).
  rewrite EW, EP. cbn [store]. repeat split.
Qed.

Lemma fetch_success_leaves_snapshot_alone_witness :
  store (W.fetchWatchlists (fun _ => Normal (Success (JArr [wZ]) (JInt 200)))
           stored) = stored /\
  store (P.fetchPortfolios (fun _ => Normal (Success (JArr [wZ]) (JInt 200)))
           stored) = stored.
Proof.
  destruct (fetch_success_leaves_snapshot_alone
              (fun _ => Normal (Success (JArr [wZ]) (JInt 200)))
              (fun _ => Normal (Success (JArr [wZ]) (JInt 200)))
              stored (JArr [wZ]) (JInt 200) (JArr [wZ]) (JInt 200)
              eq_refl eq_refl eq_refl eq_refl) as (HW & HP & _).
  split; [exact HW | exact HP].
Defined.

(** C5 as stated fails: the list [[wZ]] is fetched successfully, the next
    fetch fails and falls back to the snapshot, and the collection it
    yields is the older stored list, not the most recently fetched one. *)
Lemma fallback_after_success_is_not_last_fetched :
  exists st1 st2,
    W.run_log W.initial
      (log (W.fetchWatchlists
              (fun _ => Normal (Success (JArr [wZ]) (JInt 200))) stored))
      = Normal st1 /\
    W.watchlists st1 = JArr [wZ] /\
    W.run_log st1
      (log (W.fetchWatchlists (fun _ => Normal unavailable)
              (store (W.fetchWatchlists
                        (fun _ => Normal (Success (JArr [wZ]) (JInt 200)))
                        stored))))
      = Normal st2 /\
    W.watchlists st2 = JArr [wX; wY] /\
    W.watchlists st2 <> JArr [wZ].
Proof.
  do 2 eexists. split; [vm_compute; reflexivity|].
  split; [reflexivity|]. split; [vm_compute; reflexivity|].
  split; [reflexivity | discriminate].
Qed.

(* ===================================================================== *)
(** * Selecting, and the auto-selection effect *)
(* ===================================================================== *)

Lemma get_defined_not_nullish v k x : get v k = Normal x -> nullish v = false.
Proof. destruct v; cbn; congruence. Qed.

Lemma W_select_events remote id :
  emits_only (fun ev => W.selection_event ev = true)
             (W.selectWatchlist remote id).
Proof.
  unfold W.selectWatchlist, W.await.
  repeat first [apply W_safeParse_silent | only_step].
Qed.

Lemma P_select_events remote id :
  emits_only (fun ev => P.selection_event ev = true)
             (P.selectPortfolio remote id).
Proof.
  unfold P.selectPortfolio, P.await, P.snapshot_complete, P.cached_portfolios,
    P.find_portfolio, P.use_snapshot.
  repeat first [apply P_safeParse_silent | only_step].
Qed.

(** Replaying what a selection logs cannot fail and leaves the collection
    alone. *)
Lemma W_run_selection_events st l :
  Forall (fun ev => W.selection_event ev = true) l ->
  exists st', W.run_log st l = Normal st' /\
              W.watchlists st' = W.watchlists st.
Proof.
  intros H. revert st. induction H as [|ev l Hev _ IH]; intros st;
    cbn [W.run_log].
  - eauto.
  - destruct ev; try discriminate Hev; cbn [W.apply_event];
      match goal with
      | |- context [W.run_log ?s l] => destruct (IH s) as (st' & -> & Hw)
      end; eauto.
Qed.

Lemma P_run_selection_events st l :
  Forall (fun ev => P.selection_event ev = true) l ->
  P.portfolios (P.run_log st l) = P.portfolios st.
Proof.
  intros H. revert st. unfold P.run_log.
  induction H as [|ev l Hev _ IH]; intros st; cbn [fold_left].
  - reflexivity.
  - rewrite IH. destruct ev; try discriminate Hev; reflexivity.
Qed.

Lemma W_select_keeps_collection remote id ls st :
  exists st', W.run_log st (log (W.selectWatchlist remote id ls)) = Normal st' /\
              W.watchlists st' = W.watchlists st.
Proof. apply W_run_selection_events, W_select_events. Qed.

Lemma P_select_keeps_collection remote id ls st :
  P.portfolios (P.run_log st (log (P.selectPortfolio remote id ls)))
  = P.portfolios st.
Proof. apply P_run_selection_events, P_select_events. Qed.

Lemma length_positive (l : list jval) x :
  gt_zero (JInt (Z.of_nat (length (x :: l)))) = true.
Proof. cbn [gt_zero JInt length]. apply Z.ltb_lt. lia. Qed.

(** With nothing selected and a list whose first element is [w], the
    effect is the call [selectWatchlist(w.id)]. *)
Lemma W_autoSelect_invokes remote st w ws id ls :
  W.currentWatchlist st = JNull ->
  W.watchlists st = JArr (w :: ws) ->
  get w "id" = Normal id ->
  W.autoSelect remote st ls = W.selectWatchlist remote id ls.
Proof.
  intros Hc Hw Hid. apply run_eq. unfold W.autoSelect.
  rewrite Hc, Hw. cbn [truthy negb get String.eqb Ascii.eqb Bool.eqb].
  run. rewrite length_positive. run. cbn [get_first]. run. rewrite Hid. run.
  apply post_self.
Qed.

Lemma P_autoSelect_invokes remote st p ps id ls :
  P.currentPortfolio st = JNull ->
  P.portfolios st = JArr (p :: ps) ->
  get p "id" = Normal id ->
  P.autoSelect remote st ls = P.selectPortfolio remote id ls.
Proof.
  intros Hc Hp Hid. apply run_eq. unfold P.autoSelect.
  rewrite Hc, Hp. cbn [truthy negb get String.eqb Ascii.eqb Bool.eqb].
  run. rewrite length_positive. run. cbn [get_first]. run. rewrite Hid. run.
  apply post_self.
Qed.

(** With something selected the effect does nothing. *)
Lemma W_autoSelect_idle remote st ls :
  truthy (W.currentWatchlist st) = true ->
  W.autoSelect remote st ls = mkResult (Normal tt) ls [].
Proof. intros H. unfold W.autoSelect. rewrite H. reflexivity. Qed.

Lemma P_autoSelect_idle remote st ls :
  truthy (P.currentPortfolio st) = true ->
  P.autoSelect remote st ls = mkResult (Normal tt) ls [].
Proof. intros H. unfold P.autoSelect. rewrite H. reflexivity. Qed.

(** A selection the remote answers: the record it returned becomes
    [current]. *)
Lemma W_select_success remote id ls d sc rec st :
  remote (W.GetWithItems id) = Normal (Success d sc) ->
  get d "watchlist" = Normal rec ->
  exists its,
    get d "items" = Normal its /\
    W.run_log st (log (W.selectWatchlist remote id ls)) =
    Normal (W.mkState (W.watchlists st) (js_or rec d) (js_or its (JArr []))
                      false JNull).
Proof.
  intros Hr Hrec.
  destruct (get_defined d "items" (get_defined_not_nullish _ _ _ Hrec))
    as [its Hits].
  exists its. split; [exact Hits|].
  change (post (W.selectWatchlist remote id) ls (fun _ _ l =>
    W.run_log st l =
    Normal (W.mkState (W.watchlists st) (js_or rec d) (js_or its (JArr []))
                      false JNull))).
  unfold W.selectWatchlist, W.await.
  run. rewrite Hr. run. rewrite Hrec. run. rewrite Hits. run. reflexivity.
Qed.

Lemma P_current_after st l :
  P.currentPortfolio (P.run_log st l) = last_selected l (P.currentPortfolio st).
Proof.
  unfold P.run_log. revert st.
  induction l as [|ev l IH]; intros st; cbn [fold_left last_selected];
    [reflexivity|].
  rewrite IH. destruct ev; reflexivity.
Qed.

Lemma last_selected_app l1 l2 cur :
  last_selected (l1 ++ l2) cur = last_selected l2 (last_selected l1 cur).
Proof.
  revert cur. induction l1 as [|ev l1 IH]; intros cur; [reflexivity|].
  destruct ev; cbn [app last_selected]; apply IH.
Qed.

(** What [find] returns, when it is truthy, is an element that passed
    the test. *)
Lemma find_list_found p l x :
  find_list p l = Normal x -> truthy x = true -> x ∈ l /\ p x = Normal true.
Proof.
  induction l as [|y l IH]; cbn [find_list].
  - intros [= <-]. discriminate.
  - destruct (p y) as [[|]|e] eqn:Hp; [| |discriminate].
    + intros [= <-] _. split; [apply list_elem_of_here | exact Hp].
    + intros H Hx. destruct (IH H Hx) as [Hin Hpx].
      split; [apply list_elem_of_further, Hin | exact Hpx].
Qed.

(** The [catch] of [selectPortfolio], entered with [d] selected: the
    selection stays [d] or becomes a record of the snapshot. *)
Lemma P_select_fallback_current id ls d s (handler : M P.event bool) :
  s !! P.MOCK_KEY = ls !! P.MOCK_KEY ->
  forall fallback : jval,
  handler =
    (let! mockData := P.safeParseMockData in
     let! complete := P.snapshot_complete mockData in
     (if truthy complete then
        let! portfolio := P.find_portfolio mockData id in
        if truthy portfolio then P.use_snapshot mockData portfolio id
        else emit (P.SetError (JStr "Portfolio not found"))
      else emit (P.SetError fallback)) >>
     ret false) ->
  post handler s (fun _ _ l =>
    last_selected l d = d \/ snapshot_portfolio ls id (last_selected l d)).
Proof.
  intros Hs fallback ->. run. apply P_post_safeParse.
  assert (Hnull : forall s',
    post (let! complete := P.snapshot_complete JNull in
          (if truthy complete then
             let! portfolio := P.find_portfolio JNull id in
             if truthy portfolio then P.use_snapshot JNull portfolio id
             else emit (P.SetError (JStr "Portfolio not found"))
           else emit (P.SetError fallback)) >>
          ret false) s'
      (fun _ _ l2 =>
         last_selected ([] ++ l2) d = d \/
         snapshot_portfolio ls id (last_selected ([] ++ l2) d))).
  { intros s'. unfold P.snapshot_complete, P.cached_portfolios.
    cbn [truthy]. run. left. reflexivity. }
  rewrite Hs. destruct (ls !! P.MOCK_KEY) as [[t|snap]|] eqn:Hls;
    [destruct (String.eqb t "")| |]; try apply Hnull.
  unfold P.snapshot_complete, P.cached_portfolios, P.find_portfolio.
  destruct (truthy snap) eqn:Hsnap; run;
    [|repeat (rewrite Hsnap; run); left; reflexivity].
  destruct (get_defined snap "portfolios" (truthy_not_nullish _ Hsnap))
    as [ps Hps].
  destruct (get_defined snap "holdings" (truthy_not_nullish _ Hsnap))
    as [hs Hhs].
  destruct (get_defined snap "transactions" (truthy_not_nullish _ Hsnap))
    as [ts Hts].
  rewrite Hps. run. destruct (truthy ps) eqn:Hpst; run;
    [|repeat (rewrite Hpst; run); left; reflexivity].
  rewrite Hhs. run. destruct (truthy hs) eqn:Hhst; run;
    [|repeat (rewrite Hhst; run); left; reflexivity].
  rewrite Hts. run. destruct (truthy ts) eqn:Htst; run;
    [|left; reflexivity].
  rewrite ?Hps. run.
  destruct (js_find "mockData.portfolios" (field_is "id" id) ps)
    as [portfolio|e] eqn:Hfind; run; [|left; reflexivity].
  destruct (truthy portfolio) eqn:Hp; run; [|left; reflexivity].
  assert (Hfrom : snapshot_portfolio ls id portfolio).
  { destruct ps as [| | | | |l|]; try discriminate Hfind.
    cbn [js_find] in Hfind.
    destruct (find_list_found _ _ _ Hfind Hp) as [Hin Hid].
    exists snap, l. auto. }
  unfold P.use_snapshot. run. rewrite Hhs. run.
  destruct (js_filter "mockData.holdings" (field_is "portfolioId" id) hs);
    run; [|right; exact Hfrom].
  rewrite Hts. run.
  destruct (js_filter "mockData.transactions" (field_is "portfolioId" id) ts);
    run; right; exact Hfrom.
Qed.

(** A selection whose first request the remote answers with the record
    [d].  When the holdings request is answered or refused, [d] is the
    selection; when it rejects, or its payload is [null], the [catch]
    runs and the selection is [d] or the snapshot's record. *)
Lemma P_select_answered remote id ls d sc st :
  remote (P.GetById id) = Normal (Success d sc) ->
  let cur :=
    P.currentPortfolio (P.run_log st (log (P.selectPortfolio remote id ls))) in
  match remote (P.GetHoldings id) with
  | Normal (Success dh _) =>
      if nullish dh then cur = d \/ snapshot_portfolio ls id cur else cur = d
  | Normal (Failure _) => cur = d
  | Throw _ => cur = d \/ snapshot_portfolio ls id cur
  end.
Proof.
  intros Hr cur. subst cur. rewrite P_current_after.
  change (post (P.selectPortfolio remote id) ls (fun _ _ l =>
    let cur := last_selected l (P.currentPortfolio st) in
    match remote (P.GetHoldings id) with
    | Normal (Success dh _) =>
        if nullish dh then cur = d \/ snapshot_portfolio ls id cur
        else cur = d
    | Normal (Failure _) => cur = d
    | Throw _ => cur = d \/ snapshot_portfolio ls id cur
    end)).
  unfold P.selectPortfolio, P.await.
  lazymatch goal with |- context [try_catch _ ?h] => set (handler := h) end.
  assert (Hcatch : forall e s (Q : _ -> _ -> list P.event -> Prop),
    s !! P.MOCK_KEY = ls !! P.MOCK_KEY ->
    (forall r s' l,
       last_selected l d = d \/ snapshot_portfolio ls id (last_selected l d) ->
       Q r s' l) ->
    post (handler e) s Q).
  { intros e s Q Hs HQ. eapply post_weaken; [|exact HQ].
    eapply P_select_fallback_current; [exact Hs | reflexivity]. }
  assert (Hend : forall (r : completion bool) s' l,
    last_selected l d = d \/ snapshot_portfolio ls id (last_selected l d) ->
    match r with
    | Normal a =>
        post (if a then ret tt else emit (P.SetLoading false)) s'
          (fun _ _ l2 =>
             let cur :=
               last_selected
                 (([P.SetLoading true] ++ [P.SetError JNull] ++
                   ([P.Remote (P.GetById id)] ++ []) ++
                   [P.SetCurrentPortfolio d] ++
                   ([P.Remote (P.GetHoldings id)] ++ []) ++ l) ++ l2)
                 (P.currentPortfolio st) in
             cur = d \/ snapshot_portfolio ls id cur)
    | Throw _ =>
        let cur :=
          last_selected
            ([P.SetLoading true] ++ [P.SetError JNull] ++
             ([P.Remote (P.GetById id)] ++ []) ++
             [P.SetCurrentPortfolio d] ++
             ([P.Remote (P.GetHoldings id)] ++ []) ++ l)
            (P.currentPortfolio st) in
        cur = d \/ snapshot_portfolio ls id cur
    end).
  { intros r s' l H. destruct r as [[|]|]; run; cbv zeta;
      cbn [app last_selected]; rewrite ?last_selected_app;
      cbn [last_selected]; exact H. }
  run. rewrite Hr. run.
  destruct (remote (P.GetHoldings id)) as [[dh sch|err]|e]; run.
  - destruct (nullish dh) eqn:Hdh.
    + destruct dh; try discriminate Hdh; cbn [get]; run;
        (apply Hcatch; [reflexivity|]); intros r s' l H;
        cbn [app] in *; rewrite ?app_nil_r; apply (Hend r s' l H).
    + destruct (get_defined dh "holdings" Hdh) as [inner ->]. run.
      reflexivity.
  - reflexivity.
  - apply Hcatch; [reflexivity|]. intros r s' l H.
    cbn [app] in *; rewrite ?app_nil_r; apply (Hend r s' l H).
Qed.


(** C2.  When [current] is null and the collection is a non-empty list
    whose first element is an object, the auto-selection effect is
    exactly the call [select(collection[0].id)].  That call never changes
    the collection.  When the remote answers it with a watchlist payload,
    [current] becomes the record of that payload.  When the remote
    answers the portfolio request with a record, [current] is that record
    if the holdings request that follows is answered with a payload or
    refused; if the holdings request rejects or its payload is [null],
    the [catch] runs and [current] is that record or the record of the
    stored snapshot with that id.  Once [current] is set the effect does
    nothing. *)
Theorem auto_select_invokes_select
  (remoteW : W.call -> completion envelope)
  (remoteP : P.call -> completion envelope)
  (stW : W.state) (stP : P.state) (w p : jval) (ws ps : list jval)
  (ls : storage) :
  W.currentWatchlist stW = JNull ->
  W.watchlists stW = JArr (w :: ws) -> nullish w = false ->
  P.currentPortfolio stP = JNull ->
  P.portfolios stP = JArr (p :: ps) -> nullish p = false ->
  (exists id,
     get w "id" = Normal id /\
     W.autoSelect remoteW stW ls = W.selectWatchlist remoteW id ls /\
     (exists st',
        W.run_log stW (log (W.selectWatchlist remoteW id ls)) = Normal st' /\
        W.watchlists st' = W.watchlists stW) /\
     (forall d sc rec,
        remoteW (W.GetWithItems id) = Normal (Success d sc) ->
        get d "watchlist" = Normal rec ->
        exists st',
          W.run_log stW (log (W.selectWatchlist remoteW id ls)) = Normal st' /\
          W.currentWatchlist st' = js_or rec d))
  /\ (exists id,
        get p "id" = Normal id /\
        P.autoSelect remoteP stP ls = P.selectPortfolio remoteP id ls /\
        P.portfolios (P.run_log stP (log (P.selectPortfolio remoteP id ls)))
          = P.portfolios stP /\
        (forall d sc,
           remoteP (P.GetById id) = Normal (Success d sc) ->
           let cur :=
             P.currentPortfolio
               (P.run_log stP (log (P.selectPortfolio remoteP id ls))) in
           match remoteP (P.GetHoldings id) with
           | Normal (Success dh _) =>
               if nullish dh
               then cur = d \/ snapshot_portfolio ls id cur
               else cur = d
           | Normal (Failure _) => cur = d
           | Throw _ => cur = d \/ snapshot_portfolio ls id cur
           end))
  /\ (forall st, truthy (W.currentWatchlist st) = true ->
        W.autoSelect remoteW st ls = mkResult (Normal tt) ls [])
  /\ (forall st, truthy (P.currentPortfolio st) = true ->
        P.autoSelect remoteP st ls = mkResult (Normal tt) ls []).
Proof.
  intros HcW HwW Hw HcP HpP Hp.
  destruct (get_defined w "id" Hw) as [idW HidW].
  destruct (get_defined p "id" Hp) as [idP HidP].
  split; [|split; [|split]].
  - exists idW. split; [exact HidW|].
    split; [eapply W_autoSelect_invokes; eassumption|].
    split; [apply W_select_keeps_collection|].
    intros d sc rec Hr Hrec.
    destruct (W_select_success remoteW idW ls d sc rec stW Hr Hrec)
      as (its & _ & ->).
    eexists. split; reflexivity.
  - exists idP. split; [exact HidP|].
    split; [eapply P_autoSelect_invokes; eassumption|].
    split; [apply P_select_keeps_collection|].
    intros d sc Hr. exact (P_select_answered remoteP idP ls d sc stP Hr).
  - intros st. apply W_autoSelect_idle.
  - intros st. apply P_autoSelect_idle.
Qed.

Lemma auto_select_invokes_select_witness :
  W.autoSelect (fun _ => Normal unavailable) unselectedW stored
    = W.selectWatchlist (fun _ => Normal unavailable) (JStr "z") stored /\
  P.autoSelect (fun _ => Normal unavailable) unselectedP stored
    = P.selectPortfolio (fun _ => Normal unavailable) (JStr "p1") stored.
Proof.
  destruct (auto_select_invokes_select
              (fun _ => Normal unavailable) (fun _ => Normal unavailable)
              unselectedW unselectedP wZ pGrowth [] [] stored
              eq_refl eq_refl eq_refl eq_refl eq_refl eq_refl)
    as ((idW & HidW & HW & _) & (idP & HidP & HP & _) & _).
  injection HidW as <-. injection HidP as <-.
  split; [exact HW | exact HP].
Defined.

(** The [catch] case does occur: the remote answers the portfolio request
    with its record, the holdings request rejects, and [current] ends as
    the older record of the snapshot. *)
Lemma auto_select_may_end_on_the_snapshot_record :
  P.currentPortfolio
    (P.run_log unselectedP
       (log (P.autoSelect Cases.holdings_down unselectedP Cases.stored_both)))
  = pGrowth /\
  pGrowth <> Cases.pRenamed.
Proof. split; [vm_compute; reflexivity | discriminate]. Qed.

(** C2 as stated fails: nothing is selected, the collection holds one
    portfolio, the effect runs [select] on its id, the remote is down and
    there is no snapshot: [current] is still null afterwards, not
    [collection[0]]. *)
Lemma auto_select_may_leave_current_null :
  P.currentPortfolio unselectedP = JNull /\
  P.portfolios unselectedP = JArr [pGrowth] /\
  P.currentPortfolio
    (P.run_log unselectedP
       (log (P.autoSelect (fun _ => Normal unavailable) unselectedP ∅)))
  = JNull /\
  JNull <> pGrowth.
Proof.
  split; [reflexivity|]. split; [reflexivity|].
  split; [vm_compute; reflexivity | discriminate].
Qed.

(* ===================================================================== *)
(** * Adding and removing children *)
(* ===================================================================== *)

(** [addStock] when the remote request fails: one fabricated item is
    appended to the items the callback closed over, and the call reports
    success. *)
Lemma W_addStock_failure remote now iso st sym notes old id ls :
  truthy (W.currentWatchlist st) = true ->
  get (W.currentWatchlist st) "id" = Normal id ->
  W.items st = JArr old ->
  failed (remote (W.AddStock id (JStr sym)
                    match notes with JUndef => JStr "" | _ => notes end))
    = true ->
  let notes' := match notes with JUndef => JStr "" | _ => notes end in
  let newItem := JObj [
    ("id", JStr ("item_" +:+ pretty now));
    ("watchlistId", id);
    ("symbol", JStr (upper sym));
    ("name", JStr (upper sym +:+ " Inc."));
    ("price", JNum 10000 2);
    ("change", JNum 0 2);
    ("changePercent", JNum 0 2);
    ("notes", notes');
    ("addedAt", JStr iso)] in
  W.addStock remote now iso st (JStr sym) notes ls =
  mkResult (Normal (Success newItem JUndef))
    (A.after_call (remote (W.AddStock id (JStr sym) notes')) ls)
    [W.SetLoading true;
     W.Remote (W.AddStock id (JStr sym) notes');
     W.SetItems (JArr (old ++ [newItem]));
     W.SetLoading false].
Proof.
  intros Hc Hid Hitems Hfail notes' newItem. subst notes' newItem.
  apply run_eq. unfold W.addStock, W.await, W.error_message.
  rewrite Hc, Hitems. cbn [negb]. run. rewrite Hid. run.
  destruct (remote _) as [[d sc|err]|e]; [discriminate Hfail | |].
  - run. destruct (get_opt_defined err "message") as [m ->]. run.
    reflexivity.
  - run. reflexivity.
Qed.

(** [addTransaction] when the remote request is refused: the error of the
    envelope goes to [error], and no child is fabricated. *)
Lemma P_addTransaction_failure remote st tx id e ls :
  truthy (P.currentPortfolio st) = true ->
  get (P.currentPortfolio st) "id" = Normal id ->
  remote (P.AddTransaction id tx) = Normal (Failure e) ->
  P.addTransaction remote st tx ls =
  mkResult (Normal (Failure e)) (A.after_call (Normal (Failure e)) ls)
    [P.SetLoading true; P.Remote (P.AddTransaction id tx);
     P.SetError e; P.SetLoading false].
Proof.
  intros Hc Hid Hr. apply run_eq. unfold P.addTransaction, P.await.
  rewrite Hc. cbn [negb]. run. rewrite Hid. run. rewrite Hr. run.
  reflexivity.
Qed.

(** C3.  With a watchlist selected, [addStock] of an ASCII symbol whose
    remote request fails fabricates one item (id [item_<clock>], the
    symbol in upper case, placeholder name and prices, the given notes),
    appends exactly that item to the items, returns it as a success and
    leaves [error] as it was.  [addTransaction] has no such fallback: a refused request sets
    [error] and adds nothing. *)
Theorem add_stock_degrades_to_a_local_item
  (remoteW : W.call -> completion envelope) (now : Z) (iso : string)
  (remoteP : P.call -> completion envelope)
  (stW : W.state) (stP : P.state)
  (sym : string) (notes idW idP tx e : jval) (old : list jval)
  (ls : storage) :
  ascii_text sym = true ->
  truthy (W.currentWatchlist stW) = true ->
  get (W.currentWatchlist stW) "id" = Normal idW ->
  W.items stW = JArr old ->
  failed (remoteW (W.AddStock idW (JStr sym)
                     match notes with JUndef => JStr "" | _ => notes end))
    = true ->
  truthy (P.currentPortfolio stP) = true ->
  get (P.currentPortfolio stP) "id" = Normal idP ->
  remoteP (P.AddTransaction idP tx) = Normal (Failure e) ->
  let newItem := JObj [
    ("id", JStr ("item_" +:+ pretty now));
    ("watchlistId", idW);
    ("symbol", JStr (upper sym));
    ("name", JStr (upper sym +:+ " Inc."));
    ("price", JNum 10000 2);
    ("change", JNum 0 2);
    ("changePercent", JNum 0 2);
    ("notes", match notes with JUndef => JStr "" | _ => notes end);
    ("addedAt", JStr iso)] in
  res (W.addStock remoteW now iso stW (JStr sym) notes ls)
    = Normal (Success newItem JUndef) /\
  W.run_log stW (log (W.addStock remoteW now iso stW (JStr sym) notes ls))
    = Normal (W.mkState (W.watchlists stW) (W.currentWatchlist stW)
                        (JArr (old ++ [newItem])) false (W.error stW)) /\
  res (P.addTransaction remoteP stP tx ls) = Normal (Failure e) /\
  P.run_log stP (log (P.addTransaction remoteP stP tx ls))
    = P.mkState (P.portfolios stP) (P.currentPortfolio stP) (P.holdings stP)
                (P.transactions stP) (P.performance stP) false e.
Proof.
  intros _ HcW HidW Hitems Hfail HcP HidP HrP newItem.
  rewrite (W_addStock_failure remoteW now iso stW sym notes old idW ls
             HcW HidW Hitems Hfail).
  rewrite (P_addTransaction_failure remoteP stP tx idP e ls HcP HidP HrP).
  repeat split.
Qed.

Lemma add_stock_degrades_to_a_local_item_witness :
  exists newItem,
    res (W.addStock (fun _ => Normal unavailable) 1700000000000
           "2023-11-14T22:13:20.000Z" selectedW (JStr "aapl") (JStr "test") ∅)
      = Normal (Success newItem JUndef) /\
    get newItem "symbol" = Normal (JStr "AAPL") /\
    get newItem "id" = Normal (JStr "item_1700000000000") /\
    W.run_log selectedW
      (log (W.addStock (fun _ => Normal unavailable) 1700000000000
              "2023-11-14T22:13:20.000Z" selectedW (JStr "aapl") (JStr "test") ∅))
      = Normal (W.mkState (JArr [wP1]) wP1 (JArr [c1; newItem]) false JNull).
Proof.
  destruct (add_stock_degrades_to_a_local_item
              (fun _ => Normal unavailable) 1700000000000
              "2023-11-14T22:13:20.000Z" (fun _ => Normal unavailable)
              selectedW selectedP "aapl" (JStr "test") (JStr "p1") (JStr "p1")
              buyAAPL (env_error unavailable) [c1] ∅
              eq_refl eq_refl eq_refl eq_refl eq_refl eq_refl eq_refl eq_refl)
    as (Hres & Hrun & _).
  eexists. split; [exact Hres|].
  split; [reflexivity|]. split; [reflexivity | exact Hrun].
Defined.

(** C3 as stated fails for transactions: the remote refuses the add, and
    no child is appended while [error] is set. *)
Lemma add_transaction_failure_adds_nothing :
  P.run_log selectedP
    (log (P.addTransaction (fun _ => Normal unavailable) selectedP buyAAPL ∅))
  = P.mkState (JArr [pGrowth]) pGrowth (JArr []) (JArr []) JNull false
              (env_error unavailable)
  /\ env_error unavailable <> JNull.
Proof. split; [vm_compute; reflexivity | discriminate]. Qed.

(* ===================================================================== *)
(** * Deleting a watchlist *)
(* ===================================================================== *)

(** The list a fetch leaves behind depends on the state it started from
    through the list only. *)
Lemma W_run_collection_watchlists l :
  Forall (fun ev => W.collection_event ev = true) l ->
  forall st1 st2 st1' st2',
    W.watchlists st1 = W.watchlists st2 ->
    W.run_log st1 l = Normal st1' -> W.run_log st2 l = Normal st2' ->
    W.watchlists st1' = W.watchlists st2'.
Proof.
  induction 1 as [|ev l Hev _ IH]; intros st1 st2 st1' st2' Hw;
    cbn [W.run_log].
  - intros [= <-] [= <-]. exact Hw.
  - destruct ev; try discriminate Hev; cbn [W.apply_event];
      apply IH; cbn [W.watchlists]; auto.
Qed.

(** [deleteWatchlist] once the remote has deleted: the log is the
    re-fetch, then the selection is cleared if it was the deleted one. *)
Lemma W_delete_success_log remote st id ls d sc cur :
  remote (W.Delete id) = Normal (Success d sc) ->
  get_opt (W.currentWatchlist st) "id" = Normal cur ->
  log (W.deleteWatchlist remote st id ls) =
  [W.SetLoading true; W.Remote (W.Delete id)]
  ++ log (W.fetchWatchlists remote ls)
  ++ (if strict_eq cur id
      then [W.SetCurrentWatchlist JNull; W.SetItems (JArr [])] else [])
  ++ [W.SetLoading false].
Proof.
  intros Hr Hcur.
  change (post (W.deleteWatchlist remote st id) ls (fun _ _ l => l =
    [W.SetLoading true; W.Remote (W.Delete id)]
    ++ log (W.fetchWatchlists remote ls)
    ++ (if strict_eq cur id
        then [W.SetCurrentWatchlist JNull; W.SetItems (JArr [])] else [])
    ++ [W.SetLoading false])).
  unfold W.deleteWatchlist, W.await.
  run. rewrite Hr. run.
  apply post_total; [apply W_fetch_total | intros []].
  run. rewrite Hcur. destruct (strict_eq cur id); run;
    cbn [app]; rewrite <- ?app_assoc; reflexivity.
Qed.

(** C4.  When the remote delete of an id that is a primitive (a string
    or a number, as ids are) succeeds, [deleteWatchlist] re-fetches the
    collection and then: if the deleted id is [current.id] it sets
    [current] to null and empties the children; otherwise it leaves both
    as they were.  The collection afterwards is the one the re-fetch
    produced. *)
Theorem delete_clears_the_selection_it_deleted
  (remote : W.call -> completion envelope) (st : W.state)
  (id d sc cur : jval) (ls : storage) :
  primitive id = true ->
  remote (W.Delete id) = Normal (Success d sc) ->
  get_opt (W.currentWatchlist st) "id" = Normal cur ->
  exists fetched st',
    W.run_log st (log (W.fetchWatchlists remote ls)) = Normal fetched /\
    W.run_log st (log (W.deleteWatchlist remote st id ls)) = Normal st' /\
    W.watchlists st' = W.watchlists fetched /\
    (strict_eq cur id = true ->
       W.currentWatchlist st' = JNull /\ W.items st' = JArr []) /\
    (strict_eq cur id = false ->
       W.currentWatchlist st' = W.currentWatchlist st /\
       W.items st' = W.items st).
Proof.
  intros _ Hr Hcur.
  rewrite (W_delete_success_log remote st id ls d sc cur Hr Hcur).
  pose proof (W_fetch_events remote ls) as Hev.
  destruct (W_run_collection_events st _ Hev) as (fetched & Hf & Hfc & Hfi).
  pose (st0 := W.mkState (W.watchlists st) (W.currentWatchlist st)
                         (W.items st) true (W.error st)).
  destruct (W_run_collection_events st0 _ Hev) as (mid & Hm & Hmc & Hmi).
  assert (Hw : W.watchlists mid = W.watchlists fetched).
  { eapply (W_run_collection_watchlists _ Hev st0 st); eauto. }
  exists fetched. cbn [app W.run_log W.apply_event]. fold st0.
  rewrite W_run_log_app, Hm.
  destruct (strict_eq cur id); cbn [app W.run_log W.apply_event];
    eexists; (split; [exact Hf|]); (split; [reflexivity|]);
    cbn [W.watchlists W.currentWatchlist W.items];
    (split; [exact Hw|]); split; intros; try discriminate; auto.
Qed.

Lemma delete_clears_the_selection_it_deleted_witness :
  exists st',
    W.run_log selectedX
      (log (W.deleteWatchlist deletes_then_down selectedX (JStr "x") stored))
      = Normal st' /\
    W.currentWatchlist st' = JNull /\ W.items st' = JArr [].
Proof.
  destruct (delete_clears_the_selection_it_deleted
              deletes_then_down selectedX (JStr "x")
              (JObj [("success", JBool true)]) (JInt 200) (JStr "x") stored
              eq_refl eq_refl eq_refl)
    as (fetched & st' & _ & Hrun & _ & Hsame & _).
  exists st'. split; [exact Hrun | exact (Hsame eq_refl)].
Defined.

(** C4 as stated fails: [x] is selected and deleted remotely, the
    re-fetch fails and falls back to the snapshot, and [x] is still in the
    collection afterwards (while [current] is null). *)
Lemma deleted_id_can_remain_in_collection :
  exists st',
    W.run_log selectedX
      (log (W.deleteWatchlist deletes_then_down selectedX (JStr "x") stored))
      = Normal st' /\
    W.currentWatchlist st' = JNull /\
    js_some "collection" (field_is "id" (JStr "x")) (W.watchlists st') = Normal true.
Proof.
  eexists. split; [vm_compute; reflexivity|].
  split; reflexivity.
Qed.

(* ===================================================================== *)
(** * Removing a child *)
(* ===================================================================== *)

(** [removeStock] with a watchlist selected and a remote that answers. *)
Lemma W_removeStock_answered remote st itemId id r ls :
  truthy (W.currentWatchlist st) = true ->
  get (W.currentWatchlist st) "id" = Normal id ->
  remote (W.RemoveStock id itemId) = Normal r ->
  W.removeStock remote st itemId ls =
  mkResult (Normal r) (A.after_call (Normal r) ls)
    [W.SetLoading true; W.Remote (W.RemoveStock id itemId);
     (if env_success r then W.FilterItems itemId
      else W.SetError (env_error r));
     W.SetLoading false].
Proof.
  intros Hc Hid Hr. apply run_eq. unfold W.removeStock, W.await.
  rewrite Hc. cbn [negb]. run. rewrite Hid. run. rewrite Hr. run.
  destruct (env_success r); run; reflexivity.
Qed.

Lemma js_filter_idem callee p v v' :
  js_filter callee p v = Normal v' -> js_filter callee p v' = Normal v'.
Proof.
  destruct v; cbn [js_filter]; try discriminate.
  destruct (filter_list p elems) as [r|e] eqn:H; [|discriminate].
  intros [= <-]. cbn [js_filter]. rewrite (filter_list_idem _ _ _ H).
  reflexivity.
Qed.

(** C6.  After a [removeStock] that succeeded, a second [removeStock] of
    the same id, whatever the remote answers, removes nothing further.
    When the remote reports success again the state is left exactly as it
    was; when it reports a failure, that failure goes to [error]. *)
Theorem second_remove_removes_nothing
  (remote1 remote2 : W.call -> completion envelope) (st st1 : W.state)
  (itemId id d sc : jval) (r2 : envelope) (ls : storage) :
  truthy (W.currentWatchlist st) = true ->
  get (W.currentWatchlist st) "id" = Normal id ->
  remote1 (W.RemoveStock id itemId) = Normal (Success d sc) ->
  W.run_log st (log (W.removeStock remote1 st itemId ls)) = Normal st1 ->
  remote2 (W.RemoveStock id itemId) = Normal r2 ->
  exists st2,
    W.run_log st1 (log (W.removeStock remote2 st1 itemId ls)) = Normal st2 /\
    W.items st2 = W.items st1 /\
    (env_success r2 = true -> st2 = st1) /\
    (env_success r2 = false -> W.error st2 = env_error r2).
Proof.
  intros Hc Hid Hr1 Hrun1 Hr2.
  rewrite (W_removeStock_answered remote1 st itemId id _ ls Hc Hid Hr1)
    in Hrun1.
  cbn [log env_success W.run_log W.apply_event] in Hrun1.
  cbn [W.watchlists W.currentWatchlist W.items W.loading W.error] in Hrun1.
  revert Hrun1.
  destruct (js_filter "prevItems" (field_is_not "id" itemId) (W.items st))
    as [kept|e] eqn:Hkept; [|discriminate].
  cbn [W.watchlists W.currentWatchlist W.items W.loading W.error].
  intros [= <-].
  rewrite (W_removeStock_answered remote2
             (W.mkState (W.watchlists st) (W.currentWatchlist st) kept false
                        (W.error st)) itemId id r2 ls Hc Hid Hr2).
  cbn [log]. destruct (env_success r2);
    cbn [W.run_log W.apply_event W.watchlists W.currentWatchlist W.items
         W.loading W.error].
  - rewrite (js_filter_idem _ _ _ _ Hkept). eexists.
    split; [reflexivity|]. split; [reflexivity|].
    split; [reflexivity | discriminate].
  - eexists. split; [reflexivity|]. split; [reflexivity|].
    split; [discriminate | reflexivity].
Qed.

Lemma second_remove_removes_nothing_witness :
  exists st2,
    W.run_log (W.mkState (JArr [wP1]) wP1 (JArr []) false JNull)
      (log (W.removeStock (fun _ => Normal accepted)
              (W.mkState (JArr [wP1]) wP1 (JArr []) false JNull)
              (JStr "c1") ∅))
      = Normal st2 /\
    st2 = W.mkState (JArr [wP1]) wP1 (JArr []) false JNull.
Proof.
  destruct (second_remove_removes_nothing
              (fun _ => Normal accepted) (fun _ => Normal accepted)
              selectedW (W.mkState (JArr [wP1]) wP1 (JArr []) false JNull)
              (JStr "c1") (JStr "p1") (JObj [("success", JBool true)])
              (JInt 200) accepted ∅
              eq_refl eq_refl eq_refl eq_refl eq_refl)
    as (st2 & Hrun & _ & Hsame & _).
  exists st2. split; [exact Hrun | exact (Hsame eq_refl)].
Defined.

(** C6 as stated fails: the child [c1] is removed, the same removal is
    asked again, the remote answers 404 for the child that is gone, and
    the second call sets [error]. *)
Lemma second_remove_can_set_error :
  exists st1 st2,
    W.run_log selectedW
      (log (W.removeStock (fun _ => Normal accepted) selectedW (JStr "c1") ∅))
      = Normal st1 /\
    W.items st1 = JArr [] /\ W.error st1 = JNull /\
    W.run_log st1
      (log (W.removeStock (fun _ => Normal not_found) st1 (JStr "c1") ∅))
      = Normal st2 /\
    W.items st2 = JArr [] /\
    W.error st2 = env_error not_found /\ W.error st2 <> W.error st1.
Proof.
  do 2 eexists. split; [vm_compute; reflexivity|].
  split; [reflexivity|]. split; [reflexivity|].
  split; [vm_compute; reflexivity|].
  split; [reflexivity|]. split; [reflexivity | discriminate].
Qed.

(* ===================================================================== *)
(** * The loading flag *)
(* ===================================================================== *)

(** [setLoading(true); try { ... } finally { setLoading(false) }] *)
Lemma W_finally_brackets {A} (body : M W.event A) ls :
  W.brackets_loading
    (log ((emit (W.SetLoading true) >>
           try_finally body (emit (W.SetLoading false))) ls)).
Proof.
  rewrite log_bind. cbn [emit res store log]. rewrite log_try_finally.
  cbn [emit log]. split; [reflexivity|].
  rewrite app_assoc. apply last_snoc.
Qed.

(** [setLoading(true); setError(null); try { ... } finally
    { setLoading(false) }] *)
Lemma W_finally_brackets' {A} (body : M W.event A) ls :
  W.brackets_loading
    (log ((emit (W.SetLoading true) >> emit (W.SetError JNull) >>
           try_finally body (emit (W.SetLoading false))) ls)).
Proof.
  rewrite !log_bind. cbn [emit res store log]. rewrite log_try_finally.
  cbn [emit log]. split; [reflexivity|].
  rewrite !app_assoc. apply last_snoc.
Qed.

Lemma W_fetch_brackets remote ls :
  W.brackets_loading (log (W.fetchWatchlists remote ls)).
Proof. apply W_finally_brackets'. Qed.

Lemma W_select_brackets remote id ls :
  W.brackets_loading (log (W.selectWatchlist remote id ls)).
Proof. apply W_finally_brackets'. Qed.

Lemma W_create_brackets remote data ls :
  W.brackets_loading (log (W.createWatchlist remote data ls)).
Proof. apply W_finally_brackets. Qed.

Lemma W_update_brackets remote st id data ls :
  W.brackets_loading (log (W.updateWatchlist remote st id data ls)).
Proof. apply W_finally_brackets. Qed.

Lemma W_delete_brackets remote st id ls :
  W.brackets_loading (log (W.deleteWatchlist remote st id ls)).
Proof. apply W_finally_brackets. Qed.

Lemma W_addStock_brackets remote now iso st symbol notes ls :
  truthy (W.currentWatchlist st) = true ->
  W.brackets_loading (log (W.addStock remote now iso st symbol notes ls)).
Proof.
  intros H. unfold W.addStock. rewrite H. cbn [negb].
  apply W_finally_brackets.
Qed.

(** Operations without [finally] reset the flag when they return. *)

Lemma W_closes_brackets {A} (m : M W.event A) ls a :
  head (log (m ls)) = Some (W.SetLoading true) ->
  closes (W.SetLoading false) (fun _ => True) m ->
  res (m ls) = Normal a ->
  W.brackets_loading (log (m ls)).
Proof. intros Hh Hc Hr. split; [exact Hh | exact (Hc ls a Hr I)]. Qed.

Lemma P_closes_brackets {A} (m : M P.event A) ls a :
  head (log (m ls)) = Some (P.SetLoading true) ->
  closes (P.SetLoading false) (fun _ => True) m ->
  res (m ls) = Normal a ->
  P.brackets_loading (log (m ls)).
Proof. intros Hh Hc Hr. split; [exact Hh | exact (Hc ls a Hr I)]. Qed.

Lemma W_removeStock_brackets remote st itemId ls a :
  truthy (W.currentWatchlist st) = true ->
  res (W.removeStock remote st itemId ls) = Normal a ->
  W.brackets_loading (log (W.removeStock remote st itemId ls)).
Proof.
  intros H. apply W_closes_brackets; unfold W.removeStock; rewrite H;
    cbn [negb].
  - rewrite log_bind. reflexivity.
  - repeat closes_step.
Qed.

Lemma P_fetch_brackets remote ls :
  P.brackets_loading (log (P.fetchPortfolios remote ls)).
Proof.
  destruct (P_fetch_total remote ls) as [a Ha].
  apply (P_closes_brackets _ ls a); [| |exact Ha]; unfold P.fetchPortfolios.
  - rewrite log_bind. reflexivity.
  - repeat closes_step.
Qed.

Lemma P_fetchTransactions_brackets remote st options ls a :
  truthy (P.currentPortfolio st) = true ->
  res (P.fetchTransactions remote st options ls) = Normal a ->
  P.brackets_loading (log (P.fetchTransactions remote st options ls)).
Proof.
  intros H. apply P_closes_brackets; unfold P.fetchTransactions; rewrite H;
    cbn [negb].
  - rewrite log_bind. reflexivity.
  - repeat closes_step.
Qed.

Lemma P_addTransaction_brackets remote st tx ls a :
  truthy (P.currentPortfolio st) = true ->
  res (P.addTransaction remote st tx ls) = Normal a ->
  P.brackets_loading (log (P.addTransaction remote st tx ls)).
Proof.
  intros H. apply P_closes_brackets; unfold P.addTransaction; rewrite H;
    cbn [negb].
  - rewrite log_bind. reflexivity.
  - repeat closes_step.
Qed.

(** The [try] block of [selectPortfolio] yields [true] only after it has
    reset the flag, and its [catch] clause never yields [true]. *)
Lemma P_select_block_closes remote id :
  closes (P.SetLoading false) (fun returned : bool => returned = true)
    (try_catch
      (let! portfolioResponse := P.await remote (P.GetById id) in
       if negb (env_success portfolioResponse) then
         let! mockData := P.safeParseMockData in
         let! complete := P.snapshot_complete mockData in
         let! loaded :=
           (if truthy complete then
              let! portfolio := P.find_portfolio mockData id in
              if truthy portfolio then
                P.use_snapshot mockData portfolio id >>
                emit (P.SetLoading false) >>
                ret true
              else ret false
            else ret false) in
         if (loaded : bool) then ret true
         else
           emit (P.SetError (env_error portfolioResponse)) >>
           emit (P.SetLoading false) >>
           ret true
       else
         emit (P.SetCurrentPortfolio (env_data portfolioResponse)) >>
         let! holdingsResponse := P.await remote (P.GetHoldings id) in
         (if env_success holdingsResponse then
            let! inner := lift (get (env_data holdingsResponse) "holdings") in
            emit (P.SetHoldings
                    (js_or inner (js_or (env_data holdingsResponse) (JArr []))))
          else emit (P.SetError (env_error holdingsResponse))) >>
         ret false)
      (fun err =>
         let! mockData := P.safeParseMockData in
         let! complete := P.snapshot_complete mockData in
         (if truthy complete then
            let! portfolio := P.find_portfolio mockData id in
            if truthy portfolio then P.use_snapshot mockData portfolio id
            else emit (P.SetError (JStr "Portfolio not found"))
          else emit (P.SetError (P.message_or err "Failed to load portfolio"))) >>
         ret false)).
Proof.
  apply closes_try_catch.
  - apply closes_bind. intros response.
    destruct (negb (env_success response)).
    + do 2 (apply closes_bind; intros ?).
      eapply (closes_bind_stop _ (fun loaded : bool => loaded = true)).
      * destruct (truthy a0); [|apply closes_ret; discriminate].
        apply closes_bind. intros portfolio.
        destruct (truthy portfolio); [|apply closes_ret; discriminate].
        apply closes_bind. intros _. apply closes_emit_ret.
      * intros []; [left; reflexivity | right; discriminate].
      * intros loaded -> s. reflexivity.
      * intros [] Hl; [contradiction Hl; reflexivity|].
        apply closes_bind. intros _. apply closes_emit_ret.
    + do 3 (apply closes_bind; intros ?). apply closes_ret. discriminate.
  - intros err. do 3 (apply closes_bind; intros ?).
    apply closes_ret. discriminate.
Qed.

Lemma P_select_brackets remote id ls a :
  res (P.selectPortfolio remote id ls) = Normal a ->
  P.brackets_loading (log (P.selectPortfolio remote id ls)).
Proof.
  apply P_closes_brackets; unfold P.selectPortfolio.
  - rewrite log_bind. reflexivity.
  - do 2 (apply closes_bind; intros _).
    eapply closes_bind_stop.
    + apply P_select_block_closes.
    + intros []; [left; reflexivity | right; discriminate].
    + intros returned -> s. reflexivity.
    + intros [] Hr; [contradiction Hr; reflexivity | apply closes_emit].
Qed.

(** The refresh operations never touch the flag. *)
Lemma W_refreshItems_loading remote st ls :
  W.loading_writes (log (W.refreshItems remote st ls)) = [].
Proof.
  assert (H : emits_only (fun ev => W.loading_writes [ev] = [])
                         (W.refreshItems remote st)).
  { unfold W.refreshItems, W.await. repeat only_step. }
  specialize (H ls). induction H as [|ev l Hev _ IH]; [reflexivity|].
  destruct ev; cbn [W.loading_writes] in *; try discriminate; exact IH.
Qed.

Lemma P_refreshHoldings_loading remote st ls :
  P.loading_writes (log (P.refreshHoldings remote st ls)) = [].
Proof.
  assert (H : emits_only (fun ev => P.loading_writes [ev] = [])
                         (P.refreshHoldings remote st)).
  { unfold P.refreshHoldings, P.await. repeat only_step. }
  specialize (H ls). induction H as [|ev l Hev _ IH]; [reflexivity|].
  destruct ev; cbn [P.loading_writes] in *; try discriminate; exact IH.
Qed.

(** ** The remaining operations *)

Lemma WM_addStocks_brackets remote st symbols ls :
  truthy (W.currentWatchlist st) = true ->
  WM.brackets_loading (log (WM.addStocks remote st symbols ls)).
Proof.
  intros H. unfold WM.addStocks, WM.setLoading. rewrite H. cbn [negb].
  rewrite log_bind. cbn [emit res store log]. rewrite log_try_finally.
  cbn [emit log]. split; [reflexivity|].
  rewrite app_assoc. apply last_snoc.
Qed.

Lemma WM_closes_brackets {A} (m : M WM.event A) ls a :
  head (log (m ls)) = Some (WM.Core (W.SetLoading true)) ->
  closes (WM.Core (W.SetLoading false)) (fun _ => True) m ->
  res (m ls) = Normal a ->
  WM.brackets_loading (log (m ls)).
Proof. intros Hh Hc Hr. split; [exact Hh | exact (Hc ls a Hr I)]. Qed.

Lemma PM_closes_brackets {A} (m : M PM.event A) ls a :
  head (log (m ls)) = Some (PM.Core (P.SetLoading true)) ->
  closes (PM.Core (P.SetLoading false)) (fun _ => True) m ->
  res (m ls) = Normal a ->
  PM.brackets_loading (log (m ls)).
Proof. intros Hh Hc Hr. split; [exact Hh | exact (Hc ls a Hr I)]. Qed.

Lemma WM_removeStockBySymbol_brackets remote st symbol ls a :
  truthy (W.currentWatchlist st) = true ->
  res (WM.removeStockBySymbol remote st symbol ls) = Normal a ->
  WM.brackets_loading (log (WM.removeStockBySymbol remote st symbol ls)).
Proof.
  intros H. apply WM_closes_brackets;
    unfold WM.removeStockBySymbol, WM.setLoading; rewrite H; cbn [negb].
  - rewrite log_bind. reflexivity.
  - repeat closes_step.
Qed.

Lemma WM_updateItemNotes_brackets remote st itemId notes ls a :
  truthy (W.currentWatchlist st) = true ->
  res (WM.updateItemNotes remote st itemId notes ls) = Normal a ->
  WM.brackets_loading (log (WM.updateItemNotes remote st itemId notes ls)).
Proof.
  intros H. apply WM_closes_brackets;
    unfold WM.updateItemNotes, WM.setLoading; rewrite H; cbn [negb].
  - rewrite log_bind. reflexivity.
  - repeat closes_step.
Qed.

Lemma PM_change_transaction_brackets remote st c ls a :
  truthy (P.currentPortfolio st) = true ->
  res (PM.change_transaction remote st c ls) = Normal a ->
  PM.brackets_loading (log (PM.change_transaction remote st c ls)).
Proof.
  intros H. apply PM_closes_brackets;
    unfold PM.change_transaction, PM.setLoading; rewrite H; cbn [negb].
  - rewrite log_bind. reflexivity.
  - repeat closes_step.
Qed.

Lemma PM_createPortfolio_brackets remote data ls a :
  res (PM.createPortfolio remote data ls) = Normal a ->
  PM.brackets_loading (log (PM.createPortfolio remote data ls)).
Proof.
  apply PM_closes_brackets; unfold PM.createPortfolio, PM.setLoading.
  - rewrite log_bind. reflexivity.
  - repeat closes_step.
Qed.

Lemma WM_isStockInWatchlist_loading remote symbol ls :
  WM.loading_writes (log (WM.isStockInWatchlist remote symbol ls)) = [].
Proof.
  assert (H : emits_only (fun ev => WM.loading_writes [ev] = [])
                         (WM.isStockInWatchlist remote symbol)).
  { unfold WM.isStockInWatchlist, WM.await. repeat only_step. }
  specialize (H ls). induction H as [|ev l Hev _ IH]; [reflexivity|].
  destruct ev as [[]| | |]; cbn [WM.loading_writes] in *;
    try discriminate; exact IH.
Qed.

Lemma PM_fetchPerformance_loading remote st period ls :
  PM.loading_writes (log (PM.fetchPerformance remote st period ls)) = [].
Proof.
  assert (H : emits_only (fun ev => PM.loading_writes [ev] = [])
                         (PM.fetchPerformance remote st period)).
  { unfold PM.fetchPerformance, PM.await. repeat only_step. }
  specialize (H ls). induction H as [|ev l Hev _ IH]; [reflexivity|].
  destruct ev as [[]| |]; cbn [PM.loading_writes] in *;
    try discriminate; exact IH.
Qed.

(** C9.  How each operation of the two providers treats [loading].
    Written with [finally], or unable to throw: the fetch, select,
    create, update and delete of watchlists and [fetchPortfolios] call
    [setLoading(true)] first and [setLoading(false)] last whatever
    happens, and so do [addStock] and [addStocks] with a watchlist
    selected.  Without [finally]: [selectPortfolio] and
    [createPortfolio], and with a selection [removeStock],
    [removeStockBySymbol], [updateItemNotes], [fetchTransactions],
    [addTransaction], [updateTransaction] and [deleteTransaction], call
    [setLoading(true)] first, and [setLoading(false)] last whenever they
    return.  Called with nothing selected, each guarded operation logs
    nothing at all.  [refreshItems], [isStockInWatchlist],
    [refreshHoldings] and [fetchPerformance] never touch the flag. *)
Theorem loading_brackets_each_run
  (remoteW : WM.call -> completion envelope) (now : Z) (iso : string)
  (remoteP : PM.call -> completion envelope)
  (stW : W.state) (stP : P.state)
  (id data symbol symbols notes itemId tx options period : jval)
  (ls : storage) :
  let coreW := fun c => remoteW (WM.Base c) in
  let coreP := fun c => remoteP (PM.Base c) in
  (W.brackets_loading (log (W.fetchWatchlists coreW ls)) /\
   W.brackets_loading (log (W.selectWatchlist coreW id ls)) /\
   W.brackets_loading (log (W.createWatchlist coreW data ls)) /\
   W.brackets_loading (log (W.updateWatchlist coreW stW id data ls)) /\
   W.brackets_loading (log (W.deleteWatchlist coreW stW id ls)) /\
   P.brackets_loading (log (P.fetchPortfolios coreP ls)))
  /\ (if truthy (W.currentWatchlist stW) then
        W.brackets_loading
          (log (W.addStock coreW now iso stW symbol notes ls)) /\
        WM.brackets_loading (log (WM.addStocks remoteW stW symbols ls))
      else
        log (W.addStock coreW now iso stW symbol notes ls) = [] /\
        log (WM.addStocks remoteW stW symbols ls) = [])
  /\ ((forall a, res (P.selectPortfolio coreP id ls) = Normal a ->
         P.brackets_loading (log (P.selectPortfolio coreP id ls))) /\
      (forall a, res (PM.createPortfolio remoteP data ls) = Normal a ->
         PM.brackets_loading (log (PM.createPortfolio remoteP data ls))))
  /\ (if truthy (W.currentWatchlist stW) then
        (forall a, res (W.removeStock coreW stW itemId ls) = Normal a ->
           W.brackets_loading (log (W.removeStock coreW stW itemId ls))) /\
        (forall a,
           res (WM.removeStockBySymbol remoteW stW symbol ls) = Normal a ->
           WM.brackets_loading
             (log (WM.removeStockBySymbol remoteW stW symbol ls))) /\
        (forall a,
           res (WM.updateItemNotes remoteW stW itemId notes ls) = Normal a ->
           WM.brackets_loading
             (log (WM.updateItemNotes remoteW stW itemId notes ls)))
      else
        log (W.removeStock coreW stW itemId ls) = [] /\
        log (WM.removeStockBySymbol remoteW stW symbol ls) = [] /\
        log (WM.updateItemNotes remoteW stW itemId notes ls) = [])
  /\ (if truthy (P.currentPortfolio stP) then
        (forall a, res (P.fetchTransactions coreP stP options ls) = Normal a ->
           P.brackets_loading
             (log (P.fetchTransactions coreP stP options ls))) /\
        (forall a, res (P.addTransaction coreP stP tx ls) = Normal a ->
           P.brackets_loading (log (P.addTransaction coreP stP tx ls))) /\
        (forall a,
           res (PM.updateTransaction remoteP stP itemId data ls) = Normal a ->
           PM.brackets_loading
             (log (PM.updateTransaction remoteP stP itemId data ls))) /\
        (forall a,
           res (PM.deleteTransaction remoteP stP itemId ls) = Normal a ->
           PM.brackets_loading
             (log (PM.deleteTransaction remoteP stP itemId ls)))
      else
        log (P.fetchTransactions coreP stP options ls) = [] /\
        log (P.addTransaction coreP stP tx ls) = [] /\
        log (PM.updateTransaction remoteP stP itemId data ls) = [] /\
        log (PM.deleteTransaction remoteP stP itemId ls) = [])
  /\ (W.loading_writes (log (W.refreshItems coreW stW ls)) = [] /\
      WM.loading_writes (log (WM.isStockInWatchlist remoteW symbol ls)) = [] /\
      P.loading_writes (log (P.refreshHoldings coreP stP ls)) = [] /\
      PM.loading_writes
        (log (PM.fetchPerformance remoteP stP period ls)) = []).
Proof.
  intros coreW coreP. split; [|split; [|split; [|split; [|split]]]].
  - split; [apply W_fetch_brackets|].
    split; [apply W_select_brackets|].
    split; [apply W_create_brackets|].
    split; [apply W_update_brackets|].
    split; [apply W_delete_brackets | apply P_fetch_brackets].
  - destruct (truthy (W.currentWatchlist stW)) eqn:HW.
    + split; [apply W_addStock_brackets, HW | apply WM_addStocks_brackets, HW].
    + unfold W.addStock, WM.addStocks. rewrite HW. split; reflexivity.
  - split; intros a; [apply P_select_brackets|].
    apply PM_createPortfolio_brackets.
  - destruct (truthy (W.currentWatchlist stW)) eqn:HW.
    + split; [|split]; intros a.
      * apply W_removeStock_brackets, HW.
      * apply WM_removeStockBySymbol_brackets, HW.
      * apply WM_updateItemNotes_brackets, HW.
    + unfold W.removeStock, WM.removeStockBySymbol, WM.updateItemNotes.
      rewrite HW. repeat split.
  - destruct (truthy (P.currentPortfolio stP)) eqn:HP.
    + split; [|split; [|split]]; intros a.
      * apply P_fetchTransactions_brackets, HP.
      * apply P_addTransaction_brackets, HP.
      * apply PM_change_transaction_brackets, HP.
      * apply PM_change_transaction_brackets, HP.
    + unfold P.fetchTransactions, P.addTransaction, PM.updateTransaction,
        PM.deleteTransaction, PM.change_transaction.
      rewrite HP. repeat split.
  - split; [apply W_refreshItems_loading|].
    split; [apply WM_isStockInWatchlist_loading|].
    split; [apply P_refreshHoldings_loading|].
    apply PM_fetchPerformance_loading.
Qed.

Lemma loading_brackets_each_run_witness :
  W.brackets_loading
    (log (W.deleteWatchlist deletes_then_down selectedW (JStr "p1") stored)) /\
  P.brackets_loading
    (log (P.fetchPortfolios (fun _ => Throw offline) stored)) /\
  log (PM.updateTransaction (fun _ => Throw offline) unselectedP
         (JStr "t1") JNull stored) = [].
Proof.
  destruct (loading_brackets_each_run
              (fun c => match c with
                        | WM.Base c' => deletes_then_down c'
                        | _ => Normal unavailable
                        end)
              1700000000000 "2023-11-14T22:13:20.000Z"
              (fun _ => Throw offline) selectedW unselectedP
              (JStr "p1") JNull (JStr "AAPL") (JArr []) JUndef (JStr "t1")
              buyAAPL JUndef JUndef stored)
    as ((_ & _ & _ & _ & Hdel & Hfetch) & _ & _ & _ & Hguard & _).
  cbn [truthy P.currentPortfolio unselectedP] in Hguard.
  destruct Hguard as (_ & _ & Hupdate & _).
  split; [exact Hdel|]. split; [exact Hfetch | exact Hupdate].
Defined.

(** C9 as stated fails: [addStock] with nothing selected returns at its
    guard and never calls [setLoading]. *)
Lemma guarded_add_stock_never_sets_loading :
  log (W.addStock (fun _ => Normal accepted) 1700000000000
         "2023-11-14T22:13:20.000Z" W.initial (JStr "AAPL") JUndef ∅) = [] /\
  ~ W.brackets_loading
      (log (W.addStock (fun _ => Normal accepted) 1700000000000
              "2023-11-14T22:13:20.000Z" W.initial (JStr "AAPL") JUndef ∅)).
Proof.
  split; [reflexivity|]. intros [H _]. discriminate H.
Qed.

(* ===================================================================== *)
(** * The selection guard of the child operations *)
(* ===================================================================== *)

(** C10.  With [current] null, [addStock], [removeStock] and
    [addTransaction] return a failure envelope carrying a message; their
    log is empty, so no remote call was issued and no state setter was
    called, and localStorage is untouched. *)
Theorem child_operations_need_a_selection
  (remoteW : W.call -> completion envelope) (now : Z) (iso : string)
  (remoteP : P.call -> completion envelope)
  (stW : W.state) (stP : P.state)
  (symbol notes itemId transactionData : jval) (ls : storage) :
  W.currentWatchlist stW = JNull ->
  P.currentPortfolio stP = JNull ->
  W.addStock remoteW now iso stW symbol notes ls
    = mkResult
        (Normal (Failure (JObj [("message", JStr "No watchlist selected")])))
        ls []
  /\ W.removeStock remoteW stW itemId ls
    = mkResult
        (Normal (Failure (JObj [("message", JStr "No watchlist selected")])))
        ls []
  /\ P.addTransaction remoteP stP transactionData ls
    = mkResult
        (Normal (Failure (JObj [("message", JStr "No portfolio selected")])))
        ls [].
Proof.
  intros HW HP. unfold W.addStock, W.removeStock, P.addTransaction.
  rewrite HW, HP. repeat split.
Qed.

Lemma child_operations_need_a_selection_witness :
  W.calls (log (W.removeStock (fun _ => Normal accepted) W.initial
                  (JStr "c1") stored)) = [] /\
  W.run_log W.initial
    (log (W.removeStock (fun _ => Normal accepted) W.initial
            (JStr "c1") stored)) = Normal W.initial /\
  P.calls (log (P.addTransaction (fun _ => Normal accepted) P.initial
                  buyAAPL stored)) = [].
Proof.
  destruct (child_operations_need_a_selection
              (fun _ => Normal accepted) 1700000000000
              "2023-11-14T22:13:20.000Z" (fun _ => Normal accepted)
              W.initial P.initial (JStr "AAPL") JUndef (JStr "c1") buyAAPL
              stored eq_refl eq_refl) as (_ & HR & HT).
  rewrite HR, HT. repeat split.
Defined.

(* ===================================================================== *)
(** * The remote resource client *)
(* ===================================================================== *)

(** C7.  A server error whose body announces JSON and is not JSON: the
    promise [request] returns rejects with the parser's error instead of
    resolving to a failure envelope. *)
Theorem request_rejects_on_unreadable_error_body :
  res (A.request (A.Responded garbled_500) signed_in)
  = Throw (SyntaxError "Unexpected token < in JSON at position 0").
Proof. vm_compute. reflexivity. Qed.

(** Apart from that case [request] always resolves to an envelope:
    whatever [fetch] does, provided an error response that announces JSON
    carries a body that parses to something with properties. *)
Lemma request_resolves_otherwise net ls :
  (forall r, net = A.Responded r -> A.ok r = false -> A.is_json r = true ->
     exists data, A.json r = Normal data /\ nullish data = false) ->
  exists env, res (A.request net ls) = Normal env.
Proof.
  intros Hbody.
  change (post (A.request net) ls (fun r _ _ => exists env, r = Normal env)).
  assert (Hcatch : forall e s (l : list A.E),
    post (if String.eqb (exn_name e) "AbortError"
          then ret (ret A.timeout_error)
          else A.handleError (Some e) None) s
      (fun r' s2 _ =>
         match r' with
         | Normal a => post a s2 (fun r'0 _ _ => exists env, r'0 = Normal env)
         | Throw e0 => exists env : envelope, Throw e0 = Normal env
         end)).
  { intros e s _. unfold A.handleError.
    destruct (String.eqb (exn_name e) "AbortError"); run; eauto. }
  unfold A.request. run. destruct net as [e|r]; run.
  - apply (Hcatch e ls []).
  - destruct (A.ok r) eqn:Hok; cbn [negb]; run.
    + destruct (A.is_json r); run.
      * destruct (A.json r) as [data|e]; run; [eauto|].
        apply (Hcatch e ls []).
      * destruct (A.text r) as [t|e]; run; [eauto|].
        apply (Hcatch e ls []).
    + unfold A.handleError. run. destruct (A.is_json r) eqn:Hj; run.
      * destruct (Hbody r eq_refl Hok Hj) as (data & -> & Hdata).
        unfold A.parsed_error. run.
        destruct (get_defined data "message" Hdata) as [m ->]. run.
        destruct (get_defined data "error" Hdata) as [m' ->]. run.
        destruct (get_defined data "code" Hdata) as [c ->]. run.
        destruct (get_defined data "details" Hdata) as [d ->]. run. eauto.
      * unfold A.setAuthToken. cbn [truthy].
        destruct (A.status r =? 401)%Z; run; eauto.
Qed.

(** C8.  A 401 whose body is JSON: the stored token is still there after
    the request. *)
Theorem unauthorized_json_answer_keeps_the_token :
  store (A.request (A.Responded json_401) signed_in) !! A.AUTH_TOKEN
  = Some (Raw "token-abc").
Proof. vm_compute. reflexivity. Qed.

(** The token is cleared only by a 401 that does not announce JSON. *)
Lemma unauthorized_plain_answer_clears_the_token r ls :
  A.status r = 401%Z -> A.is_json r = false ->
  store (A.request (A.Responded r) ls) = delete A.AUTH_TOKEN ls.
Proof.
  intros Hs Hj.
  change (post (A.request (A.Responded r)) ls
            (fun _ s _ => s = delete A.AUTH_TOKEN ls)).
  unfold A.request. run. unfold A.ok. rewrite Hs. cbn [Z.leb Z.compare Pos.compare Pos.compare_cont andb negb].
  run. unfold A.handleError. run. rewrite Hj. run. rewrite Hs.
  cbn [Z.eqb Pos.eqb]. unfold A.setAuthToken. cbn [truthy]. run.
  reflexivity.
Qed.

Lemma unauthorized_json_answer_leaves_storage r ls :
  A.status r = 401%Z -> A.is_json r = true ->
  store (A.request (A.Responded r) ls) = ls.
Proof.
  intros Hs Hj.
  change (post (A.request (A.Responded r)) ls (fun _ s _ => s = ls)).
  unfold A.request. run. unfold A.ok. rewrite Hs. cbn [Z.leb Z.compare Pos.compare Pos.compare_cont andb negb].
  run. unfold A.handleError. run. rewrite Hj. run.
  destruct (A.json r) as [data|e]; run; [|reflexivity].
  unfold A.parsed_error. run.
  repeat (match goal with
          | |- match match get ?v ?k with _ => _ end with _ => _ end =>
              destruct (get v k); run
          | |- match get ?v ?k with _ => _ end => destruct (get v k); run
          end); reflexivity.
Qed.

(* ===================================================================== *)
(** * Further properties: selecting without the remote *)
(* ===================================================================== *)


Lemma field_is_readable k id x :
  nullish x = false -> exists b, field_is k id x = Normal b.
Proof.
  intros H. unfold field_is. destruct (get_defined x k H) as [v ->]. eauto.
Qed.

(** On a readable list [filter] and [find] are the list functions. *)
Lemma filter_list_readable k id l :
  readable l ->
  filter_list (field_is k id) l =
  Normal (List.filter (fun x => holds (field_is k id x)) l).
Proof.
  induction 1 as [|x l Hx _ IH]; cbn [filter_list List.filter];
    [reflexivity|].
  destruct (field_is_readable k id x Hx) as [b ->]. rewrite IH.
  cbn [holds]. destruct b; reflexivity.
Qed.

Lemma find_list_readable k id l :
  readable l ->
  find_list (field_is k id) l =
  Normal (match List.find (fun x => holds (field_is k id x)) l with
          | Some x => x
          | None => JUndef
          end).
Proof.
  induction 1 as [|x l Hx _ IH]; cbn [find_list List.find]; [reflexivity|].
  destruct (field_is_readable k id x Hx) as [b ->]. cbn [holds].
  destruct b; [reflexivity | exact IH].
Qed.


Import Cases.


(** X2.  [selectPortfolio] whose remote request fails, with a complete
    snapshot in localStorage (lists of portfolios, holdings and
    transactions).  If the snapshot has a portfolio with the requested id,
    it becomes [current], the holdings and the transactions become those of
    the snapshot that belong to it, and [error] stays [null].  If it has
    none, nothing is selected and [error] is the error of the failure
    envelope, or the text [Portfolio not found] when the request
    rejected. *)
Theorem offline_portfolio_select_reads_the_snapshot
  (remote : P.call -> completion envelope) (id snap : jval)
  (ps hs ts : list jval) (st : P.state) (ls : storage) :
  failed (remote (P.GetById id)) = true ->
  ls !! P.MOCK_KEY = Some (Json snap) ->
  get snap "portfolios" = Normal (JArr ps) ->
  get snap "holdings" = Normal (JArr hs) ->
  get snap "transactions" = Normal (JArr ts) ->
  readable ps -> readable hs -> readable ts ->
  let found := match List.find (fun p => holds (field_is "id" id p)) ps with
               | Some p => p
               | None => JUndef
               end in
  P.run_log st (log (P.selectPortfolio remote id ls)) =
  if truthy found then
    P.mkState (P.portfolios st) found
      (JArr (List.filter (fun h => holds (field_is "portfolioId" id h)) hs))
      (JArr (List.filter (fun t => holds (field_is "portfolioId" id t)) ts))
      (P.performance st) false JNull
  else
    P.mkState (P.portfolios st) (P.currentPortfolio st) (P.holdings st)
      (P.transactions st) (P.performance st) false
      match remote (P.GetById id) with
      | Normal r => env_error r
      | Throw _ => JStr "Portfolio not found"
      end.
Proof.
  intros Hfail Hls Hps Hhs Hts Hrp Hrh Hrt found.
  assert (Hsnap : truthy snap = true)
    by (eapply truthy_field_truthy; [exact Hps | reflexivity]).
  change (post (P.selectPortfolio remote id) ls (fun _ _ l =>
    P.run_log st l =
    if truthy found then
      P.mkState (P.portfolios st) found
        (JArr (List.filter (fun h => holds (field_is "portfolioId" id h)) hs))
        (JArr (List.filter (fun t => holds (field_is "portfolioId" id t)) ts))
        (P.performance st) false JNull
    else
      P.mkState (P.portfolios st) (P.currentPortfolio st) (P.holdings st)
        (P.transactions st) (P.performance st) false
        match remote (P.GetById id) with
        | Normal r => env_error r
        | Throw _ => JStr "Portfolio not found"
        end)).
  unfold P.selectPortfolio, P.await, P.snapshot_complete, P.cached_portfolios,
    P.find_portfolio, P.use_snapshot.
  destruct (remote _) as [[d sc|err]|e]; [discriminate Hfail | |].
  - run. apply P_post_safeParse; rewrite ?after_call_P. rewrite Hls, Hsnap. run.
    rewrite Hps. cbn [truthy]. run. rewrite Hhs. cbn [truthy]. run.
    rewrite Hts. cbn [truthy]. run. cbn [js_find].
    rewrite (find_list_readable _ _ _ Hrp). fold found. run.
    destruct (truthy found); run.
    + cbn [js_filter]. rewrite (filter_list_readable _ _ _ Hrh). run.
      cbn [js_filter]. rewrite (filter_list_readable _ _ _ Hrt). run.
      reflexivity.
    + reflexivity.
  - run. apply P_post_safeParse; rewrite ?after_call_P. rewrite Hls, Hsnap. run.
    rewrite Hps. cbn [truthy]. run. rewrite Hhs. cbn [truthy]. run.
    rewrite Hts. cbn [truthy]. run. cbn [js_find].
    rewrite (find_list_readable _ _ _ Hrp). fold found. run.
    destruct (truthy found); run.
    + cbn [js_filter]. rewrite (filter_list_readable _ _ _ Hrh). run.
      cbn [js_filter]. rewrite (filter_list_readable _ _ _ Hrt). run.
      reflexivity.
    + reflexivity.
Qed.

Lemma offline_portfolio_select_reads_the_snapshot_witness :
  P.run_log unselectedP
    (log (P.selectPortfolio (fun _ => Throw offline) (JStr "p1") stored_both))
  = P.mkState (JArr [pGrowth]) pGrowth (JArr [hAAPL]) (JArr [tBuy]) JNull
              false JNull
  /\
  P.run_log unselectedP
    (log (P.selectPortfolio (fun _ => Throw offline) (JStr "p9") stored_both))
  = P.mkState (JArr [pGrowth]) JNull (JArr []) (JArr []) JNull false
              (JStr "Portfolio not found").
Proof.
  assert (R : forall l, Forall (fun x => nullish x = false) l -> readable l)
    by (intros l H; exact H).
  split.
  - refine (offline_portfolio_select_reads_the_snapshot
              (fun _ => Throw offline) (JStr "p1") portfolio_snapshot
              [pGrowth; pIncome] [hAAPL; hKO] [tBuy] unselectedP stored_both
              eq_refl eq_refl eq_refl eq_refl eq_refl _ _ _);
      repeat constructor.
  - refine (offline_portfolio_select_reads_the_snapshot
              (fun _ => Throw offline) (JStr "p9") portfolio_snapshot
              [pGrowth; pIncome] [hAAPL; hKO] [tBuy] unselectedP stored_both
              eq_refl eq_refl eq_refl eq_refl eq_refl _ _ _);
      repeat constructor.
Defined.

(* ===================================================================== *)
(** * What the providers do to localStorage *)
(* ===================================================================== *)

Section FrameRules.
Context {E : Type}.
Variable key : string.

Lemma store_bind {A B} (m : M E A) (k : A -> M E B) s :
  store (bind m k s) =
  match res (m s) with
  | Normal a => store (k a (store (m s)))
  | Throw _ => store (m s)
  end.
Proof. unfold bind. cbv zeta. destruct (res (m s)); reflexivity. Qed.

Lemma store_try_catch {A} (body : M E A) handler s :
  store (try_catch body handler s) =
  match res (body s) with
  | Normal _ => store (body s)
  | Throw e => store (handler e (store (body s)))
  end.
Proof. unfold try_catch. cbv zeta. destruct (res (body s)); reflexivity. Qed.

Lemma store_try_finally {A} (body : M E A) fin s :
  store (try_finally body fin s) = store (fin (store (body s))).
Proof. unfold try_finally. cbv zeta. destruct (res (fin _)); reflexivity. Qed.

Variable refused : E -> bool.

Lemma scrubbed_refl s : scrubbed key refused s s [].
Proof. intros k. left. reflexivity. Qed.

(** Two steps that only scrub only scrub. *)
Lemma scrubbed_trans s s1 s2 l1 l2 :
  scrubbed key refused s s1 l1 -> scrubbed key refused s1 s2 l2 ->
  scrubbed key refused s s2 (l1 ++ l2).
Proof.
  intros H1 H2 k.
  destruct (H2 k) as [E2|[E2 J2]].
  - destruct (H1 k) as [E1|[E1 J1]]; [left; congruence|].
    right. split; [congruence|].
    destruct J1 as [[-> J1]|J1]; [left | right; exact J1].
    split; [reflexivity|]. apply Exists_app. left. exact J1.
  - right. split; [exact E2|].
    destruct J2 as [[-> J2]|[-> (t & Ht & Hne)]].
    + left. split; [reflexivity|]. apply Exists_app. right. exact J2.
    + right. split; [reflexivity|]. exists t. split; [|exact Hne].
      destruct (H1 key) as [E1|[E1 _]]; congruence.
Qed.

Lemma scrubbed_nil_r s s' l :
  scrubbed key refused s s' l -> scrubbed key refused s s' (l ++ []).
Proof. rewrite app_nil_r. exact (fun H => H). Qed.

Lemma scrubs_ret {A} (a : A) : only_scrubs (E := E) key refused (ret a).
Proof. intros s. apply scrubbed_refl. Qed.

Lemma scrubs_throw {A} e : only_scrubs key refused (@throw E A e).
Proof. intros s. apply scrubbed_refl. Qed.

Lemma scrubs_lift {A} (c : completion A) :
  only_scrubs (E := E) key refused (lift c).
Proof. intros s. apply scrubbed_refl. Qed.

Lemma scrubs_emit (e : E) : only_scrubs key refused (emit e).
Proof. intros s k. left. reflexivity. Qed.

Lemma scrubs_bind {A B} (m : M E A) (k : A -> M E B) :
  only_scrubs key refused m -> (forall a, only_scrubs key refused (k a)) ->
  only_scrubs key refused (bind m k).
Proof.
  intros Hm Hk s. rewrite store_bind, log_bind.
  destruct (res (m s)) as [a|e]; [|apply scrubbed_nil_r, Hm].
  exact (scrubbed_trans _ _ _ _ _ (Hm s) (Hk a _)).
Qed.

Lemma scrubs_try_catch {A} (body : M E A) handler :
  only_scrubs key refused body ->
  (forall e, only_scrubs key refused (handler e)) ->
  only_scrubs key refused (try_catch body handler).
Proof.
  intros Hb Hh s. rewrite store_try_catch, log_try_catch.
  destruct (res (body s)) as [a|e]; [apply scrubbed_nil_r, Hb|].
  exact (scrubbed_trans _ _ _ _ _ (Hb s) (Hh e _)).
Qed.

Lemma scrubs_try_finally {A} (body : M E A) fin :
  only_scrubs key refused body -> only_scrubs key refused fin ->
  only_scrubs key refused (try_finally body fin).
Proof.
  intros Hb Hf s. rewrite store_try_finally, log_try_finally.
  exact (scrubbed_trans _ _ _ _ _ (Hb s) (Hf _)).
Qed.

End FrameRules.

Lemma W_safeParse_scrubs refused :
  only_scrubs W.MOCK_KEY refused W.safeParseMockData.
Proof.
  intros s k. rewrite W_safeParse_eq.
  destruct (s !! W.MOCK_KEY) as [[t|v]|] eqn:Hs; try (left; reflexivity).
  destruct (String.eqb t "") eqn:Ht; [left; reflexivity|]. cbn [store].
  destruct (decide (k = W.MOCK_KEY)) as [->|Hk].
  - right. split; [apply lookup_delete_eq|]. right.
    split; [reflexivity|]. exists t. auto.
  - left. apply lookup_delete_ne. congruence.
Qed.

Lemma P_safeParse_scrubs refused :
  only_scrubs P.MOCK_KEY refused P.safeParseMockData.
Proof.
  intros s k. rewrite P_safeParse_eq.
  destruct (s !! P.MOCK_KEY) as [[t|v]|] eqn:Hs; try (left; reflexivity).
  destruct (String.eqb t "") eqn:Ht; [left; reflexivity|]. cbn [store].
  destruct (decide (k = P.MOCK_KEY)) as [->|Hk].
  - right. split; [apply lookup_delete_eq|]. right.
    split; [reflexivity|]. exists t. auto.
  - left. apply lookup_delete_ne. congruence.
Qed.

(** A service call removes at most the token, and then it was refused. *)
Lemma scrubbed_call {E} key (refused : E -> bool) o ev s :
  refused ev = A.clears_token o ->
  scrubbed key refused s (A.after_call o s) [ev].
Proof.
  intros Hev k. unfold A.after_call.
  destruct (A.clears_token o) eqn:Ho; [|left; reflexivity].
  destruct (decide (k = A.AUTH_TOKEN)) as [->|Hk].
  - right. split; [apply lookup_delete_eq|]. left.
    split; [reflexivity|]. apply Exists_cons_hd. exact Hev.
  - left. apply lookup_delete_ne. congruence.
Qed.

Lemma W_await_scrubs remote c :
  only_scrubs W.MOCK_KEY (refusedW remote) (W.await remote c).
Proof.
  intros s. unfold W.await, bind, emit. cbn [res store log].
  rewrite settled_eq. cbn [res store log]. rewrite app_nil_r.
  apply scrubbed_call. reflexivity.
Qed.

Lemma P_await_scrubs remote c :
  only_scrubs P.MOCK_KEY (refusedP remote) (P.await remote c).
Proof.
  intros s. unfold P.await, bind, emit. cbn [res store log].
  rewrite settled_eq. cbn [res store log]. rewrite app_nil_r.
  apply scrubbed_call. reflexivity.
Qed.

Ltac scrubs_step :=
  first
  [ apply W_safeParse_scrubs | apply P_safeParse_scrubs
  | apply W_await_scrubs | apply P_await_scrubs
  | apply scrubs_ret | apply scrubs_throw | apply scrubs_lift
  | apply scrubs_emit
  | apply scrubs_bind; [| intros ?]
  | apply scrubs_try_catch; [| intros ?]
  | apply scrubs_try_finally
  | match goal with
    | |- only_scrubs _ _ (if ?b then _ else _) => destruct b
    | |- only_scrubs _ _ (match ?x with _ => _ end) => destruct x
    end ].

Lemma W_fetch_scrubs remote :
  only_scrubs W.MOCK_KEY (refusedW remote) (W.fetchWatchlists remote).
Proof. unfold W.fetchWatchlists. repeat scrubs_step. Qed.

Lemma W_select_scrubs remote id :
  only_scrubs W.MOCK_KEY (refusedW remote) (W.selectWatchlist remote id).
Proof. unfold W.selectWatchlist. repeat scrubs_step. Qed.

Lemma P_fetch_scrubs remote :
  only_scrubs P.MOCK_KEY (refusedP remote) (P.fetchPortfolios remote).
Proof.
  unfold P.fetchPortfolios, P.cached_portfolios. repeat scrubs_step.
Qed.

Lemma P_select_scrubs remote id :
  only_scrubs P.MOCK_KEY (refusedP remote) (P.selectPortfolio remote id).
Proof.
  unfold P.selectPortfolio, P.snapshot_complete, P.find_portfolio,
    P.use_snapshot, P.cached_portfolios.
  repeat scrubs_step.
Qed.

Lemma P_fetchTransactions_scrubs remote st o :
  only_scrubs P.MOCK_KEY (refusedP remote) (P.fetchTransactions remote st o).
Proof. unfold P.fetchTransactions. repeat scrubs_step. Qed.

Ltac scrubs :=
  repeat first
  [ lazymatch goal with
    | |- only_scrubs _ _ (W.fetchWatchlists _) => apply W_fetch_scrubs
    | |- only_scrubs _ _ (W.selectWatchlist _ _) => apply W_select_scrubs
    | |- only_scrubs _ _ (P.fetchPortfolios _) => apply P_fetch_scrubs
    | |- only_scrubs _ _ (P.selectPortfolio _ _) => apply P_select_scrubs
    | |- only_scrubs _ _ (P.fetchTransactions _ _ _) =>
        apply P_fetchTransactions_scrubs
    end
  | scrubs_step ].

Lemma W_create_rendered_scrubs remote st data :
  only_scrubs W.MOCK_KEY (refusedW remote)
    (W.createWatchlist_rendered remote st data).
Proof.
  assert (Hcreate : only_scrubs W.MOCK_KEY (refusedW remote)
                      (W.createWatchlist remote data))
    by (unfold W.createWatchlist, W.report; scrubs).
  assert (Hselect : forall ids,
    only_scrubs W.MOCK_KEY (refusedW remote) (W.select_each remote ids)).
  { induction ids as [|id ids IH]; cbn [W.select_each]; [scrubs|].
    apply scrubs_bind; [|intros _; exact IH]. scrubs. }
  intros s. unfold W.createWatchlist_rendered. cbv zeta.
  destruct (W.started st (log (W.createWatchlist remote data s)))
    as [ids|e]; [|apply Hcreate].
  cbn [store log]. exact (scrubbed_trans _ _ _ _ _ _ _ (Hcreate s) (Hselect ids _)).
Qed.

(** X3.  Whatever the service answers and whatever localStorage holds, no
    operation of the two providers writes to localStorage (the
    selection a create starts when React runs its updater included):
    after a run every item is as it was or is gone.  The only items that can be gone
    are the stored token, and then a service call of the run was refused
    with a 401 that had no JSON body, and the snapshot item of the
    provider ([mockWatchlistData], [mockPortfolioData]), and then it was
    there, was not empty and did not parse. *)
Theorem provider_operations_only_scrub_their_snapshot
  (remoteW : W.call -> completion envelope) (now : Z) (iso : string)
  (remoteP : P.call -> completion envelope)
  (stW : W.state) (stP : P.state) (a b : jval) :
  let scrubsW {A} (m : M W.event A) :=
    only_scrubs W.MOCK_KEY (refusedW remoteW) m in
  let scrubsP {A} (m : M P.event A) :=
    only_scrubs P.MOCK_KEY (refusedP remoteP) m in
  (scrubsW (W.fetchWatchlists remoteW) /\
   scrubsW (W.selectWatchlist remoteW a) /\
   scrubsW (W.addStock remoteW now iso stW a b) /\
   scrubsW (W.removeStock remoteW stW a) /\
   scrubsW (W.refreshItems remoteW stW) /\
   scrubsW (W.createWatchlist remoteW a) /\
   scrubsW (W.createWatchlist_rendered remoteW stW a) /\
   scrubsW (W.updateWatchlist remoteW stW a b) /\
   scrubsW (W.deleteWatchlist remoteW stW a) /\
   scrubsW (W.autoSelect remoteW stW)) /\
  (scrubsP (P.fetchPortfolios remoteP) /\
   scrubsP (P.selectPortfolio remoteP a) /\
   scrubsP (P.fetchTransactions remoteP stP a) /\
   scrubsP (P.addTransaction remoteP stP a) /\
   scrubsP (P.refreshHoldings remoteP stP) /\
   scrubsP (P.autoSelect remoteP stP)).
Proof.
  intros scrubsW scrubsP. subst scrubsW scrubsP. cbv beta. split.
  - split; [scrubs|]. split; [scrubs|].
    split; [unfold W.addStock; scrubs|].
    split; [unfold W.removeStock; scrubs|].
    split; [unfold W.refreshItems; scrubs|].
    split; [unfold W.createWatchlist, W.report; scrubs|].
    split; [apply W_create_rendered_scrubs|].
    split; [unfold W.updateWatchlist, W.report; scrubs|].
    split; [unfold W.deleteWatchlist, W.report; scrubs|].
    unfold W.autoSelect; scrubs.
  - split; [scrubs|]. split; [scrubs|]. split; [scrubs|].
    split; [unfold P.addTransaction; scrubs|].
    split; [unfold P.refreshHoldings; scrubs|].
    unfold P.autoSelect; scrubs.
Qed.

(* ===================================================================== *)
(** * Which operations can reject *)
(* ===================================================================== *)

Ltac never_throws :=
  repeat first
  [ lazymatch goal with
    | |- total (W.fetchWatchlists _) => apply W_fetch_total
    | |- total (P.fetchPortfolios _) => apply P_fetch_total
    | |- total W.safeParseMockData => apply W_safeParse_total
    | |- total P.safeParseMockData => apply P_safeParse_total
    end
  | total_step ].

(** X4.  The operations that wrap their work in [try]/[catch] with a
    handler that cannot fail never reject, whatever the service does
    (answer, refuse or reject) and whatever localStorage holds:
    [fetchWatchlists], [createWatchlist], [updateWatchlist],
    [deleteWatchlist] and [fetchPortfolios] always return. *)
Theorem guarded_operations_never_reject
  (remoteW : W.call -> completion envelope)
  (remoteP : P.call -> completion envelope)
  (st : W.state) (id data : jval) :
  total (W.fetchWatchlists remoteW) /\
  total (W.createWatchlist remoteW data) /\
  total (W.updateWatchlist remoteW st id data) /\
  total (W.deleteWatchlist remoteW st id) /\
  total (P.fetchPortfolios remoteP).
Proof.
  split; [never_throws|].
  split; [unfold W.createWatchlist, W.report; never_throws|].
  split; [unfold W.updateWatchlist, W.report; never_throws|].
  split; [unfold W.deleteWatchlist, W.report; never_throws|].
  never_throws.
Qed.

(** X5.  [removeStock], [addTransaction] and [fetchTransactions] await the
    service outside of any [try]: when the service call rejects (the
    transport is down), the operation rejects with the same error, after
    [setLoading(true)] and before anything else, so that [loading] is left
    [true] and [error] is left as it was. *)
Theorem unguarded_operations_reject_with_loading_set
  (remoteW : W.call -> completion envelope)
  (remoteP : P.call -> completion envelope)
  (stW : W.state) (stP : P.state) (itemId tx options : jval)
  (e : exn) (ls : storage) :
  truthy (W.currentWatchlist stW) = true ->
  truthy (P.currentPortfolio stP) = true ->
  (forall c, remoteW c = Throw e) ->
  (forall c, remoteP c = Throw e) ->
  (res (W.removeStock remoteW stW itemId ls) = Throw e /\
   W.run_log stW (log (W.removeStock remoteW stW itemId ls)) =
   Normal (W.mkState (W.watchlists stW) (W.currentWatchlist stW)
                     (W.items stW) true (W.error stW))) /\
  (res (P.addTransaction remoteP stP tx ls) = Throw e /\
   P.run_log stP (log (P.addTransaction remoteP stP tx ls)) =
   P.mkState (P.portfolios stP) (P.currentPortfolio stP) (P.holdings stP)
             (P.transactions stP) (P.performance stP) true (P.error stP)) /\
  (res (P.fetchTransactions remoteP stP options ls) = Throw e /\
   P.run_log stP (log (P.fetchTransactions remoteP stP options ls)) =
   P.mkState (P.portfolios stP) (P.currentPortfolio stP) (P.holdings stP)
             (P.transactions stP) (P.performance stP) true (P.error stP)).
Proof.
  intros HW HP HrW HrP.
  destruct (get_defined _ "id" (truthy_not_nullish _ HW)) as [idW HidW].
  destruct (get_defined _ "id" (truthy_not_nullish _ HP)) as [idP HidP].
  split; [|split].
  - change (post (W.removeStock remoteW stW itemId) ls (fun r _ l =>
      r = Throw e /\
      W.run_log stW l =
      Normal (W.mkState (W.watchlists stW) (W.currentWatchlist stW)
                        (W.items stW) true (W.error stW)))).
    unfold W.removeStock, W.await. rewrite HW. cbn [negb]. run.
    rewrite HidW. run. rewrite HrW. run. split; reflexivity.
  - change (post (P.addTransaction remoteP stP tx) ls (fun r _ l =>
      r = Throw e /\
      P.run_log stP l =
      P.mkState (P.portfolios stP) (P.currentPortfolio stP) (P.holdings stP)
        (P.transactions stP) (P.performance stP) true (P.error stP))).
    unfold P.addTransaction, P.await. rewrite HP. cbn [negb]. run.
    rewrite HidP. run. rewrite HrP. run. split; reflexivity.
  - change (post (P.fetchTransactions remoteP stP options) ls (fun r _ l =>
      r = Throw e /\
      P.run_log stP l =
      P.mkState (P.portfolios stP) (P.currentPortfolio stP) (P.holdings stP)
        (P.transactions stP) (P.performance stP) true (P.error stP))).
    unfold P.fetchTransactions, P.await. rewrite HP. cbn [negb]. run.
    rewrite HidP. run. rewrite HrP. run. split; reflexivity.
Qed.

Lemma unguarded_operations_reject_with_loading_set_witness :
  res (W.removeStock (fun _ => Throw offline) selectedW (JStr "c1") stored)
  = Throw offline /\
  P.loading
    (P.run_log selectedP
       (log (P.addTransaction (fun _ => Throw offline) selectedP buyAAPL
               stored))) = true.
Proof.
  destruct (unguarded_operations_reject_with_loading_set
              (fun _ => Throw offline) (fun _ => Throw offline)
              selectedW selectedP (JStr "c1") buyAAPL JUndef offline stored
              eq_refl eq_refl (fun _ => eq_refl) (fun _ => eq_refl))
    as [[H1 _] [[_ H2] _]].
  split; [exact H1 | rewrite H2; reflexivity].
Defined.

(* ===================================================================== *)
(** * Creating, updating and deleting a watchlist *)
(* ===================================================================== *)

(** X6.  A create, update or delete of a watchlist whose request fails
    (a failure envelope or a rejection) has no fallback: it issues no
    further request, stores the failure in [error], resets [loading]
    and returns a failure envelope.  localStorage is as the service call
    left it: without the token when the request was refused with a 401
    that had no JSON body, and untouched otherwise. *)
Theorem failed_mutation_only_reports
  (remote : W.call -> completion envelope) (st : W.state)
  (id data : jval) (ls : storage) :
  failed (remote (W.Create data)) = true ->
  failed (remote (W.Update id data)) = true ->
  failed (remote (W.Delete id)) = true ->
  W.createWatchlist remote data ls =
    mkResult (Normal (reported (remote (W.Create data))))
      (A.after_call (remote (W.Create data)) ls)
      [W.SetLoading true; W.Remote (W.Create data);
       W.SetError (reported_error (remote (W.Create data)));
       W.SetLoading false] /\
  W.updateWatchlist remote st id data ls =
    mkResult (Normal (reported (remote (W.Update id data))))
      (A.after_call (remote (W.Update id data)) ls)
      [W.SetLoading true; W.Remote (W.Update id data);
       W.SetError (reported_error (remote (W.Update id data)));
       W.SetLoading false] /\
  W.deleteWatchlist remote st id ls =
    mkResult (Normal (reported (remote (W.Delete id))))
      (A.after_call (remote (W.Delete id)) ls)
      [W.SetLoading true; W.Remote (W.Delete id);
       W.SetError (reported_error (remote (W.Delete id)));
       W.SetLoading false].
Proof.
  intros Hc Hu Hd. split; [|split]; apply run_eq.
  - unfold W.createWatchlist, W.report, W.await.
    destruct (remote (W.Create data)) as [[d sc|err]|e];
      [discriminate Hc | |]; run; reflexivity.
  - unfold W.updateWatchlist, W.report, W.await.
    destruct (remote (W.Update id data)) as [[d sc|err]|e];
      [discriminate Hu | |]; run; reflexivity.
  - unfold W.deleteWatchlist, W.report, W.await.
    destruct (remote (W.Delete id)) as [[d sc|err]|e];
      [discriminate Hd | |]; run; reflexivity.
Qed.

Lemma failed_mutation_only_reports_witness :
  W.run_log selectedX
    (log (W.deleteWatchlist (fun _ => Normal not_found) selectedX (JStr "x")
            stored))
  = Normal (W.mkState (JArr [wX; wY]) wX (JArr []) false (env_error not_found)).
Proof.
  destruct (failed_mutation_only_reports (fun _ => Normal not_found) selectedX
              (JStr "x") JNull stored eq_refl eq_refl eq_refl)
    as (_ & _ & H).
  rewrite H. reflexivity.
Defined.

(** [updateWatchlist] once the remote has updated: the log is the
    re-fetch, then the selection is replaced if it was the updated one. *)
Lemma W_update_success_log remote st id data ls d sc cur :
  remote (W.Update id data) = Normal (Success d sc) ->
  get_opt (W.currentWatchlist st) "id" = Normal cur ->
  W.updateWatchlist remote st id data ls =
  mkResult (Normal (Success d sc)) (store (W.fetchWatchlists remote ls))
    ([W.SetLoading true; W.Remote (W.Update id data)]
     ++ log (W.fetchWatchlists remote ls)
     ++ (if strict_eq cur id then [W.SetCurrentWatchlist d] else [])
     ++ [W.SetLoading false]).
Proof.
  intros Hr Hcur. apply run_eq.
  unfold W.updateWatchlist, W.await.
  run. rewrite Hr. run.
  apply post_total; [apply W_fetch_total | intros []].
  run. rewrite Hcur. destruct (strict_eq cur id); run;
    cbn [app]; rewrite <- ?app_assoc; reflexivity.
Qed.

(** X7.  When the remote update succeeds, [updateWatchlist] returns the
    response, re-fetches the collection and then, if the updated id is
    [current.id] as the calling render saw it, replaces [current] by the
    payload of the response; otherwise it leaves [current] alone (the
    id being a primitive, as ids are).  The
    children are never touched, and the collection afterwards is the one
    the re-fetch produced. *)
Theorem update_replaces_the_selection_it_updated
  (remote : W.call -> completion envelope) (st : W.state)
  (id data d sc cur : jval) (ls : storage) :
  primitive id = true ->
  remote (W.Update id data) = Normal (Success d sc) ->
  get_opt (W.currentWatchlist st) "id" = Normal cur ->
  exists fetched st',
    res (W.updateWatchlist remote st id data ls) = Normal (Success d sc) /\
    W.run_log st (log (W.fetchWatchlists remote ls)) = Normal fetched /\
    W.run_log st (log (W.updateWatchlist remote st id data ls)) = Normal st' /\
    W.watchlists st' = W.watchlists fetched /\
    W.items st' = W.items st /\
    W.currentWatchlist st' =
      (if strict_eq cur id then d else W.currentWatchlist st).
Proof.
  intros _ Hr Hcur.
  rewrite (W_update_success_log remote st id data ls d sc cur Hr Hcur).
  cbn [res log].
  pose proof (W_fetch_events remote ls) as Hev.
  destruct (W_run_collection_events st _ Hev) as (fetched & Hf & Hfc & Hfi).
  pose (st0 := W.mkState (W.watchlists st) (W.currentWatchlist st)
                         (W.items st) true (W.error st)).
  destruct (W_run_collection_events st0 _ Hev) as (mid & Hm & Hmc & Hmi).
  assert (Hw : W.watchlists mid = W.watchlists fetched).
  { eapply (W_run_collection_watchlists _ Hev st0 st); eauto. }
  exists fetched. cbn [app W.run_log W.apply_event]. fold st0.
  rewrite W_run_log_app, Hm.
  destruct (strict_eq cur id); cbn [app W.run_log W.apply_event];
    eexists; (split; [reflexivity|]); (split; [exact Hf|]);
    (split; [reflexivity|]);
    cbn [W.watchlists W.currentWatchlist W.items]; auto.
Qed.

Lemma update_replaces_the_selection_it_updated_witness :
  exists fetched st',
    res (W.updateWatchlist (fun _ => Normal accepted) selectedX (JStr "x")
           JNull stored) = Normal accepted /\
    W.run_log selectedX (log (W.fetchWatchlists (fun _ => Normal accepted) stored))
      = Normal fetched /\
    W.run_log selectedX
      (log (W.updateWatchlist (fun _ => Normal accepted) selectedX (JStr "x")
              JNull stored)) = Normal st' /\
    W.watchlists st' = W.watchlists fetched /\
    W.items st' = W.items selectedX /\
    W.currentWatchlist st' = env_data accepted.
Proof.
  exact (update_replaces_the_selection_it_updated
           (fun _ => Normal accepted) selectedX (JStr "x") JNull
           (env_data accepted) _ (JStr "x") stored eq_refl eq_refl eq_refl).
Defined.

(* ===================================================================== *)
(** * What a create starts *)
(* ===================================================================== *)

(** [createWatchlist] the service accepts, with a refreshed list. *)
Lemma W_create_success remote data ls d sc dl scl inner :
  remote (W.Create data) = Normal (Success d sc) ->
  remote W.GetAll = Normal (Success dl scl) ->
  get dl "watchlists" = Normal inner ->
  W.createWatchlist remote data ls =
  mkResult (Normal (Success d sc)) ls
    [W.SetLoading true; W.Remote (W.Create data);
     W.SetLoading true; W.SetError JNull; W.Remote W.GetAll;
     W.SetWatchlists (js_or inner (js_or dl (JArr [])));
     W.SetLoading false; W.VerifyThenSelect d; W.SetLoading false].
Proof.
  intros Hc Hl Hi. apply run_eq.
  unfold W.createWatchlist, W.fetchWatchlists, W.await.
  run. rewrite Hc. run. rewrite Hl. run. rewrite Hi. run. reflexivity.
Qed.

Lemma W_select_each_one remote id s :
  store (W.select_each remote [id] s) = store (W.selectWatchlist remote id s)
  /\ log (W.select_each remote [id] s) = log (W.selectWatchlist remote id s).
Proof.
  cbn [W.select_each].
  rewrite store_bind, log_bind, res_try_catch, store_try_catch,
    log_try_catch.
  destruct (res (W.selectWatchlist remote id s)); cbn [ret res store log];
    rewrite ?app_nil_r; split; reflexivity.
Qed.

(** When the refreshed list holds the id of the new watchlist, the
    updater [createWatchlist] queued starts its selection: the render
    that follows the create runs [selectWatchlist] on that id, after
    everything the create did itself. *)
Lemma created_watchlist_is_selected remote st data ls d sc dl scl inner id :
  remote (W.Create data) = Normal (Success d sc) ->
  remote W.GetAll = Normal (Success dl scl) ->
  get dl "watchlists" = Normal inner ->
  W.verify_select (js_or inner (js_or dl (JArr []))) d = Normal (Some id) ->
  W.createWatchlist_rendered remote st data ls =
  mkResult (Normal (Success d sc)) (store (W.selectWatchlist remote id ls))
    (log (W.createWatchlist remote data ls)
     ++ log (W.selectWatchlist remote id ls)).
Proof.
  intros Hc Hl Hi Hv. unfold W.createWatchlist_rendered.
  rewrite (W_create_success remote data ls d sc dl scl inner Hc Hl Hi).
  cbn [res store log W.started W.apply_event W.watchlists].
  rewrite Hv. cbv zeta.
  destruct (W_select_each_one remote id ls) as [-> ->]. reflexivity.
Qed.

(** When it does not, nothing is selected. *)
Lemma created_watchlist_is_not_selected remote st data ls d sc dl scl inner :
  remote (W.Create data) = Normal (Success d sc) ->
  remote W.GetAll = Normal (Success dl scl) ->
  get dl "watchlists" = Normal inner ->
  W.verify_select (js_or inner (js_or dl (JArr []))) d = Normal None ->
  W.createWatchlist_rendered remote st data ls =
  W.createWatchlist remote data ls.
Proof.
  intros Hc Hl Hi Hv. unfold W.createWatchlist_rendered.
  rewrite (W_create_success remote data ls d sc dl scl inner Hc Hl Hi).
  cbn [res store log W.started W.apply_event W.watchlists].
  rewrite Hv. cbn [W.select_each ret res store log]. reflexivity.
Qed.

(** A create whose service knows the new watchlist [z]: the requests are
    the create, the refresh and the selection of [z], and [z] ends up
    selected. *)
Lemma created_watchlist_ends_up_selected :
  let remote c :=
    match c with
    | W.Create _ => Normal (Success wZ (JInt 201))
    | W.GetAll => Normal (Success (JArr [wX; wZ]) (JInt 200))
    | W.GetWithItems _ =>
        Normal (Success (JObj [("watchlist", wZ); ("items", JArr [])])
                        (JInt 200))
    | _ => Normal not_found
    end in
  W.calls (log (W.createWatchlist_rendered remote selectedX wZ stored))
  = [W.Create wZ; W.GetAll; W.GetWithItems (JStr "z")] /\
  W.run_log selectedX
    (log (W.createWatchlist_rendered remote selectedX wZ stored))
  = Normal (W.mkState (JArr [wX; wZ]) wZ (JArr []) false JNull).
Proof. split; vm_compute; reflexivity. Qed.

(** [createPortfolio] starts the selection of the new portfolio without
    awaiting it: when it returns, [loading] was reset while the record of
    the new portfolio is still being requested, and the selection ends
    afterwards. *)
Lemma created_portfolio_is_selected_afterwards :
  let remote c :=
    match c with
    | PM.Create _ => Normal (Success pIncome (JInt 201))
    | PM.Base P.GetAll => Normal (Success (JArr [pGrowth; pIncome]) (JInt 200))
    | PM.Base (P.GetById _) => Normal (Success pIncome (JInt 200))
    | _ => Normal (Success (JArr []) (JInt 200))
    end in
  PM.loading_writes (log (PM.createPortfolio remote pIncome stored))
  = [true; true; false; true; false] /\
  PM.calls (log (PM.createPortfolio remote pIncome stored))
  = [PM.Create pIncome; PM.Base P.GetAll; PM.Base (P.GetById (JStr "p2"))] /\
  PM.calls (log (PM.createPortfolio_settled remote pIncome stored))
  = [PM.Create pIncome; PM.Base P.GetAll; PM.Base (P.GetById (JStr "p2"));
     PM.Base (P.GetHoldings (JStr "p2"))] /\
  P.currentPortfolio
    (PM.run_log selectedP
       (log (PM.createPortfolio_settled remote pIncome stored)))
  = pIncome.
Proof. repeat split; vm_compute; reflexivity. Qed.

(* ===================================================================== *)
(** * A success envelope without a body *)
(* ===================================================================== *)

Section Congruence.
Context {E : Type}.

Lemma bind_ext_k {A B} (m : M E A) (k k' : A -> M E B) s :
  (forall a s', k a s' = k' a s') -> bind m k s = bind m k' s.
Proof. intros H. unfold bind. cbv zeta. destruct (res (m s)); [rewrite H|]; reflexivity. Qed.

Lemma try_catch_ext_run {A} (body body' : M E A) h s :
  body s = body' s -> try_catch body h s = try_catch body' h s.
Proof. intros H. unfold try_catch. rewrite H. reflexivity. Qed.

Lemma try_finally_ext_run {A} (body body' : M E A) fin s :
  body s = body' s -> try_finally body fin s = try_finally body' fin s.
Proof. intros H. unfold try_finally. rewrite H. reflexivity. Qed.

End Congruence.

Lemma nullish_get d k : nullish d = true -> get d k = Throw (cannot_read d k).
Proof. destruct d; try discriminate; reflexivity. Qed.

(** X8.  A success envelope whose payload is [null] or [undefined] is not
    a success for the watchlist provider: reading the list out of the
    payload throws inside the [try], and from there on [fetchWatchlists]
    and [selectWatchlist] do exactly what they do when the service call
    rejects with that [TypeError] (cache fallback, [error] set to its
    message). *)
Theorem empty_success_body_is_handled_as_a_rejection
  (remote : W.call -> completion envelope) (id d sc d' sc' : jval)
  (ls : storage) :
  nullish d = true -> nullish d' = true ->
  remote W.GetAll = Normal (Success d sc) ->
  remote (W.GetWithItems id) = Normal (Success d' sc') ->
  W.fetchWatchlists remote ls =
    W.fetchWatchlists (fun _ => Throw (cannot_read d "watchlists")) ls /\
  W.selectWatchlist remote id ls =
    W.selectWatchlist (fun _ => Throw (cannot_read d' "watchlist")) id ls.
Proof.
  intros Hd Hd' Hall Hsel. split.
  - unfold W.fetchWatchlists.
    apply bind_ext_k; intros _ s1. apply bind_ext_k; intros _ s2.
    apply try_finally_ext_run, try_catch_ext_run.
    unfold W.await. apply run_eq. run. rewrite Hall. run.
    rewrite (nullish_get _ _ Hd). run.
    symmetry. apply run_eq. run. reflexivity.
  - unfold W.selectWatchlist.
    apply bind_ext_k; intros _ s1. apply bind_ext_k; intros _ s2.
    apply try_finally_ext_run, try_catch_ext_run.
    unfold W.await. apply run_eq. run. rewrite Hsel. run.
    rewrite (nullish_get _ _ Hd'). run.
    symmetry. apply run_eq. run. reflexivity.
Qed.

Lemma empty_success_body_is_handled_as_a_rejection_witness :
  W.run_log unselectedW
    (log (W.fetchWatchlists (fun _ => Normal (Success JNull (JInt 200)))
            stored))
  = Normal (W.mkState (JArr [wX; wY]) JNull (JArr []) false
              (JStr "Cannot read properties of null (reading 'watchlists')")).
Proof.
  destruct (empty_success_body_is_handled_as_a_rejection
              (fun _ => Normal (Success JNull (JInt 200))) (JStr "x")
              JNull (JInt 200) JNull (JInt 200) stored
              eq_refl eq_refl eq_refl eq_refl) as [H _].
  rewrite H. reflexivity.
Defined.

(* ===================================================================== *)
(** * Selections that go wrong half-way *)
(* ===================================================================== *)

(** X9.  With a watchlist selected, an [addStock] the service accepts
    re-selects that watchlist and returns the response of the service,
    whatever becomes of the re-selection: its events are the only ones
    between the request and the final [setLoading(false)], nothing is
    appended locally, and a re-selection that rejects is swallowed. *)
Theorem accepted_add_stock_reselects
  (remote : W.call -> completion envelope) (now : Z) (iso : string)
  (st : W.state) (symbol notes id d sc : jval) (ls : storage) :
  truthy (W.currentWatchlist st) = true ->
  get (W.currentWatchlist st) "id" = Normal id ->
  remote (W.AddStock id symbol
            match notes with JUndef => JStr "" | _ => notes end)
    = Normal (Success d sc) ->
  W.addStock remote now iso st symbol notes ls =
  mkResult (Normal (Success d sc)) (store (W.selectWatchlist remote id ls))
    ([W.SetLoading true;
      W.Remote (W.AddStock id symbol
                  match notes with JUndef => JStr "" | _ => notes end)]
     ++ log (W.selectWatchlist remote id ls) ++ [W.SetLoading false]).
Proof.
  intros Hc Hid Hr. apply run_eq. unfold W.addStock, W.await.
  rewrite Hc. cbn [negb]. run. rewrite Hid. run. rewrite Hr. run.
  unfold post at 1.
  destruct (res (W.selectWatchlist remote id ls)); run;
    cbn [app]; rewrite <- ?app_assoc, ?app_nil_r; reflexivity.
Qed.

Lemma accepted_add_stock_reselects_witness :
  res (W.addStock (fun _ => Normal accepted) 1700000000000
         "2023-11-14T22:13:20.000Z" selectedX (JStr "msft") JUndef stored)
  = Normal accepted /\
  W.calls (log (W.addStock (fun _ => Normal accepted) 1700000000000
                  "2023-11-14T22:13:20.000Z" selectedX (JStr "msft") JUndef
                  stored))
  = [W.AddStock (JStr "x") (JStr "msft") (JStr ""); W.GetWithItems (JStr "x")].
Proof.
  rewrite (accepted_add_stock_reselects (fun _ => Normal accepted)
             1700000000000 "2023-11-14T22:13:20.000Z" selectedX (JStr "msft")
             JUndef (JStr "x") (env_data accepted) (JInt 200) stored
             eq_refl eq_refl eq_refl).
  split; reflexivity.
Defined.

(** X10.  The [catch] clause of [selectWatchlist] trusts the snapshot: if
    the request fails and the snapshot's [watchlists] is truthy but not a
    list (and its [items] is truthy), calling [find] on it throws inside
    the handler.  The operation then rejects with an error named
    [TypeError] (its message is the engine's); the [finally] clause still
    resets [loading], nothing is selected and [error] stays [null]. *)
Theorem select_rejects_on_a_malformed_snapshot
  (remote : W.call -> completion envelope) (id snap ws its : jval)
  (st : W.state) (ls : storage) :
  failed (remote (W.GetWithItems id)) = true ->
  ls !! W.MOCK_KEY = Some (Json snap) ->
  get snap "watchlists" = Normal ws ->
  get snap "items" = Normal its ->
  truthy ws = true -> truthy its = true ->
  (forall l, ws <> JArr l) ->
  (exists e, res (W.selectWatchlist remote id ls) = Throw e /\
             exn_name e = "TypeError") /\
  W.run_log st (log (W.selectWatchlist remote id ls)) =
  Normal (W.mkState (W.watchlists st) (W.currentWatchlist st) (W.items st)
                    false JNull).
Proof.
  intros Hfail Hls Hws Hits Htw Hti Hnot.
  assert (Hsnap : truthy snap = true)
    by (eapply truthy_field_truthy; [exact Hws | exact Htw]).
  assert (Hfind : exists e,
    js_find "mockData.watchlists" (field_is "id" id) ws = Throw e /\
    exn_name e = "TypeError").
  { destruct ws; try discriminate Htw; try (eexists; split; reflexivity).
    destruct (Hnot elems eq_refl). }
  destruct Hfind as (e0 & Hfind & Hname).
  change (post (W.selectWatchlist remote id) ls (fun r _ l =>
    (exists e, r = Throw e /\ exn_name e = "TypeError") /\
    W.run_log st l =
    Normal (W.mkState (W.watchlists st) (W.currentWatchlist st) (W.items st)
                      false JNull))).
  unfold W.selectWatchlist, W.await, W.error_message.
  destruct (remote _) as [[d sc|err]|e]; [discriminate Hfail | |].
  - run. destruct (get_opt_defined err "message") as [m ->]. run.
    apply W_post_safeParse; rewrite ?after_call_W. rewrite Hls, Hsnap. run. rewrite Hws, Htw. run.
    rewrite Hits, Hti. run. rewrite Hfind. run. split; [eauto | reflexivity].
  - run. apply W_post_safeParse; rewrite ?after_call_W. rewrite Hls, Hsnap. run. rewrite Hws, Htw.
    run. rewrite Hits, Hti. run. rewrite Hfind. run. split; [eauto | reflexivity].
Qed.

Lemma select_rejects_on_a_malformed_snapshot_witness :
  exists e,
    res (W.selectWatchlist (fun _ => Throw offline) (JStr "x")
           stored_malformed) = Throw e /\
    exn_name e = "TypeError".
Proof.
  refine (proj1 (select_rejects_on_a_malformed_snapshot
            (fun _ => Throw offline) (JStr "x") malformed_snapshot
            (JStr "none") (JArr []) W.initial stored_malformed
            eq_refl eq_refl eq_refl eq_refl eq_refl eq_refl _)).
  intros l H. discriminate H.
Defined.

(** X11.  [selectPortfolio] when the record arrives but the holdings
    request is refused: the record stays selected, the refusal goes to
    [error], the holdings and the transactions keep their previous
    values, and no transactions are requested.  localStorage is as the
    refused call left it: without the token after a 401 that had no JSON
    body, and untouched otherwise. *)
Theorem select_portfolio_keeps_the_record_when_holdings_fail
  (remote : P.call -> completion envelope) (id d sc err : jval)
  (ls : storage) :
  remote (P.GetById id) = Normal (Success d sc) ->
  remote (P.GetHoldings id) = Normal (Failure err) ->
  P.selectPortfolio remote id ls =
  mkResult (Normal tt) (A.after_call (Normal (Failure err)) ls)
    [P.SetLoading true; P.SetError JNull; P.Remote (P.GetById id);
     P.SetCurrentPortfolio d; P.Remote (P.GetHoldings id); P.SetError err;
     P.SetLoading false].
Proof.
  intros Hr Hh. apply run_eq. unfold P.selectPortfolio, P.await.
  run. rewrite Hr. run. rewrite Hh. run. reflexivity.
Qed.

Lemma select_portfolio_keeps_the_record_when_holdings_fail_witness :
  P.run_log unselectedP
    (log (P.selectPortfolio
            (fun c => match c with
                      | P.GetById _ => Normal (Success pGrowth (JInt 200))
                      | _ => Normal not_found
                      end) (JStr "p1") stored))
  = P.mkState (JArr [pGrowth]) pGrowth (JArr []) (JArr []) JNull false
              (env_error not_found).
Proof.
  rewrite (select_portfolio_keeps_the_record_when_holdings_fail
             (fun c => match c with
                       | P.GetById _ => Normal (Success pGrowth (JInt 200))
                       | _ => Normal not_found
                       end) (JStr "p1") pGrowth (JInt 200)
             (env_error not_found) stored eq_refl eq_refl).
  reflexivity.
Defined.

(* ===================================================================== *)
(** * A snapshot that does not parse *)
(* ===================================================================== *)



(* ===================================================================== *)
(** * How [request] classifies what [fetch] does *)
(* ===================================================================== *)

(** X13.  Every error thrown inside the [try] of [request] is classified
    by its name alone: whether [fetch] rejected, or a 2xx response came
    back and reading its body threw, an error named [AbortError] resolves
    to the timeout envelope and any other error to the [NETWORK_ERROR]
    envelope with the error's message as details.  localStorage is not
    touched. *)
Theorem thrown_errors_are_classified_by_name
  (net : A.fetch_result) (e : exn) (ls : storage) :
  (net = A.Rejected e \/
   exists r, net = A.Responded r /\ A.ok r = true /\
             if A.is_json r then A.json r = Throw e else A.text r = Throw e) ->
  A.request net ls =
  mkResult (Normal (if String.eqb (exn_name e) "AbortError"
                    then A.timeout_error else network_error e)) ls [].
Proof.
  intros H. apply run_eq. unfold A.request, A.handleError.
  destruct H as [->|(r & -> & Hok & Hbody)].
  - run. destruct (String.eqb (exn_name e) "AbortError"); run; reflexivity.
  - run. rewrite Hok. cbn [negb]. run.
    destruct (A.is_json r); rewrite Hbody; run;
      destruct (String.eqb (exn_name e) "AbortError"); run; reflexivity.
Qed.

Lemma thrown_errors_are_classified_by_name_witness :
  res (A.request
         (A.Responded (A.mkResponse 200 (Some "application/json")
                         (Throw (SyntaxError "Unexpected end of JSON input"))
                         (Normal ""))) signed_in)
  = Normal (network_error (SyntaxError "Unexpected end of JSON input")).
Proof.
  rewrite (thrown_errors_are_classified_by_name _
             (SyntaxError "Unexpected end of JSON input") signed_in).
  - reflexivity.
  - right. eexists. split; [reflexivity|]. split; reflexivity.
Defined.

(** X14.  An answer outside 200-299 that does not announce JSON resolves
    to the failure envelope with the code [HTTP_<status>], the status and
    the message of the status table; the body is never read. *)
Theorem plain_error_answer_uses_the_status_table
  (r : A.response) (ls : storage) :
  A.ok r = false -> A.is_json r = false ->
  res (A.request (A.Responded r) ls) =
  Normal (Failure (JObj [("message", JStr (A.status_message (A.status r)));
                         ("code", JStr ("HTTP_" +:+ pretty (A.status r)));
                         ("status", JInt (A.status r))])).
Proof.
  intros Hok Hj.
  change (post (A.request (A.Responded r)) ls (fun x _ _ => x =
    Normal (Failure (JObj [("message", JStr (A.status_message (A.status r)));
                           ("code", JStr ("HTTP_" +:+ pretty (A.status r)));
                           ("status", JInt (A.status r))])))).
  unfold A.request, A.handleError. run. rewrite Hok. cbn [negb]. run.
  rewrite Hj. run. unfold A.setAuthToken. cbn [truthy].
  destruct (A.status r =? 401)%Z; run; reflexivity.
Qed.

Lemma plain_error_answer_uses_the_status_table_witness :
  res (A.request (A.Responded plain_401) signed_in) =
  Normal (Failure (JObj [("message", JStr "Unauthorized. Please log in.");
                         ("code", JStr "HTTP_401");
                         ("status", JInt 401)])).
Proof.
  exact (plain_error_answer_uses_the_status_table plain_401 signed_in
           eq_refl eq_refl).
Defined.

(** A rejected [fetch] and an answer other than 401 leave localStorage
    alone. *)
Lemma rejected_fetch_leaves_storage e ls :
  store (A.request (A.Rejected e) ls) = ls.
Proof.
  change (post (A.request (A.Rejected e)) ls (fun _ s _ => s = ls)).
  unfold A.request, A.handleError. run.
  destruct (String.eqb (exn_name e) "AbortError"); run; reflexivity.
Qed.

Lemma other_answer_leaves_storage r ls :
  (A.status r =? 401)%Z = false ->
  store (A.request (A.Responded r) ls) = ls.
Proof.
  intros H401.
  assert (Hcatch : forall e,
    post (if String.eqb (exn_name e) "AbortError"
          then ret (ret A.timeout_error)
          else A.handleError (Some e) None) ls
      (fun r' s2 (_ : list A.E) =>
         match r' with
         | Normal a => post a s2 (fun _ s _ => s = ls)
         | Throw _ => s2 = ls
         end)).
  { intros e. unfold A.handleError.
    destruct (String.eqb (exn_name e) "AbortError"); run; reflexivity. }
  change (post (A.request (A.Responded r)) ls (fun _ s _ => s = ls)).
  unfold A.request. run.
  destruct (A.ok r); cbn [negb]; run.
  - destruct (A.is_json r); run.
    + destruct (A.json r) as [data|e]; run; [reflexivity|]. apply Hcatch.
    + destruct (A.text r) as [t|e]; run; [reflexivity|]. apply Hcatch.
  - unfold A.handleError. run. destruct (A.is_json r); run.
    + destruct (A.json r) as [data|e]; run; [|reflexivity].
      unfold A.parsed_error. run.
      repeat (match goal with
              | |- match match get ?v ?k with _ => _ end with _ => _ end =>
                  destruct (get v k); run
              | |- match get ?v ?k with _ => _ end =>
                  destruct (get v k); run
              end); reflexivity.
    + rewrite H401. run. reflexivity.
Qed.

(** A service call as its caller sees it: what [request] has done to
    localStorage by the time its promise settles can be told from what
    the promise settles to, and [request] logs nothing.  This is the
    [A.settled] the providers await. *)
Lemma request_settles net ls :
  A.request net ls =
  A.settled (res (A.request net ls)) ls.
Proof.
  rewrite settled_eq. apply run_eq.
  enough (H : post (A.request net) ls
                (fun r s l => s = A.after_call r ls /\ l = [])).
  { unfold post in *. destruct H as [-> ->]. reflexivity. }
  assert (Hcatch : forall e,
    post (if String.eqb (exn_name e) "AbortError"
          then ret (ret A.timeout_error)
          else A.handleError (Some e) None) ls
      (fun r' s2 (l1 : list A.E) =>
         match r' with
         | Normal a =>
             post a s2 (fun r s l2 =>
               s = A.after_call r ls /\ [] ++ l1 ++ l2 = [])
         | Throw e' => s2 = A.after_call (Throw e') ls /\ [] ++ l1 = []
         end)).
  { intros e. unfold A.handleError.
    destruct (String.eqb (exn_name e) "AbortError"); run; split; reflexivity. }
  unfold A.request. run. destruct net as [e|r]; run; [apply Hcatch|].
  destruct (A.ok r); cbn [negb]; run.
  - destruct (A.is_json r); run.
    + destruct (A.json r) as [data|e]; run; [split; reflexivity|].
      apply Hcatch.
    + destruct (A.text r) as [t|e]; run; [split; reflexivity|].
      apply Hcatch.
  - unfold A.handleError. run. destruct (A.is_json r); run.
    + destruct (A.json r) as [data|e]; run; [|split; reflexivity].
      unfold A.parsed_error. run.
      repeat (match goal with
              | |- match match get ?v ?k with _ => _ end with _ => _ end =>
                  destruct (get v k); run
              | |- match get ?v ?k with _ => _ end =>
                  destruct (get v k); run
              end); split; reflexivity.
    + unfold A.setAuthToken. cbn [truthy].
      destruct (A.status r =? 401)%Z eqn:H401; run.
      * apply Z.eqb_eq in H401. unfold A.http_code. rewrite H401.
        split; [|reflexivity]. unfold A.after_call.
        replace (A.clears_token _) with true by (vm_compute; reflexivity).
        reflexivity.
      * split; [|reflexivity]. unfold A.after_call, A.clears_token,
          A.is_unauthorized_error.
        cbn [strict_eq JInt Z.of_nat Z.pow Z.mul]. rewrite !Z.mul_1_r, H401.
        rewrite !andb_false_r. reflexivity.
Qed.

(** X15.  All [request] ever does to localStorage is to remove the stored
    token, and it does so exactly when the answer has status 401 and does
    not announce JSON.  Whatever else [fetch] does, localStorage is left
    as it was. *)
Theorem request_clears_the_token_only_on_a_plain_401
  (net : A.fetch_result) (ls : storage) :
  store (A.request net ls) =
  match net with
  | A.Responded r =>
      if (A.status r =? 401)%Z && negb (A.is_json r)
      then delete A.AUTH_TOKEN ls else ls
  | A.Rejected _ => ls
  end.
Proof.
  destruct net as [e|r]; [apply rejected_fetch_leaves_storage|].
  destruct (A.status r =? 401)%Z eqn:H401; cbn [andb].
  - apply Z.eqb_eq in H401. destruct (A.is_json r) eqn:Hj; cbn [negb].
    + apply unauthorized_json_answer_leaves_storage; assumption.
    + apply unauthorized_plain_answer_clears_the_token; assumption.
  - apply other_answer_leaves_storage, H401.
Qed.

(** [request] leaves localStorage alone or removes the token, and leaves
    it alone when it rejects. *)
Lemma request_store_cases net ls :
  store (A.request net ls) = ls \/
  store (A.request net ls) = delete A.AUTH_TOKEN ls.
Proof.
  destruct net as [e|r]; [left; apply rejected_fetch_leaves_storage|].
  destruct (A.status r =? 401)%Z eqn:H401.
  - apply Z.eqb_eq in H401. destruct (A.is_json r) eqn:Hj.
    + left. apply unauthorized_json_answer_leaves_storage; assumption.
    + right. apply unauthorized_plain_answer_clears_the_token; assumption.
  - left. apply other_answer_leaves_storage, H401.
Qed.

Lemma request_rejection_leaves_storage net ls e :
  res (A.request net ls) = Throw e -> store (A.request net ls) = ls.
Proof.
  intros Hthrow. destruct net as [e'|r]; [apply rejected_fetch_leaves_storage|].
  destruct (A.is_json r) eqn:Hj.
  - destruct (A.status r =? 401)%Z eqn:H401.
    + apply Z.eqb_eq in H401.
      apply unauthorized_json_answer_leaves_storage; assumption.
    + apply other_answer_leaves_storage, H401.
  - destruct (request_resolves_otherwise (A.Responded r) ls) as [env Henv].
    + intros r' [= <-] _ Hj'. congruence.
    + congruence.
Qed.

(** A 2xx answer with a JSON body. *)
Lemma json_answer_eq r d ls :
  A.ok r = true -> A.is_json r = true -> A.json r = Normal d ->
  A.request (A.Responded r) ls =
  mkResult (Normal (Success d (JInt (A.status r)))) ls [].
Proof.
  intros Hok Hj Hbody. apply run_eq. unfold A.request. run.
  rewrite Hok. cbn [negb]. run. rewrite Hj, Hbody. run. reflexivity.
Qed.

(** X16.  A 2xx answer whose body can be read resolves to a success
    envelope that carries the status and, as data, the parsed body when
    the answer announces JSON and the body text as a string otherwise
    (the text is not parsed, and is the empty string for an empty
    body). *)
Theorem readable_answer_is_wrapped
  (r : A.response) (d : jval) (ls : storage) :
  A.ok r = true ->
  (if A.is_json r then A.json r = Normal d
   else exists t, A.text r = Normal t /\ d = JStr t) ->
  A.request (A.Responded r) ls =
  mkResult (Normal (Success d (JInt (A.status r)))) ls [].
Proof.
  intros Hok Hbody. apply run_eq. unfold A.request. run.
  rewrite Hok. cbn [negb]. run.
  destruct (A.is_json r).
  - rewrite Hbody. run. reflexivity.
  - destruct Hbody as (t & -> & ->). run. reflexivity.
Qed.

Lemma readable_answer_is_wrapped_witness :
  A.request (A.Responded (A.mkResponse 204 None
                            (Throw (SyntaxError "Unexpected end of JSON input"))
                            (Normal ""))) signed_in
  = mkResult (Normal (Success (JStr "") (JInt 204))) signed_in [].
Proof.
  apply (readable_answer_is_wrapped
           (A.mkResponse 204 None
              (Throw (SyntaxError "Unexpected end of JSON input"))
              (Normal "")) (JStr "") signed_in eq_refl).
  exists "". split; reflexivity.
Defined.

(** What [request] makes of an error answer that announces JSON: the
    reader of the body decides. *)
Lemma error_body_outcome r ls :
  A.ok r = false -> A.is_json r = true ->
  res (A.request (A.Responded r) ls) =
  match A.json r with
  | Throw e => Throw e
  | Normal data =>
      if nullish data then Throw (cannot_read data "message")
      else res (A.parsed_error r data ls)
  end.
Proof.
  intros Hok Hj.
  change (post (A.request (A.Responded r)) ls (fun x _ _ => x =
    match A.json r with
    | Throw e => Throw e
    | Normal data =>
        if nullish data then Throw (cannot_read data "message")
        else res (A.parsed_error r data ls)
    end)).
  unfold A.request, A.handleError. run. rewrite Hok. cbn [negb]. run.
  rewrite Hj. run. destruct (A.json r) as [data|e]; run; [|reflexivity].
  destruct (nullish data) eqn:Hn.
  - unfold A.parsed_error. run. rewrite (nullish_get _ _ Hn). run.
    reflexivity.
  - unfold post. reflexivity.
Qed.

(** X17.  When the promise [request] returns rejects.  It rejects with
    the error [e] exactly when the answer is outside 200-299, announces
    JSON, and reading its body throws [e] or gives [null] (and [e] is the
    [TypeError] of reading [message] from it).  In every other case,
    whatever [fetch] does, [request] resolves to an envelope. *)
Theorem request_rejects_exactly_on_unreadable_error_bodies
  (net : A.fetch_result) (e : exn) (ls : storage) :
  res (A.request net ls) = Throw e <->
  exists r, net = A.Responded r /\ A.ok r = false /\ A.is_json r = true /\
    (A.json r = Throw e \/
     exists data, A.json r = Normal data /\ nullish data = true /\
                  e = cannot_read data "message").
Proof.
  split.
  - intros Hthrow.
    assert (Hno : forall env, res (A.request net ls) <> Normal env)
      by (intros env H; congruence).
    destruct net as [e'|r].
    { destruct (request_resolves_otherwise (A.Rejected e') ls) as [env H];
        [intros r' [=] | destruct (Hno env H)]. }
    exists r. split; [reflexivity|].
    destruct (A.ok r) eqn:Hok.
    { destruct (request_resolves_otherwise (A.Responded r) ls) as [env H];
        [intros r' [= <-] Hok'; congruence | destruct (Hno env H)]. }
    split; [reflexivity|].
    destruct (A.is_json r) eqn:Hj.
    2:{ destruct (request_resolves_otherwise (A.Responded r) ls) as [env H];
          [intros r' [= <-] _ Hj'; congruence | destruct (Hno env H)]. }
    split; [reflexivity|].
    rewrite (error_body_outcome r ls Hok Hj) in Hthrow.
    destruct (A.json r) as [data|e'] eqn:Hjson.
    + destruct (nullish data) eqn:Hn.
      * right. exists data. injection Hthrow as <-. auto.
      * destruct (request_resolves_otherwise (A.Responded r) ls)
          as [env H]; [|destruct (Hno env H)].
        intros r' [= <-] _ _. exists data. auto.
    + left. injection Hthrow as <-. reflexivity.
  - intros (r & -> & Hok & Hj & Hbody).
    rewrite (error_body_outcome r ls Hok Hj).
    destruct Hbody as [-> | (data & -> & Hn & ->)]; [reflexivity|].
    rewrite Hn. reflexivity.
Qed.

(* ===================================================================== *)
(** * URLs *)
(* ===================================================================== *)

Import JsText.

Lemma append_cons (x : Ascii.ascii) (a b : string) :
  String x a +:+ b = String x (a +:+ b).
Proof. reflexivity. Qed.

Lemma append_nil_l (a : string) : "" +:+ a = a.
Proof. reflexivity. Qed.

Lemma append_assoc (a b c : string) : (a +:+ b) +:+ c = a +:+ (b +:+ c).
Proof.
  induction a as [|x a IH]; [reflexivity|].
  rewrite !append_cons, IH. reflexivity.
Qed.

Lemma append_nil_r (a : string) : a +:+ "" = a.
Proof.
  induction a as [|x a IH]; [reflexivity|]. rewrite append_cons, IH.
  reflexivity.
Qed.

Lemma length_append (a b : string) :
  String.length (a +:+ b) = String.length a + String.length b.
Proof.
  induction a as [|x a IH]; [reflexivity|].
  rewrite append_cons. cbn [String.length]. rewrite IH. reflexivity.
Qed.

Lemma prefix_append (a b : string) : String.prefix a (a +:+ b) = true.
Proof.
  induction a as [|x a IH]; [destruct b; reflexivity|].
  rewrite append_cons. cbn [String.prefix].
  destruct (Ascii.ascii_dec x x) as [_|H]; [exact IH | destruct (H eq_refl)].
Qed.

Lemma substring_all (s : string) : String.substring 0 (String.length s) s = s.
Proof.
  induction s as [|x s IH]; [reflexivity|].
  cbn [String.length String.substring]. rewrite IH. reflexivity.
Qed.

Lemma substring_append (a b : string) :
  String.substring (String.length a) (String.length b) (a +:+ b) = b.
Proof.
  induction a as [|x a IH]; [apply substring_all|].
  rewrite append_cons. cbn [String.length]. cbn [String.substring]. exact IH.
Qed.

(** A text without [$] is its own expansion. *)
Lemma expand_lacks_dollar b m a t : lacks 36 t = true -> expand b m a t = t.
Proof.
  induction t as [|c t IH]; cbn [lacks expand]; [reflexivity|].
  intros H. apply andb_prop in H as [Hc Ht]. unfold code.
  destruct (Ascii.nat_of_ascii c =? 36); [discriminate Hc|].
  rewrite (IH Ht). reflexivity.
Qed.

Lemma prefix_colon_other k c s :
  (Ascii.nat_of_ascii c =? 58) = false ->
  String.prefix (colon +:+ k) (String c s) = false.
Proof.
  intros H. change (colon +:+ k) with (String (Ascii.ascii_of_nat 58) k).
  cbn [String.prefix].
  destruct (Ascii.ascii_dec _ c) as [<-|_]; [discriminate H | reflexivity].
Qed.

Lemma includes_unfold needle c s :
  includes needle (String c s) =
  String.prefix needle (String c s) || includes needle s.
Proof. reflexivity. Qed.

Lemma includes_skip k pre s :
  lacks 58 pre = true ->
  includes (colon +:+ k) (pre +:+ s) = includes (colon +:+ k) s.
Proof.
  induction pre as [|c pre IH]; [reflexivity|].
  cbn [lacks]. intros H. apply andb_prop in H as [Hc Hp].
  apply negb_true_iff in Hc.
  change (String c pre +:+ s) with (String c (pre +:+ s)).
  rewrite includes_unfold, (prefix_colon_other _ _ _ Hc). exact (IH Hp).
Qed.

Lemma includes_lacks k s :
  lacks 58 s = true -> includes (colon +:+ k) s = false.
Proof.
  induction s as [|c s IH]; [reflexivity|].
  cbn [lacks]. intros H. apply andb_prop in H as [Hc Hp].
  apply negb_true_iff in Hc.
  rewrite includes_unfold, (prefix_colon_other _ _ _ Hc). exact (IH Hp).
Qed.

Lemma includes_here needle rest : includes needle (needle +:+ rest) = true.
Proof.
  destruct (needle +:+ rest) eqn:H.
  - destruct needle; [reflexivity | discriminate H].
  - rewrite includes_unfold, <- H, prefix_append. reflexivity.
Qed.

Lemma replace_at_unfold needle t b c s :
  replace_at needle t b (String c s) =
  if String.prefix needle (String c s) then
    Some (b +:+ expand b needle
                  (String.substring (String.length needle)
                     (String.length (String c s) - String.length needle)
                     (String c s)) t
            +:+ String.substring (String.length needle)
                  (String.length (String c s) - String.length needle)
                  (String c s))
  else replace_at needle t (b +:+ String c EmptyString) s.
Proof. reflexivity. Qed.

Lemma replace_at_skip k t pre : forall b s,
  lacks 58 pre = true ->
  replace_at (colon +:+ k) t b (pre +:+ s) =
  replace_at (colon +:+ k) t (b +:+ pre) s.
Proof.
  induction pre as [|c pre IH]; intros b s.
  - intros _. rewrite append_nil_r. reflexivity.
  - cbn [lacks]. intros H. apply andb_prop in H as [Hc Hp].
    apply negb_true_iff in Hc.
    change (String c pre +:+ s) with (String c (pre +:+ s)).
    rewrite replace_at_unfold, (prefix_colon_other _ _ _ Hc), (IH _ _ Hp).
    rewrite append_assoc. reflexivity.
Qed.

Lemma replace_at_here needle t b rest :
  needle <> "" ->
  replace_at needle t b (needle +:+ rest) =
  Some (b +:+ expand b needle rest t +:+ rest).
Proof.
  intros Hn.
  assert (Hsub : String.substring (String.length needle)
            (String.length (needle +:+ rest) - String.length needle)
            (needle +:+ rest) = rest).
  { rewrite length_append.
    replace (String.length needle + String.length rest - String.length needle)
      with (String.length rest) by lia.
    apply substring_append. }
  destruct (needle +:+ rest) eqn:H.
  - destruct needle; [destruct (Hn eq_refl) | discriminate H].
  - rewrite replace_at_unfold, Hsub, <- H, prefix_append. reflexivity.
Qed.

(** The replacement of the first [:key] of a route whose text before it
    has no colon. *)
Lemma replace_path_parameter k t pre rest :
  lacks 58 pre = true -> lacks 36 t = true ->
  replace (colon +:+ k) t (pre +:+ (colon +:+ k) +:+ rest) =
  pre +:+ t +:+ rest.
Proof.
  intros Hp Ht. unfold replace.
  rewrite (replace_at_skip _ _ _ _ _ Hp), replace_at_here by discriminate.
  rewrite (expand_lacks_dollar _ _ _ _ Ht). reflexivity.
Qed.

Import Observed.

Lemma lacks_append n a b :
  lacks n (a +:+ b) = lacks n a && lacks n b.
Proof.
  induction a as [|x a IH]; [reflexivity|].
  rewrite append_cons. cbn [lacks]. rewrite IH. apply andb_assoc.
Qed.

(** A URL without a colon has no path parameter left. *)
Lemma substitute_nothing url params ks :
  lacks 58 url = true ->
  fold_left apiClient.substitute ks (url, params) = (url, params).
Proof.
  intros H. induction ks as [|k ks IH]; [reflexivity|].
  cbn [fold_left apiClient.substitute]. rewrite (includes_lacks _ _ H).
  exact IH.
Qed.

Lemma remove_absent key (o : apiClient.obj) :
  key ∉ apiClient.keys o -> apiClient.remove key o = o.
Proof.
  induction o as [|[k v] o IH]; [reflexivity|].
  cbn [apiClient.keys List.map fst]. intros H.
  apply not_elem_of_cons in H as [Hk Ho].
  cbn [apiClient.remove List.filter fst].
  destruct (String.eqb k key) eqn:E.
  - apply String.eqb_eq in E. congruence.
  - cbn [negb]. f_equal. exact (IH Ho).
Qed.

(** [buildUrl] on a route with one path parameter and no other colon. *)
Lemma buildUrl_path baseURL pre key rest v others :
  lacks 58 pre = true -> lacks 58 rest = true ->
  lacks 36 (js_to_string v) = true -> lacks 58 (js_to_string v) = true ->
  key ∉ apiClient.keys others ->
  apiClient.buildUrl baseURL (pre +:+ (colon +:+ key) +:+ rest)
    ((key, v) :: others) =
  (baseURL +:+ (pre +:+ js_to_string v +:+ rest) +:+ suffix others, others).
Proof.
  intros Hpre Hrest Hd Hc Hkey.
  unfold apiClient.buildUrl.
  cbn [apiClient.keys List.map fst fold_left].
  unfold apiClient.substitute at 2.
  rewrite (includes_skip _ _ _ Hpre), includes_here.
  cbn [assoc]. rewrite String.eqb_refl.
  rewrite (replace_path_parameter _ _ _ _ Hpre Hd).
  cbn [apiClient.remove List.filter fst]. rewrite String.eqb_refl.
  cbn [negb]. fold (apiClient.remove key others).
  rewrite (remove_absent _ _ Hkey).
  fold (apiClient.keys others).
  rewrite substitute_nothing
    by (rewrite !lacks_append, Hpre, Hc, Hrest; reflexivity).
  reflexivity.
Qed.

(** X18.  [buildUrl] on a route with one path parameter, for values whose
    numbers are decimals that doubles print as.  When the route has no
    colon before [:key] and none after it, and the text of the value
    ([String(v)], for a number in positional or exponent notation as
    Number::toString chooses) has neither [$] nor [:], the value is put
    in the place of [:key] as it is (it is not percent-encoded, and
    [undefined] is written [undefined]), the key is deleted from the
    caller's object, and the remaining parameters make the query
    string. *)
Theorem path_parameter_is_substituted_verbatim
  (baseURL pre key rest : string) (v : jval) (others : apiClient.obj) :
  exact v = true -> exact (JObj others) = true ->
  lacks 58 pre = true -> lacks 58 rest = true ->
  plain (js_to_string v) = true ->
  key ∉ apiClient.keys others ->
  apiClient.buildUrl baseURL (pre +:+ (colon +:+ key) +:+ rest)
    ((key, v) :: others) =
  (baseURL +:+ (pre +:+ js_to_string v +:+ rest) +:+ suffix others, others).
Proof.
  intros _ _ Hpre Hrest Hv Hkey. unfold plain in Hv.
  apply andb_prop in Hv as [Hd Hc].
  exact (buildUrl_path baseURL pre key rest v others Hpre Hrest Hd Hc Hkey).
Qed.

Lemma path_parameter_is_substituted_verbatim_witness :
  apiClient.buildUrl "http://localhost:8000/api" "/watchlist/:id/items"
    [("id", JStr "a/b"); ("symbol", JStr "BRK B")]
  = ("http://localhost:8000/api/watchlist/a/b/items?symbol=BRK+B",
     [("symbol", JStr "BRK B")]).
Proof.
  refine (path_parameter_is_substituted_verbatim
            "http://localhost:8000/api" "/watchlist/" "id" "/items"
            (JStr "a/b") [("symbol", JStr "BRK B")]
            eq_refl eq_refl eq_refl eq_refl eq_refl _).
  intros H. inversion H as [|? ? ? H']. inversion H'.
Defined.

(** Numbers in a path are written as [String] writes them: in exponent
    notation from 1e21 on and below 1e-6. *)
Lemma path_parameter_in_exponent_notation :
  apiClient.buildUrl "/api" "/watchlist/:id"
    [("id", JNum 1000000000000000000000 0); ("min", JNum 1 7)]
  = ("/api/watchlist/1e+21?min=1e-7", [("min", JNum 1 7)]).
Proof. vm_compute. reflexivity. Qed.

Lemma query_pairs_nullish ks (params : apiClient.obj) :
  Forall (fun kv => nullish (snd kv) = true) params ->
  apiClient.query_pairs ks params = [].
Proof.
  intros H. induction ks as [|k ks IH]; [reflexivity|].
  cbn [apiClient.query_pairs].
  assert (Hk : nullish (assoc k params) = true).
  { clear IH. induction H as [|[k' v'] o Hv _ IHo]; [reflexivity|].
    cbn [assoc]. destruct (String.eqb k k'); [exact Hv | exact IHo]. }
  rewrite Hk. exact IH.
Qed.

(** X19.  Parameters whose value is [null] or [undefined] are left out
    of the query string, and a query string with nothing in it is left
    out altogether: on a route without path parameters, parameters that
    are all [null] or [undefined] give the bare URL, without a [?]. *)
Theorem empty_parameters_leave_no_query
  (baseURL endpoint : string) (params : apiClient.obj) :
  lacks 58 endpoint = true ->
  Forall (fun kv => nullish (snd kv) = true) params ->
  apiClient.buildUrl baseURL endpoint params =
  (baseURL +:+ endpoint, params).
Proof.
  intros He Hp. unfold apiClient.buildUrl.
  rewrite (substitute_nothing _ _ _ He), (query_pairs_nullish _ _ Hp).
  cbn [serialize String.eqb]. rewrite append_nil_r. reflexivity.
Qed.

Lemma empty_parameters_leave_no_query_witness :
  apiClient.buildUrl "/api" "/watchlist/check" [("symbol", JUndef)]
  = ("/api/watchlist/check", [("symbol", JUndef)]).
Proof.
  apply (empty_parameters_leave_no_query "/api" "/watchlist/check"
           [("symbol", JUndef)] eq_refl).
  repeat constructor.
Defined.

(* ===================================================================== *)
(** * Headers, bodies and routes *)
(* ===================================================================== *)

Lemma bind_known {E A B} (m : M E A) (k : A -> M E B) s a :
  m s = mkResult (Normal a) s [] -> bind m k s = k a s.
Proof.
  intros H. unfold bind. rewrite H. cbn [res store log app].
  destruct (k a s); reflexivity.
Qed.

Lemma getHeaders_run custom ls :
  apiClient.getHeaders custom ls =
  mkResult (Normal (sent_headers custom ls)) ls [].
Proof.
  unfold sent_headers.
  assert (H : exists h, apiClient.getHeaders custom ls
                        = mkResult (Normal h) ls []).
  { unfold apiClient.getHeaders, A.getAuthToken.
    rewrite (bind_known _ _ _ _ eq_refl).
    destruct (ls !! A.AUTH_TOKEN) as [x|]; [destruct (stored_truthy x)|];
      eexists; reflexivity. }
  destruct H as [h ->]. reflexivity.
Qed.

Lemma prepare_run baseURL endpoint o ls :
  apiClient.prepare baseURL endpoint o ls =
  mkResult
    (Normal
       (fst (apiClient.buildUrl baseURL endpoint
               match apiClient.opt_params o with Some p => p | None => [] end),
        apiClient.mkConfig
          match apiClient.opt_method o with Some m => m | None => "GET" end
          (sent_headers
             match apiClient.opt_headers o with Some h => h | None => ∅ end
             ls)
          (if truthy match apiClient.opt_data o with
                     | Some d => d | None => JNull end
              && apiClient.sends_body
                   match apiClient.opt_method o with
                   | Some m => m | None => "GET" end
           then JSON_stringify match apiClient.opt_data o with
                               | Some d => d | None => JNull end
           else None)))
    ls [].
Proof.
  unfold apiClient.prepare.
  rewrite (bind_known _ _ _ _ (getHeaders_run _ ls)). reflexivity.
Qed.

Lemma request_run baseURL fetch endpoint o ls :
  apiClient.request baseURL fetch endpoint o ls =
  A.request
    (fetch
       (fst (apiClient.buildUrl baseURL endpoint
               match apiClient.opt_params o with Some p => p | None => [] end))
       (apiClient.mkConfig
          match apiClient.opt_method o with Some m => m | None => "GET" end
          (sent_headers
             match apiClient.opt_headers o with Some h => h | None => ∅ end
             ls)
          (if truthy match apiClient.opt_data o with
                     | Some d => d | None => JNull end
              && apiClient.sends_body
                   match apiClient.opt_method o with
                   | Some m => m | None => "GET" end
           then JSON_stringify match apiClient.opt_data o with
                               | Some d => d | None => JNull end
           else None)))
    ls.
Proof.
  unfold apiClient.request.
  rewrite (bind_known _ _ _ _ (prepare_run baseURL endpoint o ls)).
  reflexivity.
Qed.

(** Every verb of the client is [request] behind a URL, so a call of a
    service method is a computation the providers can await as
    [A.settled]: it logs nothing, and what it did to localStorage is told
    by what it settled to. *)
Lemma api_request_settles baseURL fetch endpoint o ls :
  apiClient.request baseURL fetch endpoint o ls =
  A.settled (res (apiClient.request baseURL fetch endpoint o ls)) ls.
Proof. rewrite request_run. apply request_settles. Qed.

(** A delete the server refuses with a 401 that has no JSON body, seen
    from the service and from the provider that is given its answer: the
    token is gone in both. *)
Lemma refused_delete_loses_the_token :
  let service :=
    watchlistService.delete "/api" (fun _ _ => A.Responded plain_401)
      (JStr "x") signed_in in
  let provider :=
    W.deleteWatchlist (fun _ => res service) selectedX (JStr "x") signed_in in
  store provider = store service /\
  store provider !! A.AUTH_TOKEN = None /\
  res provider = res service.
Proof. repeat split; vm_compute; reflexivity. Qed.

(** X20.  The headers of every request.  [getHeaders] reads localStorage
    and changes nothing.  A stored token that is not empty is always sent
    as [Authorization: Bearer <token>], also when the caller supplies an
    [Authorization] header of its own; without a token the caller's
    header, if any, goes out.  [Content-Type] is [application/json]
    unless the caller supplies one, and every other header of the caller
    is passed on as it is. *)
Theorem stored_token_wins_over_custom_headers
  (custom : apiClient.headers_t) (ls : storage) :
  apiClient.getHeaders custom ls =
    mkResult (Normal (sent_headers custom ls)) ls [] /\
  sent_headers custom ls !! "Authorization" =
    match ls !! A.AUTH_TOKEN with
    | Some x => if stored_truthy x
                then Some (JStr ("Bearer " +:+ stored_text x))
                else custom !! "Authorization"
    | None => custom !! "Authorization"
    end /\
  sent_headers custom ls !! "Content-Type" =
    Some match custom !! "Content-Type" with
         | Some v => v
         | None => JStr "application/json"
         end /\
  forall k, k <> "Authorization" -> k <> "Content-Type" ->
            sent_headers custom ls !! k = custom !! k.
Proof.
  split; [apply getHeaders_run|].
  assert (Hbase : forall k,
    (custom ∪ ({[ "Content-Type" := JStr "application/json" ]}
               : apiClient.headers_t)) !! k =
    match custom !! k with
    | Some v => Some v
    | None => if decide (k = "Content-Type")
              then Some (JStr "application/json") else None
    end).
  { intros k. rewrite lookup_union.
    destruct (decide (k = "Content-Type")) as [->|Hne].
    - rewrite lookup_singleton_eq.
      destruct (custom !! "Content-Type"); reflexivity.
    - rewrite lookup_singleton_ne by congruence.
      destruct (custom !! k); reflexivity. }
  unfold sent_headers, apiClient.getHeaders, A.getAuthToken.
  rewrite (bind_known _ _ _ _ eq_refl).
  destruct (ls !! A.AUTH_TOKEN) as [x|]; [destruct (stored_truthy x)|];
    cbn [res ret]; (split; [|split]).
  - apply lookup_insert_eq.
  - rewrite lookup_insert_ne by discriminate. rewrite Hbase.
    destruct (custom !! "Content-Type"); reflexivity.
  - intros k Ha Hc. rewrite lookup_insert_ne by congruence. rewrite Hbase.
    destruct (custom !! k); [reflexivity|].
    destruct (decide (k = "Content-Type")); [contradiction | reflexivity].
  - rewrite Hbase. destruct (custom !! "Authorization"); reflexivity.
  - rewrite Hbase. destruct (custom !! "Content-Type"); reflexivity.
  - intros k Ha Hc. rewrite Hbase. destruct (custom !! k); [reflexivity|].
    destruct (decide (k = "Content-Type")); [contradiction | reflexivity].
  - rewrite Hbase. destruct (custom !! "Authorization"); reflexivity.
  - rewrite Hbase. destruct (custom !! "Content-Type"); reflexivity.
  - intros k Ha Hc. rewrite Hbase. destruct (custom !! k); [reflexivity|].
    destruct (decide (k = "Content-Type")); [contradiction | reflexivity].
Qed.

(** X21.  What the verbs hand to [fetch], for options that carry at most
    parameters and headers, and for data and parameters whose numbers
    are decimals that doubles print as.  [get] and [delete] use their own method and
    never send a body.  [post], [put] and [patch] send the JSON text of
    the data when the data is truthy, the text of the empty object when
    the data is left out, and no body at all when the data is [null],
    [0], [false] or the empty string. *)
Theorem verbs_send_a_body_only_for_truthy_data
  (baseURL : string)
  (fetch : string -> apiClient.config -> A.fetch_result)
  (endpoint : string) (data : jval) (params : option apiClient.obj)
  (hdrs : option apiClient.headers_t) (ls : storage) :
  exact data = true ->
  exact (JObj match params with Some p => p | None => [] end) = true ->
  let url := fst (apiClient.buildUrl baseURL endpoint
                    match params with Some p => p | None => [] end) in
  let h := sent_headers match hdrs with Some x => x | None => ∅ end ls in
  let payload :=
    match data with
    | JUndef => Some "{}"
    | _ => if truthy data then Some (JSON_text data) else None
    end in
  apiClient.get baseURL fetch endpoint params
    (apiClient.mkOptions None None None hdrs) ls
  = A.request (fetch url (apiClient.mkConfig "GET" h None)) ls /\
  apiClient.delete baseURL fetch endpoint params
    (apiClient.mkOptions None None None hdrs) ls
  = A.request (fetch url (apiClient.mkConfig "DELETE" h None)) ls /\
  apiClient.post baseURL fetch endpoint data
    (apiClient.mkOptions None params None hdrs) ls
  = A.request (fetch url (apiClient.mkConfig "POST" h payload)) ls /\
  apiClient.put baseURL fetch endpoint data
    (apiClient.mkOptions None params None hdrs) ls
  = A.request (fetch url (apiClient.mkConfig "PUT" h payload)) ls /\
  apiClient.patch baseURL fetch endpoint data
    (apiClient.mkOptions None params None hdrs) ls
  = A.request (fetch url (apiClient.mkConfig "PATCH" h payload)) ls.
Proof.
  intros _ _. cbv zeta.
  unfold apiClient.get, apiClient.delete, apiClient.post, apiClient.put,
    apiClient.patch.
  rewrite !request_run.
  destruct hdrs as [hd|], params as [pa|];
  cbn [apiClient.spread_options apiClient.with_data apiClient.opt_method
       apiClient.opt_params apiClient.opt_data apiClient.opt_headers truthy
       andb];
  (split; [reflexivity|]); (split; [reflexivity|]);
  repeat split; destruct data as [| |[]|m e|s|l|fs]; cbn [truthy andb];
    try reflexivity;
    match goal with
    | |- context [truthy ?v] => destruct (truthy v); reflexivity
    | |- context [negb ?b] => destruct b; reflexivity
    end.
Qed.

Lemma verbs_send_a_body_only_for_truthy_data_witness :
  apiClient.post "/api" (fun _ _ => A.Responded json_401) "/portfolio/p1/transactions"
    buyAAPL (apiClient.mkOptions None None None None) signed_in
  = A.request
      ((fun _ _ => A.Responded json_401)
         (fst (apiClient.buildUrl "/api" "/portfolio/p1/transactions" []))
         (apiClient.mkConfig "POST" (sent_headers ∅ signed_in)
            (Some (JSON_text buyAAPL))))
      signed_in.
Proof.
  destruct (verbs_send_a_body_only_for_truthy_data "/api"
              (fun _ _ => A.Responded json_401) "/portfolio/p1/transactions"
              buyAAPL None None signed_in eq_refl eq_refl)
    as (_ & _ & H & _).
  exact H.
Defined.

Import API_ENDPOINTS.

(** The URL of a route with the path parameter [id], for an id whose
    text can stand in a path. *)
Lemma route_with_id baseURL pre rest id others :
  lacks 58 pre = true -> lacks 58 rest = true ->
  plain (js_to_string id) = true ->
  "id" ∉ apiClient.keys others ->
  fst (apiClient.buildUrl baseURL (pre +:+ (colon +:+ "id") +:+ rest)
         (("id", id) :: others))
  = baseURL +:+ (pre +:+ js_to_string id +:+ rest) +:+ suffix others.
Proof.
  intros Hp Hr Hid Ho. unfold plain in Hid.
  apply andb_prop in Hid as [Hd Hc].
  rewrite (buildUrl_path _ _ _ _ _ _ Hp Hr Hd Hc Ho). reflexivity.
Qed.

Lemma not_in_nil (k : string) : k ∉ apiClient.keys [].
Proof. intros H. inversion H. Qed.

(** X22.  Where the services send their requests, for an id whose text
    has neither [$] nor [:] (and an item id without [:]), ids and data
    being values whose numbers are decimals that doubles print as (a
    numeric id is written as [String] writes it).
    [watchlistService.getWithItems] asks for
    [/watchlist/<id>?include_items=true]; [watchlistService.addStock]
    posts the JSON text of its data to [/watchlist/<id>/items];
    [watchlistService.removeStock] puts the item id in the path of a
    [DELETE] without a body; [portfolioService.getTransactions] without
    options asks for the first page, [?limit=50&offset=0]. *)
Theorem services_use_their_routes
  (baseURL : string)
  (fetch : string -> apiClient.config -> A.fetch_result)
  (id itemId data : jval) (ls : storage) :
  exact id = true -> exact itemId = true -> exact data = true ->
  plain (js_to_string id) = true ->
  lacks 58 (js_to_string itemId) = true ->
  truthy data = true ->
  watchlistService.getWithItems baseURL fetch id ls =
    A.request
      (fetch (baseURL +:+ "/watchlist/" +:+ js_to_string id +:+
              "?include_items=true")
         (apiClient.mkConfig "GET" (sent_headers ∅ ls) None)) ls /\
  watchlistService.addStock baseURL fetch id data ls =
    A.request
      (fetch (baseURL +:+ "/watchlist/" +:+ js_to_string id +:+ "/items")
         (apiClient.mkConfig "POST" (sent_headers ∅ ls)
            (Some (JSON_text data)))) ls /\
  watchlistService.removeStock baseURL fetch id itemId ls =
    A.request
      (fetch (baseURL +:+ "/watchlist/" +:+ js_to_string id +:+ "/items/" +:+
              js_to_string itemId)
         (apiClient.mkConfig "DELETE" (sent_headers ∅ ls) None)) ls /\
  portfolioService.getTransactions baseURL fetch id JUndef ls =
    A.request
      (fetch (baseURL +:+ "/portfolio/" +:+ js_to_string id +:+
              "/transactions?limit=50&offset=0")
         (apiClient.mkConfig "GET" (sent_headers ∅ ls) None)) ls.
Proof.
  intros _ _ _ Hid Hitem Hdata.
  split; [|split; [|split]].
  - unfold watchlistService.getWithItems, apiClient.get.
    rewrite request_run.
    cbn [apiClient.spread_options apiClient.no_options apiClient.opt_method
         apiClient.opt_params apiClient.opt_data apiClient.opt_headers
         truthy andb].
    change WATCHLIST.DETAIL with ("/watchlist/" +:+ (colon +:+ "id") +:+ "").
    rewrite (route_with_id baseURL "/watchlist/" "" id
               [("include_items", JBool true)]);
      [| reflexivity | reflexivity | exact Hid |].
    + rewrite append_nil_r, append_assoc. reflexivity.
    + intros H. inversion H as [|? ? ? H']. inversion H'.
  - unfold watchlistService.addStock, watchlistService.for_id, apiClient.post.
    rewrite request_run.
    cbn [apiClient.spread_options apiClient.with_data apiClient.opt_method
         apiClient.opt_params apiClient.opt_data apiClient.opt_headers].
    change WATCHLIST.ITEMS with
      ("/watchlist/" +:+ (colon +:+ "id") +:+ "/items").
    rewrite (route_with_id baseURL "/watchlist/" "/items" id []);
      [| reflexivity | reflexivity | exact Hid | apply not_in_nil].
    change (suffix []) with "". rewrite append_nil_r.
    destruct data; try discriminate Hdata; cbn [truthy andb] in *;
      try rewrite Hdata; reflexivity.
  - unfold watchlistService.removeStock, apiClient.delete.
    rewrite request_run.
    cbn [apiClient.spread_options apiClient.no_options apiClient.opt_method
         apiClient.opt_params apiClient.opt_data apiClient.opt_headers
         truthy andb].
    change (WATCHLIST.ITEMS +:+ "/" +:+ js_to_string itemId) with
      ("/watchlist/" +:+ (colon +:+ "id") +:+
       ("/items/" +:+ js_to_string itemId)).
    rewrite (route_with_id baseURL "/watchlist/"
               ("/items/" +:+ js_to_string itemId) id []);
      [| reflexivity | exact Hitem | exact Hid | apply not_in_nil].
    change (suffix []) with "". rewrite append_nil_r. reflexivity.
  - unfold portfolioService.getTransactions, apiClient.get.
    cbn [portfolioService.or_default].
    rewrite (bind_known _ _ _ _ eq_refl), (bind_known _ _ _ _ eq_refl),
      (bind_known _ _ _ _ eq_refl), (bind_known _ _ _ _ eq_refl),
      (bind_known _ _ _ _ eq_refl), (bind_known _ _ _ _ eq_refl).
    cbn [portfolioService.add_if portfolioService.or_default truthy get
         assoc app].
    rewrite request_run.
    cbn [apiClient.spread_options apiClient.no_options apiClient.opt_method
         apiClient.opt_params apiClient.opt_data apiClient.opt_headers
         truthy andb].
    change PORTFOLIO.TRANSACTIONS with
      ("/portfolio/" +:+ (colon +:+ "id") +:+ "/transactions").
    rewrite (route_with_id baseURL "/portfolio/" "/transactions" id
               [("limit", JInt 50); ("offset", JInt 0)]);
      [| reflexivity | reflexivity | exact Hid |].
    + rewrite !append_assoc. reflexivity.
    + intros H. inversion H as [|? ? ? H']. inversion H' as [|? ? ? H''].
      inversion H''.
Qed.

Lemma services_use_their_routes_witness :
  watchlistService.getWithItems "/api" (fun _ _ => A.Responded json_401)
    (JStr "w1") signed_in
  = A.request (A.Responded json_401) signed_in.
Proof.
  destruct (services_use_their_routes "/api"
              (fun _ _ => A.Responded json_401) (JStr "w1") (JStr "i1")
              (JObj []) signed_in eq_refl eq_refl eq_refl
              eq_refl eq_refl eq_refl) as [H _].
  exact H.
Defined.

(* ===================================================================== *)
(** * The session in localStorage *)
(* ===================================================================== *)

Section AbsentRules.
Context {E : Type}.
Variable key : string.

Lemma absent_ret {A} (a : A) : keeps_absent (E := E) key (ret a).
Proof. intros s H. exact H. Qed.

Lemma absent_lift {A} (c : completion A) : keeps_absent (E := E) key (lift c).
Proof. intros s H. exact H. Qed.

Lemma absent_getItem k : keeps_absent (E := E) key (getItem k).
Proof. intros s H. exact H. Qed.

Lemma absent_removeItem k : keeps_absent (E := E) key (removeItem k).
Proof.
  intros s H. cbn [removeItem store].
  destruct (decide (k = key)) as [->|Hne];
    [apply lookup_delete_eq | rewrite lookup_delete_ne by exact Hne; exact H].
Qed.

Lemma absent_setItem k x :
  k <> key -> keeps_absent (E := E) key (setItem k x).
Proof.
  intros Hne s H. cbn [setItem store].
  rewrite lookup_insert_ne by exact Hne. exact H.
Qed.

Lemma absent_bind {A B} (m : M E A) (k : A -> M E B) :
  keeps_absent key m -> (forall a, keeps_absent key (k a)) ->
  keeps_absent key (bind m k).
Proof.
  intros Hm Hk s H. rewrite store_bind.
  destruct (res (m s)) as [a|e]; [apply Hk|]; apply Hm, H.
Qed.

Lemma absent_try_catch {A} (body : M E A) handler :
  keeps_absent key body -> (forall e, keeps_absent key (handler e)) ->
  keeps_absent key (try_catch body handler).
Proof.
  intros Hb Hh s H. rewrite store_try_catch.
  destruct (res (body s)) as [a|e]; [|apply Hh]; apply Hb, H.
Qed.

End AbsentRules.

Lemma absent_A_request key net : keeps_absent key (A.request net).
Proof.
  intros s H. destruct (request_store_cases net s) as [->| ->]; [exact H|].
  destruct (decide (A.AUTH_TOKEN = key)) as [->|Hne];
    [apply lookup_delete_eq | rewrite lookup_delete_ne by exact Hne; exact H].
Qed.

Lemma absent_request key baseURL fetch endpoint o :
  keeps_absent key (apiClient.request baseURL fetch endpoint o).
Proof. intros s H. rewrite request_run. apply absent_A_request, H. Qed.

Lemma absent_setAuthToken token :
  keeps_absent (E := A.E) STORAGE_KEYS.REFRESH_TOKEN (A.setAuthToken token).
Proof.
  unfold A.setAuthToken. destruct (truthy token);
    [apply absent_setItem; discriminate | apply absent_removeItem].
Qed.

Ltac absent_step :=
  first
  [ apply absent_request | apply absent_setAuthToken
  | apply absent_ret | apply absent_lift | apply absent_getItem
  | apply absent_removeItem
  | apply absent_setItem; discriminate
  | apply absent_bind; [| intros ?]
  | apply absent_try_catch; [| intros ?]
  | match goal with
    | |- keeps_absent _ (if ?b then _ else _) => destruct b
    | |- keeps_absent _ (match ?x with _ => _ end) => destruct x
    end ].

(** X23.  The service has no way to obtain a refresh token: no operation
    of [authService] ever stores the item [refresh_token] ([logout] and
    [clearAuth] only remove it), so if it is absent it stays absent
    whatever the server answers; and while it is absent [refreshToken]
    returns the [NO_REFRESH_TOKEN] failure without sending a request and
    without touching localStorage. *)
Theorem refresh_token_is_never_stored
  (baseURL : string)
  (fetch : string -> apiClient.config -> A.fetch_result)
  (a : jval) (ls : storage) :
  ls !! STORAGE_KEYS.REFRESH_TOKEN = None ->
  authService.refreshToken baseURL fetch ls =
    mkResult (Normal authService.no_refresh_token) ls [] /\
  Forall (fun op : M A.E envelope =>
            store (op ls) !! STORAGE_KEYS.REFRESH_TOKEN = None)
    [authService.login baseURL fetch a;
     authService.register baseURL fetch a;
     authService.logout baseURL fetch;
     authService.refreshToken baseURL fetch;
     authService.getProfile baseURL fetch;
     authService.updateProfile baseURL fetch a;
     authService.changePassword baseURL fetch a;
     authService.forgotPassword baseURL fetch a;
     authService.resetPassword baseURL fetch a] /\
  store (authService.clearAuth ls) !! STORAGE_KEYS.REFRESH_TOKEN
    = None.
Proof.
  intros H. split; [|split].
  - unfold authService.refreshToken.
    rewrite (bind_known _ _ _ _ eq_refl), H. reflexivity.
  - repeat constructor; cbv beta;
      match goal with
      | |- store (?op ls) !! _ = None =>
          cut (keeps_absent STORAGE_KEYS.REFRESH_TOKEN op);
            [intros Hop; exact (Hop ls H)|]
      end;
      unfold authService.login, authService.register, authService.logout,
        authService.refreshToken, authService.getProfile,
        authService.updateProfile, authService.changePassword,
        authService.forgotPassword, authService.resetPassword,
        authService.store_session, authService.store_profile,
        apiClient.post, apiClient.get, apiClient.patch;
      repeat absent_step.
  - apply lookup_delete_eq.
Qed.

Lemma refresh_token_is_never_stored_witness :
  authService.refreshToken "/api" (fun _ _ => A.Responded json_401) signed_in
  = mkResult (Normal authService.no_refresh_token) signed_in [].
Proof.
  exact (proj1 (refresh_token_is_never_stored "/api"
                  (fun _ _ => A.Responded json_401) JNull signed_in
                  eq_refl)).
Defined.

(** X24.  [logout] ends the session only if its request settles.  When
    the request resolves, whatever it resolves to, the token, the user
    and the refresh token are gone from localStorage and everything else
    is as it was.  When the request rejects, [logout] rejects before
    clearing anything and localStorage is exactly as it was. *)
Theorem logout_clears_the_session_once_the_request_resolves
  (baseURL : string)
  (fetch : string -> apiClient.config -> A.fetch_result) (ls : storage) :
  match res (authService.logout baseURL fetch ls) with
  | Normal _ =>
      store (authService.logout baseURL fetch ls) =
      delete STORAGE_KEYS.REFRESH_TOKEN
        (delete STORAGE_KEYS.USER (delete STORAGE_KEYS.AUTH_TOKEN ls))
  | Throw _ => store (authService.logout baseURL fetch ls) = ls
  end.
Proof.
  unfold authService.logout, apiClient.post.
  rewrite res_bind, store_bind, request_run.
  match goal with
  | |- context [A.request ?n ls] => generalize n; intros net
  end.
  destruct (res (A.request net ls)) as [env|e] eqn:Hres.
  - cbn [truthy A.setAuthToken bind removeItem ret res store].
    destruct (request_store_cases net ls) as [->| ->];
      [reflexivity|].
    unfold STORAGE_KEYS.AUTH_TOKEN. rewrite delete_delete_eq. reflexivity.
  - apply (request_rejection_leaves_storage _ _ _ Hres).
Qed.

(** X25.  A successful [login] opens the session: when the server
    answers 2xx with a JSON body that carries a non-empty string [token]
    and a truthy [user], [login] returns the success envelope, stores the
    token and the user and changes nothing else; afterwards
    [isAuthenticated] is [true] and [getCurrentUser] gives the user
    back as JSON round-trips it. *)
Theorem login_opens_the_session
  (baseURL : string)
  (fetch : string -> apiClient.config -> A.fetch_result)
  (credentials data user : jval) (token : string) (r : A.response)
  (ls : storage) :
  (forall url cfg, fetch url cfg = A.Responded r) ->
  A.ok r = true -> A.is_json r = true -> A.json r = Normal data ->
  get data "token" = Normal (JStr token) -> token <> "" ->
  get data "user" = Normal user -> truthy user = true ->
  authService.login baseURL fetch credentials ls =
    mkResult (Normal (Success data (JInt (A.status r))))
      (<[ STORAGE_KEYS.USER := Json (revive user) ]>
         (<[ STORAGE_KEYS.AUTH_TOKEN := Raw token ]> ls)) [] /\
  res (authService.isAuthenticated
         (store (authService.login baseURL fetch credentials ls)))
    = Normal true /\
  res (authService.getCurrentUser
         (store (authService.login baseURL fetch credentials ls)))
    = Normal (revive user).
Proof.
  intros Hfetch Hok Hj Hjson Htok Hne Huser Htu.
  apply String.eqb_neq in Hne.
  assert (Hdata : truthy data = true).
  { eapply truthy_field_truthy; [exact Huser | exact Htu]. }
  assert (Hlogin :
    authService.login baseURL fetch credentials ls =
    mkResult (Normal (Success data (JInt (A.status r))))
      (<[ STORAGE_KEYS.USER := Json (revive user) ]>
         (<[ STORAGE_KEYS.AUTH_TOKEN := Raw token ]> ls)) []).
  { unfold authService.login, apiClient.post.
    apply run_eq. apply post_bind. unfold post at 1.
    rewrite request_run, Hfetch.
    rewrite (json_answer_eq r data ls Hok Hj Hjson).
    cbn [res store log]. unfold authService.store_session,
      authService.has_data.
    cbn [env_success env_data andb]. rewrite Hdata. run.
    rewrite Htok. run. cbn [truthy]. rewrite Hne. cbn [negb].
    unfold A.setAuthToken. cbn [truthy]. rewrite Hne. cbn [negb]. run.
    rewrite Huser. run. rewrite Htu. run.
    destruct user; try discriminate Htu; reflexivity. }
  split; [exact Hlogin|]. rewrite Hlogin. cbn [store]. split.
  - unfold authService.isAuthenticated, A.getAuthToken.
    rewrite res_bind. cbn [getItem res store ret].
    unfold STORAGE_KEYS.USER, STORAGE_KEYS.AUTH_TOKEN, A.AUTH_TOKEN.
    rewrite lookup_insert_ne by discriminate. rewrite lookup_insert_eq.
    cbn [stored_truthy]. rewrite Hne. reflexivity.
  - unfold authService.getCurrentUser.
    rewrite res_bind. cbn [getItem res store].
    rewrite lookup_insert_eq. reflexivity.
Qed.

Lemma login_opens_the_session_witness :
  store (authService.login "/api" (fun _ _ => A.Responded login_answer)
           (JObj [("email", JStr "ada@example.org")]) signed_in)
    !! STORAGE_KEYS.USER
  = Some (Json (JObj [("id", JInt 7); ("email", JStr "ada@example.org")])).
Proof.
  destruct (login_opens_the_session "/api"
              (fun _ _ => A.Responded login_answer)
              (JObj [("email", JStr "ada@example.org")])
              (JObj [("token", JStr "token-xyz"); ("user", ada)]) ada
              "token-xyz" login_answer signed_in
              (fun _ _ => eq_refl) eq_refl eq_refl eq_refl eq_refl
              ltac:(discriminate) eq_refl eq_refl) as [H _].
  rewrite H. cbn [store]. apply lookup_insert_eq.
Defined.

(** X26.  The stored user.  [getCurrentUser] never throws and never
    changes localStorage, also when the stored text does not parse (it
    then answers [null] and leaves the text where it is).  After a
    [getProfile] or an [updateProfile] that the server answers 2xx with a
    truthy JSON body, the stored user is that body, the rest of
    localStorage is as it was, and [getCurrentUser] gives the body back
    as JSON round-trips it. *)
Theorem profile_is_kept_for_get_current_user
  (baseURL : string)
  (fetch : string -> apiClient.config -> A.fetch_result)
  (patch data : jval) (r : A.response) (ls : storage) :
  (forall url cfg, fetch url cfg = A.Responded r) ->
  A.ok r = true -> A.is_json r = true -> A.json r = Normal data ->
  truthy data = true ->
  (forall s, exists v, authService.getCurrentUser s = mkResult (Normal v) s [])
  /\ store (authService.getProfile baseURL fetch ls)
     = <[ STORAGE_KEYS.USER := Json (revive data) ]> ls
  /\ store (authService.updateProfile baseURL fetch patch ls)
     = <[ STORAGE_KEYS.USER := Json (revive data) ]> ls
  /\ res (authService.getCurrentUser
            (store (authService.getProfile baseURL fetch ls)))
     = Normal (revive data).
Proof.
  intros Hfetch Hok Hj Hjson Hdata.
  assert (Hstored : stringified data = Json (revive data)).
  { destruct data; try discriminate Hdata; reflexivity. }
  split; [|split; [|split]].
  - intros s. unfold authService.getCurrentUser.
    rewrite (bind_known _ _ _ _ eq_refl).
    destruct (s !! STORAGE_KEYS.USER) as [[t|v]|];
      [destruct (String.eqb t "") eqn:Ht | |]; cbn [stored_truthy negb];
      try rewrite Ht; cbn [negb]; eexists; reflexivity.
  - unfold authService.getProfile, apiClient.get.
    rewrite store_bind, request_run, Hfetch,
      (json_answer_eq r data ls Hok Hj Hjson).
    cbn [res store]. unfold authService.store_profile, authService.has_data.
    cbn [env_success env_data andb]. rewrite Hdata.
    cbn [bind setItem ret res store]. rewrite Hstored. reflexivity.
  - unfold authService.updateProfile, apiClient.patch.
    rewrite store_bind, request_run, Hfetch,
      (json_answer_eq r data ls Hok Hj Hjson).
    cbn [res store]. unfold authService.store_profile, authService.has_data.
    cbn [env_success env_data andb]. rewrite Hdata.
    cbn [bind setItem ret res store]. rewrite Hstored. reflexivity.
  - unfold authService.getProfile, apiClient.get.
    rewrite store_bind, request_run, Hfetch,
      (json_answer_eq r data ls Hok Hj Hjson).
    cbn [res store]. unfold authService.store_profile, authService.has_data.
    cbn [env_success env_data andb]. rewrite Hdata.
    cbn [bind setItem ret res store]. rewrite Hstored.
    unfold authService.getCurrentUser.
    rewrite res_bind. cbn [getItem res store].
    rewrite lookup_insert_eq. reflexivity.
Qed.

Lemma profile_is_kept_for_get_current_user_witness :
  res (authService.getCurrentUser
         (store (authService.getProfile "/api"
                   (fun _ _ => A.Responded profile_answer) signed_in)))
  = Normal (JObj [("id", JInt 7); ("email", JStr "ada@example.org")]).
Proof.
  destruct (profile_is_kept_for_get_current_user "/api"
              (fun _ _ => A.Responded profile_answer) JNull ada
              profile_answer signed_in
              (fun _ _ => eq_refl) eq_refl eq_refl eq_refl eq_refl)
    as (_ & _ & _ & H).
  exact H.
Defined.

(* ===================================================================== *)
(** * The remaining operations of the providers *)
(* ===================================================================== *)






(** X28.  The guards of the remaining operations.  Without a selection
    ([current] is [null]), [removeStockBySymbol], [updateItemNotes],
    [updateTransaction] and [deleteTransaction] return [undefined] (not a
    failure envelope), [fetchPerformance] returns, and [addStocks]
    returns the failure envelope [No watchlist selected]; none of them
    calls the service, calls a setter or touches localStorage. *)
Theorem remaining_operations_need_a_selection
  (remoteW : WM.call -> completion envelope)
  (remoteP : PM.call -> completion envelope)
  (stW : W.state) (stP : P.state) (a b : jval) (ls : storage) :
  truthy (W.currentWatchlist stW) = false ->
  truthy (P.currentPortfolio stP) = false ->
  WM.removeStockBySymbol remoteW stW a ls = mkResult (Normal None) ls [] /\
  WM.updateItemNotes remoteW stW a b ls = mkResult (Normal None) ls [] /\
  WM.addStocks remoteW stW a ls = mkResult (Normal W.no_selection) ls [] /\
  PM.updateTransaction remoteP stP a b ls = mkResult (Normal None) ls [] /\
  PM.deleteTransaction remoteP stP a ls = mkResult (Normal None) ls [] /\
  PM.fetchPerformance remoteP stP a ls = mkResult (Normal tt) ls [].
Proof.
  intros HW HP.
  unfold WM.removeStockBySymbol, WM.updateItemNotes, WM.addStocks,
    PM.updateTransaction, PM.deleteTransaction, PM.change_transaction,
    PM.fetchPerformance.
  rewrite HW, HP. cbn [negb]. repeat split.
Qed.

Lemma remaining_operations_need_a_selection_witness :
  WM.updateItemNotes (fun _ => Normal accepted) unselectedW (JStr "i1")
    (JStr "note") stored
  = mkResult (Normal None) stored [].
Proof.
  destruct (remaining_operations_need_a_selection
              (fun _ => Normal accepted) (fun _ => Normal accepted)
              unselectedW unselectedP (JStr "i1") (JStr "note") stored
              eq_refl eq_refl) as (_ & H & _).
  exact H.
Defined.

Lemma filter_not_list_readable k id l :
  readable l ->
  filter_list (field_is_not k id) l =
  Normal (List.filter (fun x => negb (holds (field_is k id x))) l).
Proof.
  induction 1 as [|x l Hx _ IH]; [reflexivity|].
  cbn [filter_list List.filter]. unfold field_is_not at 1, field_is at 1.
  destruct (get_defined x k Hx) as [v ->]. rewrite IH. cbn [holds].
  destruct (strict_eq v id); reflexivity.
Qed.

(** X29.  The bulk and by-symbol operations on the items, with a
    watchlist selected and a list of items.  [removeStockBySymbol] of a
    symbol that is a primitive (a string, as symbols are), when the
    service accepts it, removes exactly the items whose symbol is
    strictly equal to the given one (no case folding).  [addStocks] that
    the service refuses, or whose request rejects, adds nothing locally
    (unlike [addStock]): the items stay as they were, the failure goes to
    [error] and is returned, and [loading] is reset.
    [isStockInWatchlist] answers the empty list to a refusal and calls no
    setter; localStorage is then as the refused call left it (without
    the token after a 401 that had no JSON body, untouched
    otherwise). *)
Theorem bulk_operations_change_items_only_on_success
  (remote : WM.call -> completion envelope) (st : W.state)
  (symbol symbols id d sc : jval) (its : list jval) (ls : storage) :
  primitive symbol = true ->
  truthy (W.currentWatchlist st) = true ->
  get (W.currentWatchlist st) "id" = Normal id ->
  W.items st = JArr its -> readable its ->
  remote (WM.RemoveStockBySymbol id symbol) = Normal (Success d sc) ->
  failed (remote (WM.AddStocks id symbols)) = true ->
  WM.run_log st (log (WM.removeStockBySymbol remote st symbol ls))
    = Normal (with_items st
                (JArr (List.filter
                         (fun x => negb (holds (field_is "symbol" symbol x)))
                         its))) /\
  res (WM.addStocks remote st symbols ls)
    = Normal (reported (remote (WM.AddStocks id symbols))) /\
  WM.run_log st (log (WM.addStocks remote st symbols ls))
    = Normal (with_error st (reported_error (remote (WM.AddStocks id symbols))))
  /\
  (forall err,
     remote (WM.FindStockInWatchlists symbol) = Normal (Failure err) ->
     WM.isStockInWatchlist remote symbol ls =
     mkResult (Normal (JArr [])) (A.after_call (Normal (Failure err)) ls)
       [WM.Remote (WM.FindStockInWatchlists symbol)]).
Proof.
  intros _ Hc Hid Hits Hread Hrm Hadd. split; [|split; [|split]].
  - change (post (WM.removeStockBySymbol remote st symbol) ls
              (fun _ _ l => WM.run_log st l =
                 Normal (with_items st
                   (JArr (List.filter
                        (fun x => negb (holds (field_is "symbol" symbol x)))
                        its))))).
    unfold WM.removeStockBySymbol, WM.await, WM.setLoading, WM.setError.
    rewrite Hc. cbn [negb]. run. rewrite Hid. run. rewrite Hrm. run.
    cbn [app WM.run_log WM.apply_event W.apply_event W.items W.watchlists
         W.currentWatchlist W.loading W.error].
    rewrite Hits. cbn [js_filter].
    rewrite (filter_not_list_readable _ _ _ Hread). reflexivity.
  - change (post (WM.addStocks remote st symbols) ls
              (fun r _ _ =>
                 r = Normal (reported (remote (WM.AddStocks id symbols))))).
    unfold WM.addStocks, WM.await, WM.setLoading, WM.setError.
    rewrite Hc. cbn [negb]. run. rewrite Hid. run.
    destruct (remote (WM.AddStocks id symbols)) as [[d' sc'|err]|e];
      [discriminate Hadd | |]; run; reflexivity.
  - change (post (WM.addStocks remote st symbols) ls
              (fun _ _ l => WM.run_log st l =
                 Normal (with_error st
                   (reported_error (remote (WM.AddStocks id symbols)))))).
    unfold WM.addStocks, WM.await, WM.setLoading, WM.setError.
    rewrite Hc. cbn [negb]. run. rewrite Hid. run.
    destruct (remote (WM.AddStocks id symbols)) as [[d' sc'|err]|e];
      [discriminate Hadd | |]; run; reflexivity.
  - intros err Hfind. apply run_eq. unfold WM.isStockInWatchlist, WM.await.
    run. rewrite Hfind. run. reflexivity.
Qed.

Lemma bulk_operations_change_items_only_on_success_witness :
  WM.run_log watching
    (log (WM.removeStockBySymbol
            (fun c => match c with
                      | WM.AddStocks _ _ => Throw offline
                      | _ => Normal accepted
                      end) watching (JStr "msft") stored))
  = Normal watching.
Proof.
  refine (proj1 (bulk_operations_change_items_only_on_success
            (fun c => match c with
                      | WM.AddStocks _ _ => Throw offline
                      | _ => Normal accepted
                      end) watching (JStr "msft") (JArr []) (JStr "x")
            (env_data accepted) (JInt 200) [iMSFT; iKO] stored
            eq_refl eq_refl eq_refl eq_refl _ eq_refl eq_refl)).
  repeat constructor.
Defined.

(** X30.  Changing a transaction and reading the performance, with a
    portfolio selected.  An [updateTransaction] the service refuses only
    stores the refusal in [error], and localStorage is as the refused
    call left it.  A [deleteTransaction] the service accepts re-selects
    the current portfolio; if the selection returns it then re-reads the
    transactions, and if that returns too it resets [loading] (an
    operation that throws leaves the rest undone, [loading] included);
    nothing is removed locally.  [fetchPerformance] stores the payload of a success
    in [performance] and ignores a refusal; it touches neither [loading]
    nor [error]. *)
Theorem transaction_changes_refresh_only_on_success
  (remote : PM.call -> completion envelope) (st : P.state)
  (transactionId data period id err d sc : jval) (answer : envelope)
  (ls : storage) :
  truthy (P.currentPortfolio st) = true ->
  get (P.currentPortfolio st) "id" = Normal id ->
  remote (PM.UpdateTransaction id transactionId data) = Normal (Failure err) ->
  remote (PM.DeleteTransaction id transactionId) = Normal (Success d sc) ->
  remote (PM.GetPerformance id
            match period with JUndef => JStr "1M" | _ => period end)
    = Normal answer ->
  let select := P.selectPortfolio (fun c => remote (PM.Base c)) id ls in
  let reread :=
    P.fetchTransactions (fun c => remote (PM.Base c)) st JUndef
      (store select) in
  PM.updateTransaction remote st transactionId data ls =
    mkResult (Normal (Some (Failure err)))
      (A.after_call (Normal (Failure err)) ls)
      [PM.Core (P.SetLoading true);
       PM.Remote (PM.UpdateTransaction id transactionId data);
       PM.Core (P.SetError err); PM.Core (P.SetLoading false)] /\
  log (PM.deleteTransaction remote st transactionId ls) =
    [PM.Core (P.SetLoading true);
     PM.Remote (PM.DeleteTransaction id transactionId)]
    ++ List.map PM.Core (log select)
    ++ match res select with
       | Throw _ => []
       | Normal _ =>
           List.map PM.Core (log reread)
           ++ match res reread with
              | Throw _ => []
              | Normal _ => [PM.Core (P.SetLoading false)]
              end
       end /\
  PM.run_log st (log (PM.fetchPerformance remote st period ls)) =
    P.mkState (P.portfolios st) (P.currentPortfolio st) (P.holdings st)
      (P.transactions st)
      (if env_success answer then env_data answer else P.performance st)
      (P.loading st) (P.error st).
Proof.
  intros Hc Hid Hup Hdel Hperf select reread. subst select reread.
  split; [|split].
  - apply run_eq.
    unfold PM.updateTransaction, PM.change_transaction, PM.await,
      PM.setLoading, PM.setError.
    rewrite Hc. cbn [negb]. run. rewrite Hid. run. rewrite Hup. run.
    reflexivity.
  - match goal with
    | |- log ?m = ?l =>
        change (post (PM.deleteTransaction remote st transactionId) ls
                  (fun _ _ l' => l' = l))
    end.
    unfold PM.deleteTransaction, PM.change_transaction, PM.await,
      PM.setLoading, PM.setError.
    rewrite Hc. cbn [negb]. run. rewrite Hid. run. rewrite Hdel. run.
    unfold PM.selectPortfolio, PM.core, post at 1. cbn [res store log].
    destruct (res (P.selectPortfolio _ id ls)) as [[]|e];
      [|cbn [app]; rewrite ?app_nil_r; reflexivity].
    unfold PM.fetchTransactions, PM.core, post at 1. cbn [res store log].
    destruct (res (P.fetchTransactions _ st JUndef _)) as [[]|e]; run;
      cbn [app]; rewrite <- ?app_assoc, ?app_nil_r; reflexivity.
  - match goal with
    | |- PM.run_log st (log ?m) = ?x =>
        change (post (PM.fetchPerformance remote st period) ls
                  (fun _ _ l => PM.run_log st l = x))
    end.
    unfold PM.fetchPerformance, PM.await. rewrite Hc. cbn [negb]. run.
    rewrite Hid. run. rewrite Hperf. run.
    destruct st, answer; run; reflexivity.
Qed.

Lemma transaction_changes_refresh_only_on_success_witness :
  PM.calls
    (log (PM.deleteTransaction
            (fun c => match c with
                      | PM.UpdateTransaction _ _ _ => Normal not_found
                      | PM.Base (P.GetHoldings _) => Normal not_found
                      | _ => Normal accepted
                      end) selectedP (JStr "t1") stored))
  = [PM.DeleteTransaction (JStr "p1") (JStr "t1");
     PM.Base (P.GetById (JStr "p1"));
     PM.Base (P.GetHoldings (JStr "p1"));
     PM.Base (P.GetTransactions (JStr "p1") (JObj []))].
Proof.
  destruct (transaction_changes_refresh_only_on_success
              (fun c => match c with
                        | PM.UpdateTransaction _ _ _ => Normal not_found
                        | PM.Base (P.GetHoldings _) => Normal not_found
                        | _ => Normal accepted
                        end) selectedP (JStr "t1") JNull JUndef (JStr "p1")
              (env_error not_found) (env_data accepted) (JInt 200) accepted
              stored eq_refl eq_refl eq_refl eq_refl eq_refl)
    as (_ & H & _).
  rewrite H. reflexivity.
Defined.
